(** * bldd (backward ldd): the matching-and-aggregation engine of [src/bldd.c]

    A shallow embedding of [bldd.c]: the search-term normalisation and the
    matcher of [get_dependencies], the aggregation store ([archs],
    [arch_count], [total_execs]) with [find_or_add_architecture],
    [find_or_add_library] and [add_executable], the directory walk of
    [scan_directory], the two report generators, [parse_arguments] and
    [main].

    Conventions.
    - A C string is a [string]; [strcmp (a, b) == 0] is [String.eqb a b].
    - An array with a running count ([archs]/[arch_count],
      [libraries]/[lib_count], [execs]/[exec_count]) is the list of its first
      [count] slots; the count is the length of the list.  [main] zeroes
      [archs], and the program indexes the arrays only with what the two
      [find_or_add] functions return (a slot below the count, or -1), so a
      slot past the count holds zeroes until it is taken into use: it reads
      as zero, and a write to it is not kept.
    - An access outside an object (an index outside the array bounds, a copy
      longer than its destination, [free] of a pointer that [malloc] did not
      return) has no defined behaviour in C: it is the outcome [Fault].
    - [stderr] is the list of diagnostics written so far, oldest first.
      Progress messages on [stdout] are not modelled. *)

From Stdlib Require Import ZArith String Ascii Lia DecimalString.
From stdpp Require Import base tactics option list sorting strings.

Local Open Scope Z_scope.

(** stdpp keeps [String.append] folded; the proofs below compute with it. *)
#[local] Arguments String.append !_ _ / : simpl nomatch.

(** ** Constants of [bldd.c] *)

Definition MAX_LIBS : Z := 100.
Definition MAX_PATH : Z := 4096.
Definition MAX_EXECS : Z := 10000.
Definition MAX_LINE : Z := 1024.
Definition MAX_ARCH : Z := 4.
Definition MAX_HEADER_SIZE : Z := 100.
Definition SEPARATOR : string := "----------".

(** ** C strings *)

Module CString.

(** [strstr (hay, needle) != NULL]. *)
Fixpoint strstr (hay needle : string) : bool :=
  if String.prefix needle hay then true
  else match hay with
       | EmptyString => false
       | String _ hay' => strstr hay' needle
       end.

(** [strncmp (s, lit, strlen (lit)) == 0]. *)
Definition strncmp_eq (s lit : string) : bool := String.prefix lit s.

(** The text [snprintf (buf, size, ...)] leaves in [buf]: at most
    [size - 1] characters of the formatted text. *)
Definition snprintf (size : Z) (text : string) : string :=
  String.substring 0 (Z.to_nat (size - 1)) text.

(** The text [strncpy (dst, src, n)] leaves in a zeroed [dst] of more than
    [n] bytes. *)
Definition strncpy (n : Z) (src : string) : string :=
  String.substring 0 (Z.to_nat n) src.

Definition strlen (s : string) : Z := Z.of_nat (String.length s).

(** ["%d"]. *)
Definition fmt_d (n : Z) : string := NilEmpty.string_of_int (Z.to_int n).

End CString.
Import CString.

(** ** Outcomes of a call *)

(** The objects whose bounds the code can leave. *)
Inductive object : Set :=
  | Obj_options_libs     (* the MAX_LIBS pointers malloc'ed by parse_arguments *)
  | Obj_options_dir      (* char dir[MAX_PATH] *)
  | Obj_options_output   (* char output[MAX_PATH] *)
  | Obj_lib_name         (* char lib_name[256] of get_dependencies *)
  | Obj_lib_pattern      (* char lib_pattern[256] of get_dependencies *)
  | Obj_archs            (* Architecture archs[MAX_ARCH] *)
  | Obj_libraries        (* Library libraries[MAX_LIBS] *)
  | Obj_heap.            (* free of a pointer not obtained from malloc *)

(** ** The data model *)

Record Library : Type := mkLibrary {
  lib_name : string;            (* char name[256] *)
  lib_execs : list string       (* execs[0 .. exec_count) *)
}.

Record Architecture : Type := mkArchitecture {
  arch_name : string;               (* char name[32] *)
  arch_libraries : list Library     (* libraries[0 .. lib_count) *)
}.

Definition exec_count (l : Library) : Z := Z.of_nat (List.length (lib_execs l)).
Definition lib_count (a : Architecture) : Z :=
  Z.of_nat (List.length (arch_libraries a)).

(** A report file.  [file_lines] holds, for a text report, the text of each
    [fprintf] call without the newline that ends it, in the order of the
    calls, and for a PDF the text items of its [HPDF_Page_TextOut] calls.
    An entry of a text report is one line of the file unless it contains a
    newline itself, which a name or a path can: the characters of the
    file are [file_text]. *)
Record File : Type := mkFile {
  file_name : string;
  file_lines : list string;
  file_complete : bool     (* false: a write to the stream failed *)
}.

(** The newline character. *)
Definition newline : ascii := "010"%char.

(** What a sequence of [fprintf (fp, "...\n")] calls writes, given the text
    each call puts before its newline. *)
Fixpoint unlines (texts : list string) : string :=
  match texts with
  | [] => ""
  | text :: rest => text +:+ String newline (unlines rest)
  end.


(** The globals of [bldd.c] and the part of the outside world the program
    writes. *)
Record World : Type := mkWorld {
  archs : list Architecture;     (* archs[0 .. arch_count) *)
  total_execs : Z;
  stderr : list string;
  files : list File
}.

Definition arch_count (w : World) : Z := Z.of_nat (List.length (archs w)).

Definition set_archs (w : World) (l : list Architecture) : World :=
  mkWorld l (total_execs w) (stderr w) (files w).
Definition set_total_execs (w : World) (n : Z) : World :=
  mkWorld (archs w) n (stderr w) (files w).
Definition eprint (w : World) (msg : string) : World :=
  mkWorld (archs w) (total_execs w) (stderr w ++ [msg]) (files w).
Definition add_file (w : World) (f : File) : World :=
  mkWorld (archs w) (total_execs w) (stderr w) (files w ++ [f]).

(** The state after [memset (archs, 0, sizeof (archs))] in [main]. *)
Definition initial_world : World := mkWorld [] 0 [] [].

Inductive result (A : Type) : Type :=
  | Ok (a : A) (w : World)       (* the call returns [a] *)
  | Exit (status : Z) (w : World) (* the call ends the process: exit (status) *)
  | Fault (o : object).          (* access outside [o] *)
Arguments Ok {A} a w.
Arguments Exit {A} status w.
Arguments Fault {A} o.

Definition M (A : Type) : Type := World -> result A.

Definition ret {A} (a : A) : M A := fun w => Ok a w.
Definition bind {A B} (m : M A) (k : A -> M B) : M B :=
  fun w => match m w with
           | Ok a w' => k a w'
           | Exit s w' => Exit s w'
           | Fault o => Fault o
           end.
Definition fault {A} (o : object) : M A := fun _ => Fault o.
Definition exit {A} (status : Z) : M A := fun w => Exit status w.
Definition fprintf_stderr (msg : string) : M unit := fun w => Ok tt (eprint w msg).

Notation "'let*' x ':=' m 'in' k" := (bind m (fun x => k))
  (at level 10, x name, m at level 100, k at level 200).
Notation "m '>>' k" := (bind m (fun _ => k))
  (at level 100, k at level 200, right associativity).

(** [for (i = 0; i < n; i++) if (strcmp (slot[i].name, key) == 0) return i;] *)
Fixpoint find_name {A} (name_of : A -> string) (key : string) (slots : list A)
    (i : Z) : option Z :=
  match slots with
  | [] => None
  | x :: rest =>
      if String.eqb (name_of x) key then Some i
      else find_name name_of key rest (i + 1)
  end.

(** ** Search-term normalisation (bldd.c, lines 360-371) *)

(** [strcpy (dst, src)] into [char dst[size]]: [None] when the copy, with its
    terminating zero, does not fit. *)
Definition strcpy (size : Z) (src : string) : option string :=
  if strlen src <? size then Some src else None.

(** The pattern [get_dependencies] builds in [char lib_pattern[256]] from one
    search term; [None] when [strcpy] overruns the buffer. *)
Definition lib_pattern (lib_search : string) : option string :=
  if negb (strstr lib_search ".so") then
    if negb (strncmp_eq lib_search "lib") then
      Some (snprintf 256 ("lib" +:+ lib_search +:+ ".so"))
    else
      Some (snprintf 256 (lib_search +:+ ".so"))
  else
    strcpy 256 lib_search.

(** ** The aggregation store (bldd.c, lines 391-449) *)

Definition zero_Library : Library := mkLibrary "" [].
Definition zero_Architecture : Architecture := mkArchitecture "" [].

(** [&archs[arch_index]]: the slot, when the index is inside the array. *)
Definition arch_slot (arch_index : Z) : M Architecture :=
  fun w =>
    if (arch_index <? 0) || (MAX_ARCH <=? arch_index) then Fault Obj_archs
    else Ok (nth (Z.to_nat arch_index) (archs w) zero_Architecture) w.

(** [&arch->libraries[lib_index]]. *)
Definition lib_slot (arch : Architecture) (lib_index : Z) : M Library :=
  fun w =>
    if (lib_index <? 0) || (MAX_LIBS <=? lib_index) then Fault Obj_libraries
    else Ok (nth (Z.to_nat lib_index) (arch_libraries arch) zero_Library) w.

(** A write through [&archs[arch_index]].  A slot past [arch_count] is not
    part of the store: [find_or_add_architecture] initialises it again when
    it takes it into use. *)
Definition store_arch (arch_index : Z) (a : Architecture) : M unit :=
  fun w => Ok tt (set_archs w (<[Z.to_nat arch_index := a]> (archs w))).

Definition find_or_add_architecture (arch : string) : M Z :=
  fun w =>
    match find_name arch_name arch (archs w) 0 with
    | Some i => Ok i w
    | None =>
        if arch_count w <? MAX_ARCH then
          Ok (arch_count w)
             (set_archs w (archs w ++ [mkArchitecture (strncpy 31 arch) []]))
        else
          Ok (-1) (eprint w "Error: Too many architectures")
    end.

Definition find_or_add_library (arch_index : Z) (name : string) : M Z :=
  let* arch := arch_slot arch_index in
  match find_name lib_name name (arch_libraries arch) 0 with
  | Some i => ret i
  | None =>
      if lib_count arch <? MAX_LIBS then
        store_arch arch_index
          (mkArchitecture (arch_name arch)
             (arch_libraries arch ++ [mkLibrary (strncpy 255 name) []])) >>
        ret (lib_count arch)
      else
        fprintf_stderr
          ("Error: Too many libraries for architecture " +:+ arch_name arch) >>
        ret (-1)
  end.

Definition add_executable (arch_index lib_index : Z) (exec_path : string)
    : M unit :=
  let* arch := arch_slot arch_index in
  let* lib := lib_slot arch lib_index in
  if existsb (fun e => String.eqb e exec_path) (lib_execs lib) then
    ret tt
  else if exec_count lib <? MAX_EXECS then
    store_arch arch_index
      (mkArchitecture (arch_name arch)
         (<[Z.to_nat lib_index :=
              mkLibrary (lib_name lib) (lib_execs lib ++ [exec_path])]>
            (arch_libraries arch))) >>
    (fun w => Ok tt (set_total_execs w (total_execs w + 1)))
  else
    fprintf_stderr ("Error: Too many executables for library " +:+ lib_name lib).

(** The store's [record (architecture, canonical_library_name,
    executable_path)]: the three calls of [get_dependencies] on a match
    (lines 374-376). *)
Definition record (arch name file_path : string) : M unit :=
  let* arch_index := find_or_add_architecture arch in
  let* lib_index := find_or_add_library arch_index name in
  add_executable arch_index lib_index file_path.

(** ** Program options *)

Record Options : Type := mkOptions {
  libs : list string;      (* libs[0 .. lib_count) *)
  dir : string;
  output : string;
  txt_format : bool;
  pdf_format : bool
}.

(** ** The environment the program reads *)

(** What [S_ISDIR] and [S_ISREG] tell apart in [st_mode]. *)
Inductive file_type : Set := S_IFDIR | S_IFREG | S_IFLNK | S_IFOTHER.

Definition S_ISDIR (t : file_type) : bool :=
  match t with S_IFDIR => true | _ => false end.
Definition S_ISREG (t : file_type) : bool :=
  match t with S_IFREG => true | _ => false end.

Record Env : Type := mkEnv {
  (** [opendir]/[readdir]: the [d_name]s in the order [readdir] yields them
      (with ["."] and [".."]); [None] when [opendir] returns NULL. *)
  opendir : string -> option (list string);
  (** [lstat]: the type of the entry itself, a symbolic link is not
      followed; [None] when [lstat] returns -1. *)
  lstat : string -> option file_type;
  (** [access (path, X_OK) == 0]. *)
  access_X_OK : string -> bool;
  (** The status of [system ("readelf -h ... >/dev/null 2>&1")]. *)
  system_readelf_h : string -> Z;
  (** The lines [fgets] reads from [popen ("readelf -h ...")] and from
      [popen ("readelf -d ...")]; [None] when [popen] returns NULL. *)
  popen_readelf_h : string -> option (list string);
  popen_readelf_d : string -> option (list string);
  (** [fopen (path, "w") != NULL], and whether the writes to the stream
      succeed. *)
  fopen_w : string -> bool;
  stream_writes_ok : string -> bool;
  (** libharu: [HPDF_New] returns a document, [HPDF_SaveToFile] returns
      [HPDF_OK], and [HPDF_Page_TextWidth (page, path)] exceeds
      [page_width - margin * 2 - 20]. *)
  HPDF_New_ok : bool;
  HPDF_SaveToFile_ok : string -> bool;
  HPDF_too_wide : string -> bool;
  (** [basename] of libgen.h: the name, and whether the pointer it returns is
      its argument (and not a place inside it or static storage). *)
  basename : string -> string * bool
}.

#[global] Instance file_type_eq_dec : EqDecision file_type.
Proof. solve_decision. Defined.

(** The path [scan_directory] builds for an entry:
    [snprintf (path, MAX_PATH, "%s/%s", dir_path, entry->d_name)]. *)
Definition entry_path (dir_path d_name : string) : string :=
  snprintf MAX_PATH (dir_path +:+ "/" +:+ d_name).

Section Scan.

Context (E : Env).

(** ** Classification of a file (bldd.c, lines 283-330) *)

Definition is_executable (file_path : string) : bool :=
  if negb (access_X_OK E file_path) then false
  else system_readelf_h E file_path =? 0.

Fixpoint machine_of_lines (lines : list string) : string :=
  match lines with
  | [] => "unknown"
  | line :: rest =>
      if strstr line "Machine:" then
        if strstr line "Advanced Micro Devices X86-64"
           || strstr line "AMD x86-64" then "x86_64"
        else if strstr line "Intel 80386" then "x86"
        else if strstr line "ARM aarch64" || strstr line "AArch64"
             then "aarch64"
        else if strstr line "ARM" then "armv7"
        else machine_of_lines rest
      else machine_of_lines rest
  end.

Definition get_architecture (file_path : string) : string :=
  match popen_readelf_h E file_path with
  | None => "unknown"
  | Some lines => machine_of_lines lines
  end.

(** ** The matcher (bldd.c, lines 359-379) *)

(** [for (i = 0; i < lib_count; i++)]: the terms in the order they were
    supplied; the first whose pattern occurs in [name] records the file and
    leaves the loop. *)
Fixpoint match_terms (terms : list string) (arch name file_path : string)
    : M unit :=
  match terms with
  | [] => ret tt
  | lib_search :: rest =>
      match lib_pattern lib_search with
      | None => fault Obj_lib_pattern
      | Some pattern =>
          if strstr name pattern then record arch pattern file_path
          else match_terms rest arch name file_path
      end
  end.

(** The text between the first ["["] and the first ["]"] of a line, copied
    into [char lib_name[256]]. *)
Definition needed_name (line : string) : option (option string) :=
  match String.index 0 "[" line, String.index 0 "]" line with
  | Some s, Some e =>
      if (s <? e)%nat then
        if (e - s - 1 <? 256)%nat
        then Some (Some (String.substring (S s) (e - s - 1) line))
        else Some None
      else None
  | _, _ => None
  end.

Fixpoint needed_lines (lines : list string) (terms : list string)
    (arch file_path : string) : M unit :=
  match lines with
  | [] => ret tt
  | line :: rest =>
      if strstr line "(NEEDED)" then
        match needed_name line with
        | Some (Some name) =>
            match_terms terms arch name file_path >>
            needed_lines rest terms arch file_path
        | Some None => fault Obj_lib_name
        | None => needed_lines rest terms arch file_path
        end
      else needed_lines rest terms arch file_path
  end.

Definition get_dependencies (file_path : string) (terms : list string)
    (arch : string) : M unit :=
  match popen_readelf_d E file_path with
  | None => fprintf_stderr ("Failed to run readelf on " +:+ file_path)
  | Some lines => needed_lines lines terms arch file_path
  end.

(** ** The directory walk (bldd.c, lines 225-281) *)

(** The body of [else if (S_ISREG (statbuf.st_mode))]. *)
Definition scan_file (path : string) (options : Options) : M unit :=
  if is_executable path then
    let arch := get_architecture path in
    if negb (String.eqb arch "unknown") then
      get_dependencies path (libs options) arch
    else ret tt
  else ret tt.

(** [while ((entry = readdir (dir)) != NULL)]; [descend] is the recursive
    call.  The result is [None] when the recursion budget of the model is
    used up. *)
Fixpoint scan_entries (descend : string -> World -> option (result unit))
    (dir_path : string) (entries : list string) (options : Options)
    (w : World) : option (result unit) :=
  match entries with
  | [] => Some (Ok tt w)
  | d_name :: rest =>
      if String.eqb d_name "." || String.eqb d_name ".." then
        scan_entries descend dir_path rest options w
      else
        let path := entry_path dir_path d_name in
        match lstat E path with
        | None => scan_entries descend dir_path rest options w
        | Some t =>
            if S_ISDIR t then
              match descend path w with
              | Some (Ok _ w') => scan_entries descend dir_path rest options w'
              | other => other
              end
            else if S_ISREG t then
              match scan_file path options w with
              | Ok _ w' => scan_entries descend dir_path rest options w'
              | other => Some other
              end
            else scan_entries descend dir_path rest options w
        end
  end.

Fixpoint scan_directory (fuel : nat) (dir_path : string) (options : Options)
    (w : World) : option (result unit) :=
  match fuel with
  | O => None
  | S fuel' =>
      match opendir E dir_path with
      | None => Some (Ok tt (eprint w ("Cannot open directory: " +:+ dir_path)))
      | Some entries =>
          scan_entries (fun path => scan_directory fuel' path options)
            dir_path entries options w
      end
  end.

End Scan.

(** ** [qsort] *)

(** What the C standard asks of a comparison function: the answers for a
    pair and for the swapped pair have opposite signs, and [<= 0] is
    transitive. *)
Definition consistent {A} (compar : A -> A -> Z) : Prop :=
  (forall a b, Z.sgn (compar a b) = - Z.sgn (compar b a)) /\
  (forall a b c, compar a b <= 0 -> compar b c <= 0 -> compar a c <= 0).

(** [qsort (base, nmemb, size, compar)] of libc.  The standard fixes neither
    the algorithm nor the order of elements that compare equal: an
    implementation is any function that permutes the array and leaves it in
    ascending order of [compar]. *)
Class Qsort : Type := mkQsort {
  qsort : forall {A : Type}, (A -> A -> Z) -> list A -> list A;
  qsort_Permutation :
    forall {A} (compar : A -> A -> Z) (base : list A), qsort compar base ≡ₚ base;
  qsort_StronglySorted :
    forall {A} (compar : A -> A -> Z) (base : list A),
      consistent compar ->
      StronglySorted (fun a b => compar a b <= 0) (qsort compar base)
}.

(** bldd.c, lines 452-457.  The counts are between 0 and MAX_EXECS, so the
    [int] subtraction does not wrap. *)
Definition compare_libraries (lib_a lib_b : Library) : Z :=
  exec_count lib_b - exec_count lib_a.

(** ** Reports (bldd.c, lines 459-655) *)

Section Reports.

Context (E : Env) {Q : Qsort}.

(** [qsort (arch->libraries, arch->lib_count, sizeof (Library),
    compare_libraries)]: the array of the store itself is sorted. *)
Definition sort_libraries (arch : Architecture) : Architecture :=
  mkArchitecture (arch_name arch)
    (qsort compare_libraries (arch_libraries arch)).

Definition arch_header (arch : Architecture) : string :=
  SEPARATOR +:+ " " +:+ strncpy 31 (arch_name arch) +:+ " " +:+ SEPARATOR.

Definition lib_header (lib : Library) : string :=
  lib_name lib +:+ " (" +:+ fmt_d (exec_count lib) +:+ " execs)".

(** The lines one library contributes to the text report. *)
Definition txt_library (lib : Library) : list string :=
  lib_header lib :: map (fun e => "-> " +:+ e) (lib_execs lib) ++ [""].

(** [for (a = 0; a < arch_count; a++)] of [generate_txt_report]: the
    architectures as the loop leaves them and the lines it prints. *)
Fixpoint txt_architectures (todo : list Architecture)
    : list Architecture * list string :=
  match todo with
  | [] => ([], [])
  | arch :: rest =>
      let arch' := sort_libraries arch in
      let '(rest', lines) := txt_architectures rest in
      (arch' :: rest',
       arch_header arch
         :: concat (map txt_library (arch_libraries arch')) ++ lines)
  end.

Definition txt_title : list string :=
  ["Report on dynamic used libraries by ELF executables";
   "------------------------------------------------------------"].

Definition generate_txt_report (options : Options) : M unit :=
  fun w =>
    if MAX_PATH <? strlen (output options) + 5 then
      Ok tt (eprint w "Error: Output filename too long")
    else
      let output_file := snprintf MAX_PATH (output options +:+ ".txt") in
      if negb (fopen_w E output_file) then
        Ok tt (eprint w ("Error: Cannot create output file " +:+ output_file))
      else
        let '(archs', lines) := txt_architectures (archs w) in
        Ok tt (add_file (set_archs w archs')
                 (mkFile output_file (txt_title ++ lines)
                    (stream_writes_ok E output_file))).

(** The two [HPDF_Page_TextOut] calls for one executable.  A path too wide
    for the page is replaced by [".../"] and its [basename]; the code then
    passes the result of [basename] to [free], which is defined only when
    that is the block [strdup] returned. *)
Definition pdf_exec (path : string) : option (list string) :=
  if HPDF_too_wide E path then
    let '(base, same_block) := basename E path in
    if same_block then Some ["-> "; snprintf MAX_PATH (".../" +:+ base)]
    else None
  else Some ["-> "; path].

Fixpoint pdf_execs (paths : list string) : option (list string) :=
  match paths with
  | [] => Some []
  | path :: rest =>
      match pdf_exec path, pdf_execs rest with
      | Some items, Some items' => Some (items ++ items')
      | _, _ => None
      end
  end.

Fixpoint pdf_libraries (todo : list Library) : option (list string) :=
  match todo with
  | [] => Some []
  | lib :: rest =>
      match pdf_execs (lib_execs lib), pdf_libraries rest with
      | Some items, Some items' =>
          Some (snprintf MAX_HEADER_SIZE (lib_header lib) :: items ++ items')
      | _, _ => None
      end
  end.

(** [for (a = 0; a < arch_count; a++)] of [generate_pdf_report]; [None]
    when a [free] of the loop is undefined.  Page breaks, which depend on
    floating-point positions, do not change the text items or their
    order. *)
Fixpoint pdf_architectures (todo : list Architecture)
    : option (list Architecture * list string) :=
  match todo with
  | [] => Some ([], [])
  | arch :: rest =>
      let arch' := sort_libraries arch in
      match pdf_libraries (arch_libraries arch'), pdf_architectures rest with
      | Some items, Some (rest', items') =>
          Some (arch' :: rest',
                snprintf MAX_HEADER_SIZE (arch_header arch) :: items ++ items')
      | _, _ => None
      end
  end.

Definition pdf_title : list string :=
  ["Report on dynamic used libraries by ELF executables"].

(** With [PDF_SUPPORT] 1, the default.  The libharu calls other than
    [HPDF_New] and [HPDF_SaveToFile] are taken to succeed; what libharu
    itself has [error_handler] write to [stderr] when one of its calls
    fails is not modelled. *)
Definition generate_pdf_report (options : Options) : M unit :=
  fun w =>
    if MAX_PATH <? strlen (output options) + 5 then
      Ok tt (eprint w "Error: Output filename too long")
    else
      let output_file := snprintf MAX_PATH (output options +:+ ".pdf") in
      if negb (HPDF_New_ok E) then
        Ok tt (eprint w "Error: Cannot create PDF document")
      else
        match pdf_architectures (archs w) with
        | None => Fault Obj_heap
        | Some (archs', items) =>
            if negb (HPDF_SaveToFile_ok E output_file) then
              Ok tt (eprint (set_archs w archs')
                       ("Error: Cannot save PDF to " +:+ output_file))
            else
              Ok tt (add_file (set_archs w archs')
                       (mkFile output_file (pdf_title ++ items) true))
        end.

(** [main] after the scan (bldd.c, lines 87-109): the requested reports,
    the summary, [cleanup], and the exit status. *)
Definition generate_reports (options : Options) : M Z :=
  (if txt_format options then generate_txt_report options else ret tt) >>
  (if pdf_format options then generate_pdf_report options else ret tt) >>
  ret 0.

End Reports.

(** ** Command line (bldd.c, lines 112-208) *)

Section Main.

Context (E : Env) {Q : Qsort}.

Definition is_flag (arg long short : string) : bool :=
  String.eqb arg long || String.eqb arg short.

Definition set_libs (o : Options) (l : list string) : Options :=
  mkOptions l (dir o) (output o) (txt_format o) (pdf_format o).
Definition set_dir (o : Options) (d : string) : Options :=
  mkOptions (libs o) d (output o) (txt_format o) (pdf_format o).
Definition set_output (o : Options) (f : string) : Options :=
  mkOptions (libs o) (dir o) f (txt_format o) (pdf_format o).
Definition set_format (o : Options) (txt pdf : bool) : Options :=
  mkOptions (libs o) (dir o) (output o) txt pdf.

Definition die {A} (msg : string) (status : Z) : M A :=
  fprintf_stderr msg >> exit status.

(** [options->libs[options->lib_count] = strdup (...); options->lib_count++]
    on the array of MAX_LIBS pointers: no test of the count comes before
    the store. *)
Definition store_lib (o : Options) (term : string) : M Options :=
  if Z.of_nat (List.length (libs o)) <? MAX_LIBS
  then ret (set_libs o (libs o ++ [term]))
  else fault Obj_options_libs.

(** [for (i = 1; i < argc; i++)] over [argv[i ..]]; the result is the
    options and [dir_set]. *)
Fixpoint parse_loop (args : list string) (o : Options) (dir_set : bool)
    : M (Options * bool) :=
  match args with
  | [] => ret (o, dir_set)
  | arg :: rest =>
      if is_flag arg "--help" "-h" then exit 0
      else if is_flag arg "--lib" "-l" then
        match rest with
        | value :: rest' =>
            let* o' := store_lib o value in
            parse_loop rest' o' dir_set
        | [] => die "Error: --lib requires a library name" 1
        end
      else if is_flag arg "--dir" "-d" then
        match rest with
        | value :: rest' =>
            match strcpy MAX_PATH value with
            | Some d => parse_loop rest' (set_dir o d) true
            | None => fault Obj_options_dir
            end
        | [] => die "Error: --dir requires a directory path" 1
        end
      else if is_flag arg "--format" "-f" then
        match rest with
        | value :: rest' =>
            if String.eqb value "txt" then
              parse_loop rest' (set_format o true false) dir_set
            else if String.eqb value "pdf" then
              parse_loop rest' (set_format o false true) dir_set
            else if String.eqb value "both" then
              parse_loop rest' (set_format o true true) dir_set
            else die ("Error: Unknown format: " +:+ value) 1
        | [] => die "Error: --format requires a format type" 1
        end
      else if is_flag arg "--output" "-o" then
        match rest with
        | value :: rest' =>
            match strcpy MAX_PATH value with
            | Some f => parse_loop rest' (set_output o f) dir_set
            | None => fault Obj_options_output
            end
        | [] => die "Error: --output requires a filename" 1
        end
      else die ("Error: Unknown option: " +:+ arg) 1
  end.

(** The options after [memset] and the defaults of [parse_arguments]. *)
Definition default_options : Options := mkOptions [] "" "bldd_report" true false.

(** [argv] with [argv[0]] first.  [malloc] and [strdup] are taken to
    succeed; the text of [strerror] is left out of the last diagnostic. *)
Definition parse_arguments (argv : list string) : M Options :=
  if Z.of_nat (List.length argv) <? 2 then exit 0
  else
    let* parsed := parse_loop (tail argv) default_options false in
    let o := fst parsed in
    let dir_set := snd parsed in
    if Z.of_nat (List.length (libs o)) =? 0 then
      die "Error: At least one library must be specified with --lib" 1
    else if negb dir_set then
      die "Error: Scan directory must be specified with --dir" 1
    else
      match opendir E (dir o) with
      | None => die ("Error: Cannot open directory " +:+ dir o) 1
      | Some _ => ret o
      end.

(** [main]: [None] when the recursion budget of the walk is used up, else
    how the process ends. *)
Definition main (fuel : nat) (argv : list string) : option (result Z) :=
  match parse_arguments argv initial_world with
  | Ok options w =>
      match scan_directory E fuel (dir options) options w with
      | Some (Ok _ w') => Some (generate_reports E options w')
      | Some (Exit s w') => Some (Exit s w')
      | Some (Fault o) => Some (Fault o)
      | None => None
      end
  | Exit s w => Some (Exit s w)
  | Fault o => Some (Fault o)
  end.

End Main.

(** * Notions used in the statements *)

(** The normalisation rule in the words of the specification (section 4.5):
    the term verbatim if it contains [".so"], else with [".so"] appended if
    it begins with ["lib"], else with ["lib"] prepended and [".so"]
    appended. *)
Definition normalize_spec (term : string) : string :=
  if strstr term ".so" then term
  else if String.prefix "lib" term then term +:+ ".so"
  else "lib" +:+ term +:+ ".so".

(** A sequence of [record] calls, oldest first. *)
Fixpoint record_all (events : list (string * string * string)) : M unit :=
  match events with
  | [] => ret tt
  | (arch, name, file_path) :: rest =>
      record arch name file_path >> record_all rest
  end.

(** What [add_executable] does on a library of the store. *)
Definition add_executable_result (i j : nat) (a : Architecture)
    (lib : Library) (file_path : string) (w : World) : World :=
  if existsb (fun e => String.eqb e file_path) (lib_execs lib) then w
  else if exec_count lib <? MAX_EXECS then
    set_total_execs
      (set_archs w
         (<[i := mkArchitecture (arch_name a)
                   (<[j := mkLibrary (lib_name lib)
                             (lib_execs lib ++ [file_path])]>
                      (arch_libraries a))]> (archs w)))
      (total_execs w + 1)
  else eprint w ("Error: Too many executables for library " +:+ lib_name lib).

(** The outcomes of [record] on a store [w]. *)
Inductive record_view (arch name file_path : string) (w : World)
    : result unit -> Prop :=
  | record_view_known (i j : nat) (a : Architecture) (lib : Library) :
      find_name arch_name arch (archs w) 0 = Some (Z.of_nat i) ->
      archs w !! i = Some a -> Z.of_nat i < MAX_ARCH ->
      find_name lib_name name (arch_libraries a) 0 = Some (Z.of_nat j) ->
      arch_libraries a !! j = Some lib -> Z.of_nat j < MAX_LIBS ->
      record_view arch name file_path w
        (Ok tt (add_executable_result i j a lib file_path w))
  | record_view_new_library (i : nat) (a : Architecture) :
      find_name arch_name arch (archs w) 0 = Some (Z.of_nat i) ->
      archs w !! i = Some a -> Z.of_nat i < MAX_ARCH ->
      find_name lib_name name (arch_libraries a) 0 = None ->
      lib_count a < MAX_LIBS ->
      record_view arch name file_path w
        (Ok tt (set_total_execs
                  (set_archs w
                     (<[i := mkArchitecture (arch_name a)
                               (arch_libraries a
                                  ++ [mkLibrary (strncpy 255 name) [file_path]])]>
                        (archs w)))
                  (total_execs w + 1)))
  | record_view_new_architecture :
      find_name arch_name arch (archs w) 0 = None ->
      arch_count w < MAX_ARCH ->
      record_view arch name file_path w
        (Ok tt (set_total_execs
                  (set_archs w
                     (archs w ++ [mkArchitecture (strncpy 31 arch)
                                    [mkLibrary (strncpy 255 name) [file_path]]]))
                  (total_execs w + 1)))
  | record_view_fault (o : object) :
      record_view arch name file_path w (Fault o).

(** The sum of [f] over a list. *)
Fixpoint sumZ {A} (f : A -> Z) (l : list A) : Z :=
  match l with
  | [] => 0
  | x :: rest => f x + sumZ f rest
  end.

(** The number of (library, executable) pairs the store holds. *)
Definition library_total (a : Architecture) : Z :=
  sumZ exec_count (arch_libraries a).
Definition stored_pairs (w : World) : Z := sumZ library_total (archs w).

(** Invariant (d) of the data model. *)
Definition counter_invariant (w : World) : Prop :=
  total_execs w = stored_pairs w.

Definition preserves {A} (P : World -> Prop) (m : M A) : Prop :=
  forall w a w', P w -> m w = Ok a w' -> P w'.

(** A search term of 250 characters. *)
Definition long_term : string := string_of_list_ascii (repeat "a"%char 250).

(** [lib0.so], [lib1.so], ... *)
Definition library_names (n : nat) : list string :=
  map (fun k => "lib" +:+ fmt_d (Z.of_nat k) +:+ ".so") (seq 0 n).

(** One executable of x86_64 that needs MAX_LIBS libraries. *)
Definition full_events : list (string * string * string) :=
  map (fun name => ("x86_64", name, "/bin/a")) (library_names 100).

(** The store part of an outcome. *)
Definition store_of (r : result unit) : option (list Architecture * Z) :=
  match r with
  | Ok _ w => Some (archs w, total_execs w)
  | _ => None
  end.

(** An environment in which every call succeeds and no path is too wide. *)
Definition quiet_env : Env :=
  mkEnv (fun _ => None) (fun _ => None) (fun _ => true) (fun _ => 0)
    (fun _ => None) (fun _ => None) (fun _ => true) (fun _ => true) true
    (fun _ => true) (fun _ => false) (fun path => (path, false)).

(** A store whose second library has more executables than its first. *)
Definition unsorted_world : World :=
  mkWorld [mkArchitecture "x86_64"
             [mkLibrary "libm.so" ["/bin/b"];
              mkLibrary "libc.so" ["/bin/a"; "/bin/b"]]] 3 [] [].

(** The architectures correspond one to one, with the same names and the
    same libraries up to their order. *)
Definition same_up_to_library_order (before after : list Architecture) : Prop :=
  Forall2 (fun a a' => arch_name a' = arch_name a /\
                       arch_libraries a' ≡ₚ arch_libraries a) before after.

(** Non-increasing executable counts. *)
Definition by_descending_count (libraries : list Library) : Prop :=
  StronglySorted (fun x y => exec_count y <= exec_count x) libraries.

(** The text lines of an architecture whose libraries are in the order of
    emission. *)
Definition txt_architecture (a : Architecture) : list string :=
  arch_header a :: concat (map txt_library (arch_libraries a)).

(** Every library of [before] is in [after] at the same place, with its
    executable list unchanged or longer by [file_path] at the end. *)
Definition appends_only (file_path : string)
    (before after : list Architecture) : Prop :=
  forall i a, before !! i = Some a ->
    exists a', after !! i = Some a' /\ arch_name a' = arch_name a /\
      forall j lib, arch_libraries a !! j = Some lib ->
        exists lib', arch_libraries a' !! j = Some lib' /\
                     lib_name lib' = lib_name lib /\
                     (lib_execs lib' = lib_execs lib \/
                      lib_execs lib' = lib_execs lib ++ [file_path] /\
                      existsb (fun e => String.eqb e file_path) (lib_execs lib)
                      = false).

(** The paths recorded for a library of an architecture, call by call. *)
Definition paths_for (arch name : string)
    (events : list (string * string * string)) : list string :=
  snd <$> filter (fun e => e.1.1 = arch /\ e.1.2 = name) events.

(** The elements of a list at their first occurrence. *)
Fixpoint first_occurrences (l : list string) : list string :=
  match l with
  | [] => []
  | x :: rest => x :: filter (fun y => y <> x) (first_occurrences rest)
  end.

(** The first MAX_EXECS distinct paths recorded for a library, in the order
    in which they were first recorded. *)
Definition first_seen (arch name : string)
    (events : list (string * string * string)) : list string :=
  take (Z.to_nat MAX_EXECS) (first_occurrences (paths_for arch name events)).

(** The names of a call fit the [name] fields of the store. *)
Definition names_fit (e : string * string * string) : Prop :=
  strlen e.1.1 <= 31 /\ strlen e.1.2 <= 255.

(** The store holds what the calls [events] have recorded: one entry for
    each architecture and each library, and for each library the paths
    first seen. *)
Definition store_reflects (events : list (string * string * string))
    (w : World) : Prop :=
  NoDup (arch_name <$> archs w) /\
  (forall i a, archs w !! i = Some a -> NoDup (lib_name <$> arch_libraries a)) /\
  (forall i a j lib,
      archs w !! i = Some a -> arch_libraries a !! j = Some lib ->
      lib_execs lib = first_seen (arch_name a) (lib_name lib) events) /\
  (forall arch name file_path,
      (arch, name, file_path) ∈ events ->
      exists i a j lib,
        archs w !! i = Some a /\ arch_name a = arch /\
        arch_libraries a !! j = Some lib /\ lib_name lib = name).

(** Invariants (a), (b) and (c): architecture tags are unique, library names
    are unique within an architecture, and no library lists a path twice. *)
Definition data_model_invariants (w : World) : Prop :=
  NoDup (arch_name <$> archs w) /\
  Forall (fun a => NoDup (lib_name <$> arch_libraries a) /\
                   Forall (fun lib => NoDup (lib_execs lib))
                     (arch_libraries a)) (archs w).

(** Invariant (c) alone: no library lists a path twice, so that the length
    of a list is the size of a set. *)
Definition lists_are_sets (w : World) : Prop :=
  Forall (fun a => Forall (fun lib => NoDup (lib_execs lib)) (arch_libraries a))
    (archs w).

(** The text report cannot be created: the name is too long or [fopen]
    fails. *)
Definition txt_unwritable (E : Env) (options : Options) : bool :=
  (MAX_PATH <? strlen (output options) + 5)
  || negb (fopen_w E (snprintf MAX_PATH (output options +:+ ".txt"))).

(** The PDF cannot be created or saved. *)
Definition pdf_unwritable (E : Env) (options : Options) : bool :=
  (MAX_PATH <? strlen (output options) + 5)
  || negb (HPDF_New_ok E)
  || negb (HPDF_SaveToFile_ok E (snprintf MAX_PATH (output options +:+ ".pdf"))).

(** A disk on which files can be created but not written. *)
Definition full_disk_env : Env :=
  mkEnv (fun _ => None) (fun _ => None) (fun _ => true) (fun _ => 0)
    (fun _ => None) (fun _ => None) (fun _ => true) (fun _ => false) true
    (fun _ => true) (fun _ => false) (fun path => (path, false)).

(** No file can be created. *)
Definition read_only_env : Env :=
  mkEnv (fun _ => None) (fun _ => None) (fun _ => true) (fun _ => 0)
    (fun _ => None) (fun _ => None) (fun _ => false) (fun _ => false) true
    (fun _ => false) (fun _ => false) (fun path => (path, false)).

(** The arguments that are [--lib] or [-l]. *)
Definition lib_flags (args : list string) : nat :=
  List.length (filter (fun arg => is_flag arg "--lib" "-l" = true) args).

(** [--lib t1 --lib t2 ...]. *)
Definition lib_args (terms : list string) : list string :=
  flat_map (fun term => ["--lib"; term]) terms.

(** [path] is an entry of [dir_path], other than ["."] and [".."], that
    [lstat] reports as a directory: the only entries the walk descends
    into.  A symbolic link is never one, whatever it points to. *)
Definition real_subdirectory (E : Env) (dir_path path : string) : Prop :=
  exists entries d_name,
    opendir E dir_path = Some entries /\ d_name ∈ entries /\
    d_name <> "." /\ d_name <> ".." /\
    path = entry_path dir_path d_name /\ lstat E path = Some S_IFDIR.

(** A tree with a symbolic link back to its root: [/r/back -> /r].  Through
    the link the kernel shows [/r] again, without end. *)
Definition loop_env : Env :=
  mkEnv
    (fun p => if String.eqb p "/r" || String.eqb p "/r/back"
              then Some ["."; ".."; "bin"; "back"]
              else if String.eqb p "/r/bin" || String.eqb p "/r/back/bin"
              then Some ["."; ".."; "a"]
              else None)
    (fun p => if String.eqb p "/r/bin" || String.eqb p "/r/back/bin"
              then Some S_IFDIR
              else if String.eqb p "/r/back" || String.eqb p "/r/back/back"
              then Some S_IFLNK
              else if String.eqb p "/r/bin/a" || String.eqb p "/r/back/bin/a"
              then Some S_IFREG
              else None)
    (fun _ => true) (fun _ => 0)
    (fun _ => Some ["  Machine:     Advanced Micro Devices X86-64"])
    (fun _ => Some [" 0x01 (NEEDED)   Shared library: [libc.so.6]"])
    (fun _ => true) (fun _ => true) true (fun _ => true) (fun _ => false)
    (fun path => (path, false)).

Definition loop_rank (p : string) : nat :=
  if String.eqb p "/r" || String.eqb p "/r/back" then 1 else 0.

(** The tags [get_architecture] returns for a file that is processed. *)
Definition architecture_tags : list string := ["x86_64"; "x86"; "aarch64"; "armv7"].

(** The store fits its arrays. *)
Definition store_fits (w : World) : Prop :=
  arch_count w <= MAX_ARCH /\
  Forall (fun a => lib_count a <= MAX_LIBS /\
                   Forall (fun lib => exec_count lib <= MAX_EXECS)
                     (arch_libraries a)) (archs w).

(** ** Notions used in the properties of the walk *)

(** The store lists [file_path] under library [name] of architecture
    [arch]. *)
Definition lists (w : World) (arch name file_path : string) : Prop :=
  exists a lib,
    a ∈ archs w /\ arch_name a = arch /\
    lib ∈ arch_libraries a /\ lib_name lib = name /\
    file_path ∈ lib_execs lib.

(** The list of library [name] of architecture [arch] has no room left. *)
Definition library_full (w : World) (arch name : string) : Prop :=
  exists a lib,
    a ∈ archs w /\ arch_name a = arch /\
    lib ∈ arch_libraries a /\ lib_name lib = name /\
    MAX_EXECS <= exec_count lib.

(** [readelf -d file_path] prints a NEEDED line that names [dep]. *)
Definition needs (E : Env) (file_path dep : string) : Prop :=
  exists lines line,
    popen_readelf_d E file_path = Some lines /\ line ∈ lines /\
    strstr line "(NEEDED)" = true /\ needed_name line = Some (Some dep).

(** [name] is the pattern of the first of [terms] whose pattern occurs in
    [dep]. *)
Definition attributed (terms : list string) (dep name : string) : Prop :=
  exists before term after,
    terms = before ++ term :: after /\
    lib_pattern term = Some name /\ strstr dep name = true /\
    Forall (fun t => exists p, lib_pattern t = Some p /\ strstr dep p = false)
      before.

(** The directories [scan_directory] is called on in the walk of a
    directory: the directory itself and, for each of them, the entries that
    [lstat] reports as directories. *)
Inductive walked (E : Env) : string -> string -> Prop :=
  | walked_here (dir_path : string) : walked E dir_path dir_path
  | walked_below (dir_path sub target : string) :
      real_subdirectory E dir_path sub -> walked E sub target ->
      walked E dir_path target.

(** The paths the walk of [root] passes to [is_executable]: the entries of
    the directories it reads that [lstat] reports as regular files. *)
Definition scanned (E : Env) (root path : string) : Prop :=
  exists dir_path entries d_name,
    walked E root dir_path /\ opendir E dir_path = Some entries /\
    d_name ∈ entries /\ d_name <> "." /\ d_name <> ".." /\
    path = entry_path dir_path d_name /\ lstat E path = Some S_IFREG.

(** What makes the walk of [root] record [file_path] under [name] for
    [arch]. *)
Definition justified (E : Env) (options : Options)
    (root arch name file_path : string) : Prop :=
  scanned E root file_path /\
  is_executable E file_path = true /\
  get_architecture E file_path = arch /\ arch <> "unknown" /\
  exists dep, needs E file_path dep /\ attributed (libs options) dep name.

(** An outcome that is a state with [P], or an access outside an object
    that [allowed] admits; not the end of the process. *)
Definition outcome {A} (P : World -> Prop) (allowed : object -> Prop)
    (r : result A) : Prop :=
  match r with
  | Ok _ w => P w
  | Exit _ _ => False
  | Fault o => allowed o
  end.

(** The triple is in the store, as far as the list of its library has
    room. *)
Definition listed_or_full (arch name file_path : string) (w : World) : Prop :=
  lists w arch name file_path \/ library_full w arch name.

(** The names in the store are distinct and come from [tags] and
    [names]. *)
Definition names_within (tags names : list string) (w : World) : Prop :=
  NoDup (arch_name <$> archs w) /\
  Forall (fun a => arch_name a ∈ tags /\
                   NoDup (lib_name <$> arch_libraries a) /\
                   Forall (fun lib => lib_name lib ∈ names) (arch_libraries a))
    (archs w).

(** The patterns of the search terms. *)
Definition patterns (options : Options) : list string :=
  omap lib_pattern (libs options).

(** The diagnostics of the walk: an unreadable directory, a failed [popen],
    a full list of executables. *)
Definition walk_message (msg : string) : Prop :=
  (exists dir_path, msg = "Cannot open directory: " +:+ dir_path) \/
  (exists file_path, msg = "Failed to run readelf on " +:+ file_path) \/
  (exists name, msg = "Error: Too many executables for library " +:+ name).

(** The walk only adds to the store and to [stderr]. *)
Definition walk_effects (w w' : World) : Prop :=
  files w' = files w /\
  total_execs w <= total_execs w' /\
  (forall arch name file_path,
      lists w arch name file_path -> lists w' arch name file_path) /\
  exists msgs, stderr w' = stderr w ++ msgs /\ Forall walk_message msgs.

(** The search for libc in the tree of [loop_env]. *)
Definition loop_options : Options := mkOptions ["c"] "/r" "bldd_report" true false.

(** The store after the walk of [loop_env]. *)
Definition loop_world : World :=
  mkWorld [mkArchitecture "x86_64" [mkLibrary "libc.so" ["/r/bin/a"]]] 1 [] [].

(** No architecture without a library, no library without an
    executable. *)
Definition store_nonempty (w : World) : Prop :=
  Forall (fun a => arch_libraries a <> [] /\
                   Forall (fun lib => lib_execs lib <> []) (arch_libraries a))
    (archs w).

(** The text the PDF shows for an executable: the path, or [".../"] and the
    [basename] when the path is too wide for the page. *)
Definition pdf_path (E : Env) (path : string) : string :=
  if HPDF_too_wide E path then snprintf MAX_PATH (".../" +:+ fst (basename E path))
  else path.

(** The store lists a path that the PDF has to abbreviate and for which
    [basename] returns a pointer that is not the block of [strdup]. *)
Definition frees_inside (E : Env) (w : World) : Prop :=
  exists a lib path,
    a ∈ archs w /\ lib ∈ arch_libraries a /\ path ∈ lib_execs lib /\
    HPDF_too_wide E path = true /\ snd (basename E path) = false.

(** Pages too narrow for every path, and a [basename] that returns a
    pointer into its argument. *)
Definition narrow_page_env : Env :=
  mkEnv (fun _ => None) (fun _ => None) (fun _ => true) (fun _ => 0)
    (fun _ => None) (fun _ => None) (fun _ => true) (fun _ => true) true
    (fun _ => true) (fun _ => true) (fun path => ("a", false)).

(** ** Notions used in the properties of the reports *)

(** The text items of a library in the PDF: its header, cut to the header
    buffer, and for each executable of its list, in order, the arrow and
    the path as the page shows it. *)
Definition pdf_library (E : Env) (lib : Library) : list string :=
  snprintf MAX_HEADER_SIZE (lib_header lib)
    :: concat (map (fun path => ["-> "; pdf_path E path]) (lib_execs lib)).

(** The text items of an architecture whose libraries are in the order of
    emission. *)
Definition pdf_architecture (E : Env) (a : Architecture) : list string :=
  snprintf MAX_HEADER_SIZE (arch_header a)
    :: concat (map (pdf_library E) (arch_libraries a)).

(** The loop of the PDF abbreviates no path: when the PDF is requested and
    its document is begun, no path the store lists is too wide for the
    page. *)
Definition abbreviates_no_path (E : Env) (options : Options) (w : World)
    : Prop :=
  pdf_format options = true ->
  (MAX_PATH <? strlen (output options) + 5) = false ->
  HPDF_New_ok E = true ->
  forall a lib path,
    a ∈ archs w -> lib ∈ arch_libraries a -> path ∈ lib_execs lib ->
    HPDF_too_wide E path = false.

(** The lines of a text: what each newline ends and, if the text does not
    end in a newline, what follows the last one. *)
Fixpoint text_lines (text : string) : list string :=
  match text with
  | EmptyString => []
  | String c rest =>
      if Ascii.eqb c newline then "" :: text_lines rest
      else match text_lines rest with
           | [] => [String c ""]
           | line :: lines => String c line :: lines
           end
  end.



(** ** Long names *)

(** The 255-character pattern of [long_term], as a dependency name. *)
Definition cut_name : string := "lib" +:+ long_term +:+ ".s".

(** A search term of 256 characters that ends in [".so"]. *)
Definition overlong_term : string :=
  string_of_list_ascii (repeat "a"%char 253) +:+ ".so".



(** ** An implementation of [qsort] *)

Section MergeQsort.

Context {A : Type} (compar : A -> A -> Z).

Definition compar_le : relation A := fun a b => compar a b <= 0.

#[local] Instance compar_le_dec : RelDecision compar_le.
Proof. intros a b. unfold compar_le. apply Z_le_dec. Defined.

Lemma compar_le_total : consistent compar -> Total compar_le.
Proof.
  intros [Hsgn _] a b. unfold compar_le.
  specialize (Hsgn a b).
  destruct (Z_le_dec (compar a b) 0) as [|Hgt]; [by left | right].
  assert (Z.sgn (compar a b) = 1) as Hs by (apply Z.sgn_pos; lia).
  apply Z.lt_le_incl, Z.sgn_neg_iff. lia.
Qed.

Lemma compar_le_trans : consistent compar -> Transitive compar_le.
Proof. intros [_ Htrans] a b c. apply Htrans. Qed.

Definition merge_qsort_at (base : list A) : list A := merge_sort compar_le base.

Lemma merge_qsort_at_Permutation base : merge_qsort_at base ≡ₚ base.
Proof. apply merge_sort_Permutation. Qed.

Lemma merge_qsort_at_StronglySorted base :
  consistent compar -> StronglySorted compar_le (merge_qsort_at base).
Proof.
  intros Hc. unfold merge_qsort_at.
  apply (@StronglySorted_merge_sort _ _ _ (compar_le_trans Hc)
           (compar_le_total Hc)).
Qed.

End MergeQsort.

Definition merge_qsort : Qsort :=
  mkQsort (@merge_qsort_at)
    (@merge_qsort_at_Permutation)
    (@merge_qsort_at_StronglySorted).

(** * Properties *)

(** ** C strings *)

Section CStringFacts.

Lemma append_nil_r (s : string) : s +:+ "" = s.
Proof. induction s as [|c s IH]; simpl; [done | by rewrite IH]. Qed.

Lemma append_assoc (a b c : string) : (a +:+ b) +:+ c = a +:+ b +:+ c.
Proof. induction a as [|x a IH]; simpl; [done | by rewrite IH]. Qed.

Lemma length_append (a b : string) :
  String.length (a +:+ b) = (String.length a + String.length b)%nat.
Proof. induction a as [|x a IH]; simpl; [done | by rewrite IH]. Qed.

Lemma prefix_nil (h : string) : String.prefix "" h = true.
Proof. by destruct h. Qed.

Lemma prefix_cons (c d : ascii) (n h : string) :
  String.prefix (String c n) (String d h) = true <->
  c = d /\ String.prefix n h = true.
Proof.
  simpl. destruct (ascii_dec c d) as [->|Hne]; [tauto |].
  split; [done | by intros [? _]].
Qed.

Lemma prefix_spec (n h : string) :
  String.prefix n h = true <-> exists rest, h = n +:+ rest.
Proof.
  revert h. induction n as [|c n IH]; intros h.
  - split; [by exists h | by destruct h].
  - destruct h as [|d h].
    + simpl. split; [done | by intros [? ?]].
    + rewrite prefix_cons, IH. split.
      * intros [-> [rest ->]]. by exists rest.
      * intros [rest Heq]. simpl in Heq. injection Heq as -> ->. eauto.
Qed.

Lemma strstr_unfold (h n : string) :
  strstr h n =
  if String.prefix n h then true
  else match h with
       | EmptyString => false
       | String _ h' => strstr h' n
       end.
Proof. by destruct h. Qed.

Lemma strstr_spec (h n : string) :
  strstr h n = true <-> exists before after, h = before +:+ n +:+ after.
Proof.
  induction h as [|c h IH]; rewrite strstr_unfold.
  - destruct (String.prefix n "") eqn:Hp.
    + split; [intros _ | done].
      apply prefix_spec in Hp as [rest Hp]. by exists "", rest.
    + split; [done |]. intros [[|? ?] [after Heq]]; [| done].
      simpl in Heq. apply eq_true_false_abs in Hp; [done |].
      apply prefix_spec. by exists after.
  - destruct (String.prefix n (String c h)) eqn:Hp.
    + split; [intros _ | done].
      apply prefix_spec in Hp as [rest Hp]. by exists "", rest.
    + rewrite IH. split.
      * intros (before & after & ->). by exists (String c before), after.
      * intros ([|d before] & after & Heq); simpl in Heq.
        -- apply eq_true_false_abs in Hp; [done |].
           apply prefix_spec. by exists after.
        -- injection Heq as -> ->. by exists before, after.
Qed.

Lemma strstr_false_cons (c : ascii) (h n : string) :
  strstr (String c h) n = false <->
  String.prefix n (String c h) = false /\ strstr h n = false.
Proof.
  rewrite (strstr_unfold (String c h)).
  destruct (String.prefix n (String c h)); [| tauto].
  split; [done | by intros [? _]].
Qed.

Lemma substring_0_length (k : nat) (s : string) :
  String.length (String.substring 0 k s) = Nat.min k (String.length s).
Proof.
  revert s. induction k as [|k IH]; intros [|c s]; simpl; try done.
  by rewrite IH.
Qed.

Lemma substring_0_all (k : nat) (s : string) :
  (String.length s <= k)%nat -> String.substring 0 k s = s.
Proof.
  revert s. induction k as [|k IH]; intros [|c s]; simpl; try done; try lia.
  intros Hle. rewrite IH; [done | lia].
Qed.

Lemma substring_0_append (k : nat) (s t : string) :
  (k <= String.length s)%nat ->
  String.substring 0 k (s +:+ t) = String.substring 0 k s.
Proof.
  revert s. induction k as [|k IH]; intros [|c s]; simpl; try done; try lia.
  - by destruct t.
  - intros Hle. rewrite IH; [done | lia].
Qed.

Lemma prefix_substring_0 (n : string) (k : nat) (s : string) :
  String.prefix n (String.substring 0 k s) = true -> String.prefix n s = true.
Proof.
  revert k s. induction n as [|c n IH]; intros k s.
  { intros _. apply prefix_nil. }
  destruct k as [|k], s as [|d s]; simpl; try done.
  destruct (ascii_dec c d); [apply IH | done].
Qed.

Lemma substring_0_prefix (n : string) (k : nat) (s : string) :
  (String.length n <= k)%nat ->
  String.prefix n s = true -> String.prefix n (String.substring 0 k s) = true.
Proof.
  revert k s. induction n as [|c n IH]; intros k s.
  { intros _ _. apply prefix_nil. }
  destruct k as [|k], s as [|d s]; simpl; try done; try lia.
  intros Hle. destruct (ascii_dec c d); [apply IH; lia | done].
Qed.

Lemma strstr_substring_0 (n : string) (k : nat) (s : string) :
  strstr s n = false -> strstr (String.substring 0 k s) n = false.
Proof.
  revert k. induction s as [|c s IH]; intros k Hs.
  - destruct k; simpl in *; done.
  - apply strstr_false_cons in Hs as [Hp Hs].
    destruct k as [|k].
    + simpl. destruct n; [done |]. done.
    + change (String.substring 0 (S k) (String c s))
        with (String c (String.substring 0 k s)).
      apply strstr_false_cons. split; [| by apply IH].
      destruct (String.prefix n (String c (String.substring 0 k s))) eqn:Hq;
        [| done].
      apply (prefix_substring_0 n (S k) (String c s)) in Hq. congruence.
Qed.

Lemma prefix_append (n s t : string) :
  String.prefix n s = true -> String.prefix n (s +:+ t) = true.
Proof.
  rewrite !prefix_spec. intros [rest ->]. exists (rest +:+ t).
  by rewrite append_assoc.
Qed.

Lemma snprintf_fits (size : Z) (text : string) :
  strlen text < size -> snprintf size text = text.
Proof. unfold snprintf, strlen. intros H. apply substring_0_all. lia. Qed.

Lemma strlen_snprintf (size : Z) (text : string) :
  0 < size -> strlen (snprintf size text) < size.
Proof. unfold snprintf, strlen. rewrite substring_0_length. lia. Qed.

Lemma strncpy_fits (n : Z) (src : string) :
  strlen src <= n -> strncpy n src = src.
Proof. unfold strncpy, strlen. intros H. apply substring_0_all. lia. Qed.

End CStringFacts.

(** ** Normalisation of search terms *)

Section Normalisation.

Lemma strstr_occurrence (before needle after : string) :
  strstr (before +:+ needle +:+ after) needle = true.
Proof. apply strstr_spec. by exists before, after. Qed.

Lemma strstr_suffix (before needle : string) :
  strstr (before +:+ needle) needle = true.
Proof. apply strstr_spec. exists before, "". by rewrite append_nil_r. Qed.

Lemma strstr_append_dot_s (x : string) :
  strstr x ".so" = false -> strstr (x +:+ ".s") ".so" = false.
Proof.
  induction x as [|c x IH]; [done |].
  intros [Hp Hx]%strstr_false_cons.
  change (String c x +:+ ".s") with (String c (x +:+ ".s")).
  apply strstr_false_cons. split; [| by apply IH].
  destruct (String.prefix ".so" (String c (x +:+ ".s"))) eqn:Hq; [| done].
  apply prefix_spec in Hq as [r Hq].
  destruct x as [|c1 [|c2 x]]; simpl in Hq; try discriminate Hq.
  injection Hq as -> -> -> _.
  assert (String.prefix ".so" (".so" +:+ x) = true) as Ht
    by (apply prefix_spec; eauto).
  discriminate (eq_trans (eq_sym Ht) Hp).
Qed.

Lemma strstr_lib (y : string) :
  strstr ("lib" +:+ y) ".so" = strstr y ".so".
Proof. reflexivity. Qed.

Lemma lib_pattern_Some (lib_search pattern : string) :
  lib_pattern lib_search = Some pattern -> strlen pattern < 256.
Proof.
  unfold lib_pattern, strcpy.
  destruct (strstr lib_search ".so"); simpl.
  - case_match; [| done]. intros [= <-]. lia.
  - destruct (strncmp_eq lib_search "lib"); simpl; intros [= <-];
      by apply strlen_snprintf.
Qed.

(** On a term whose normal form fits [lib_pattern], the code computes the
    normal form of the specification. *)
Lemma lib_pattern_normalize_spec (term : string) :
  strlen (normalize_spec term) < 256 ->
  lib_pattern term = Some (normalize_spec term).
Proof.
  unfold lib_pattern, normalize_spec, strncmp_eq, strcpy.
  destruct (strstr term ".so"); simpl.
  - intros H. by rewrite (proj2 (Z.ltb_lt _ _) H).
  - destruct (String.prefix "lib" term); simpl; intros H;
      by rewrite snprintf_fits.
Qed.

(** A truncated pattern still begins with ["lib"] and holds no [".so"]. *)
Lemma truncated_pattern (pre x : string) :
  strstr (pre +:+ x +:+ ".s") ".so" = false ->
  256 <= strlen (pre +:+ x +:+ ".so") ->
  let p := snprintf 256 (pre +:+ x +:+ ".so") in
  strstr p ".so" = false /\ strlen p = 255.
Proof.
  intros Hno Hlen p. subst p. unfold snprintf, strlen in *.
  replace (pre +:+ x +:+ ".so") with ((pre +:+ x +:+ ".s") +:+ "o") in *
    by (by rewrite !append_assoc).
  rewrite length_append in Hlen. simpl in Hlen.
  rewrite substring_0_append by lia.
  split; [by apply strstr_substring_0 |].
  rewrite substring_0_length. lia.
Qed.

Lemma lib_pattern_truncated_fixpoint (p : string) :
  strstr p ".so" = false -> String.prefix "lib" p = true -> strlen p = 255 ->
  lib_pattern p = Some p.
Proof.
  intros Hno Hlib Hlen. unfold lib_pattern, strncmp_eq.
  rewrite Hno, Hlib. simpl. f_equal.
  unfold snprintf, strlen in *. rewrite substring_0_append by lia.
  apply substring_0_all. lia.
Qed.

Lemma lib_pattern_verbatim (s : string) :
  strstr s ".so" = true -> strlen s < 256 -> lib_pattern s = Some s.
Proof.
  intros Hso Hlen. unfold lib_pattern, strcpy. rewrite Hso. simpl.
  by rewrite (proj2 (Z.ltb_lt _ _) Hlen).
Qed.

Lemma lib_pattern_idempotent (x p : string) :
  lib_pattern x = Some p -> lib_pattern p = Some p.
Proof.
  intros Hx. pose proof (lib_pattern_Some _ _ Hx) as Hlen.
  revert Hx. unfold lib_pattern at 1. unfold strncmp_eq, strcpy.
  destruct (strstr x ".so") eqn:Hso; unfold negb.
  - case_match; [| done]. intros [= <-]. by apply lib_pattern_verbatim.
  - destruct (String.prefix "lib" x) eqn:Hlib; unfold negb; intros [= Hp].
    + destruct (Z_lt_dec (strlen (x +:+ ".so")) 256) as [Hfit|Hbig].
      * rewrite snprintf_fits in Hp by done. subst p.
        apply lib_pattern_verbatim; [apply strstr_suffix | done].
      * destruct (truncated_pattern "" x) as [Hno Hl].
        { by apply strstr_append_dot_s. }
        { change ("" +:+ x +:+ ".so") with (x +:+ ".so"). lia. }
        subst p.
        apply lib_pattern_truncated_fixpoint; [exact Hno | | exact Hl].
        apply substring_0_prefix; [simpl; lia |].
        by apply prefix_append.
    + destruct (Z_lt_dec (strlen ("lib" +:+ x +:+ ".so")) 256) as [Hfit|Hbig].
      * rewrite snprintf_fits in Hp by done. subst p.
        apply lib_pattern_verbatim; [| done].
        etrans; [apply (strstr_lib (x +:+ ".so")) | apply strstr_suffix].
      * destruct (truncated_pattern "lib" x) as [Hno Hl].
        { etrans; [apply (strstr_lib (x +:+ ".s")) |].
          by apply strstr_append_dot_s. }
        { lia. }
        subst p.
        apply lib_pattern_truncated_fixpoint; [exact Hno | | exact Hl].
        apply substring_0_prefix; [simpl; lia |].
        apply prefix_spec. by exists (x +:+ ".so").
Qed.

End Normalisation.

(** ** The name search of the store *)

Section FindName.

Context {A : Type} (name_of : A -> string).

Lemma find_name_Some (key : string) (slots : list A) (i0 i : Z) :
  find_name name_of key slots i0 = Some i ->
  exists (n : nat) (x : A),
    i = i0 + Z.of_nat n /\ slots !! n = Some x /\ name_of x = key /\
    Forall (fun y => name_of y <> key) (take n slots).
Proof.
  revert i0. induction slots as [|x slots IH]; intros i0; simpl; [done |].
  destruct (String.eqb (name_of x) key) eqn:Heq.
  - intros [= <-]. exists 0%nat, x. apply String.eqb_eq in Heq.
    repeat split; [lia | done | constructor].
  - intros (n & y & -> & Hy & Hk & Hb)%IH. exists (S n), y.
    apply String.eqb_neq in Heq.
    repeat split; [lia | done | done | by constructor].
Qed.

Lemma find_name_None (key : string) (slots : list A) (i0 : Z) :
  find_name name_of key slots i0 = None <->
  Forall (fun y => name_of y <> key) slots.
Proof.
  revert i0. induction slots as [|x slots IH]; intros i0; simpl.
  - split; [constructor | done].
  - destruct (String.eqb (name_of x) key) eqn:Heq.
    + apply String.eqb_eq in Heq. split; [done |].
      by intros [? _]%Forall_cons.
    + apply String.eqb_neq in Heq. rewrite IH, Forall_cons. tauto.
Qed.

Lemma find_name_first (key : string) (slots : list A) (i0 : Z) (n : nat)
    (x : A) :
  slots !! n = Some x -> name_of x = key ->
  Forall (fun y => name_of y <> key) (take n slots) ->
  find_name name_of key slots i0 = Some (i0 + Z.of_nat n).
Proof.
  revert i0 n. induction slots as [|y slots IH]; intros i0 n; [done |].
  destruct n as [|n]; simpl.
  - intros [= ->] <- _. rewrite String.eqb_refl. f_equal. lia.
  - intros Hx Hk [Hy Hb]%Forall_cons.
    apply String.eqb_neq in Hy. rewrite Hy.
    rewrite (IH (i0 + 1) n Hx Hk Hb). f_equal. lia.
Qed.

Lemma find_name_app_None (key : string) (slots : list A) (x : A) (i0 : Z) :
  find_name name_of key slots i0 = None -> name_of x = key ->
  find_name name_of key (slots ++ [x]) i0
  = Some (i0 + Z.of_nat (List.length slots)).
Proof.
  intros Hnone%find_name_None Hk.
  apply find_name_first with x; [| done |].
  - by rewrite lookup_app_r, Nat.sub_diag.
  - by rewrite take_app_length.
Qed.

Lemma find_name_app_new (key : string) (slots : list A) (x : A) :
  find_name name_of key slots 0 = None -> name_of x = key ->
  find_name name_of key (slots ++ [x]) 0 = Some (Z.of_nat (List.length slots)).
Proof. intros Hnone Hk. by rewrite (find_name_app_None _ _ _ _ Hnone Hk). Qed.

Lemma find_name_insert (key : string) (slots : list A) (n : nat)
    (x y : A) (i0 : Z) :
  slots !! n = Some x -> name_of y = name_of x ->
  find_name name_of key (<[n := y]> slots) i0 = find_name name_of key slots i0.
Proof.
  revert i0 n. induction slots as [|z slots IH]; intros i0 n; [done |].
  destruct n as [|n]; simpl.
  - intros [= ->] ->. done.
  - intros Hx Hn. by rewrite (IH _ _ Hx Hn).
Qed.

End FindName.

(** ** The store operations, case by case *)

Section StoreCases.

Implicit Types (w : World) (arch name file_path : string) (i j : nat).

Lemma bind_Ok {A B} (m : M A) (k : A -> M B) w (a : A) w' :
  m w = Ok a w' -> bind m k w = k a w'.
Proof. unfold bind. by intros ->. Qed.

Lemma bind_Fault {A B} (m : M A) (k : A -> M B) w (o : object) :
  m w = Fault o -> bind m k w = Fault o.
Proof. unfold bind. by intros ->. Qed.

Lemma slot_in_bounds i (bound : Z) :
  Z.of_nat i < bound -> (Z.of_nat i <? 0) || (bound <=? Z.of_nat i) = false.
Proof.
  intros H. apply orb_false_iff.
  split; [apply Z.ltb_ge | apply Z.leb_gt]; lia.
Qed.

Lemma arch_slot_in i w (a : Architecture) :
  archs w !! i = Some a -> Z.of_nat i < MAX_ARCH ->
  arch_slot (Z.of_nat i) w = Ok a w.
Proof.
  intros Ha Hlt. unfold arch_slot. rewrite slot_in_bounds by done.
  by rewrite Nat2Z.id, (nth_lookup_Some _ _ _ _ Ha).
Qed.

Lemma arch_slot_out i w :
  MAX_ARCH <= Z.of_nat i -> arch_slot (Z.of_nat i) w = Fault Obj_archs.
Proof.
  intros Hle. unfold arch_slot.
  rewrite (proj2 (Z.leb_le _ _) Hle). by rewrite orb_true_r.
Qed.

Lemma lib_slot_in j (a : Architecture) (lib : Library) w :
  arch_libraries a !! j = Some lib -> Z.of_nat j < MAX_LIBS ->
  lib_slot a (Z.of_nat j) w = Ok lib w.
Proof.
  intros Hl Hlt. unfold lib_slot. rewrite slot_in_bounds by done.
  by rewrite Nat2Z.id, (nth_lookup_Some _ _ _ _ Hl).
Qed.

Lemma lib_slot_out j (a : Architecture) w :
  MAX_LIBS <= Z.of_nat j -> lib_slot a (Z.of_nat j) w = Fault Obj_libraries.
Proof.
  intros Hle. unfold lib_slot.
  rewrite (proj2 (Z.leb_le _ _) Hle). by rewrite orb_true_r.
Qed.

Lemma store_arch_at i (a : Architecture) w :
  store_arch (Z.of_nat i) a w = Ok tt (set_archs w (<[i := a]> (archs w))).
Proof. unfold store_arch. by rewrite Nat2Z.id. Qed.

Lemma find_or_add_architecture_found arch w i (a : Architecture) :
  find_name arch_name arch (archs w) 0 = Some (Z.of_nat i) ->
  find_or_add_architecture arch w = Ok (Z.of_nat i) w.
Proof. unfold find_or_add_architecture. by intros ->. Qed.

Lemma find_or_add_architecture_new arch w :
  find_name arch_name arch (archs w) 0 = None -> arch_count w < MAX_ARCH ->
  find_or_add_architecture arch w
  = Ok (Z.of_nat (List.length (archs w)))
       (set_archs w (archs w ++ [mkArchitecture (strncpy 31 arch) []])).
Proof.
  unfold find_or_add_architecture. intros -> Hlt.
  by rewrite (proj2 (Z.ltb_lt _ _) Hlt).
Qed.

Lemma find_or_add_architecture_full arch w :
  find_name arch_name arch (archs w) 0 = None -> MAX_ARCH <= arch_count w ->
  find_or_add_architecture arch w
  = Ok (-1) (eprint w "Error: Too many architectures").
Proof.
  unfold find_or_add_architecture. intros -> Hle.
  by rewrite (proj2 (Z.ltb_ge _ _) Hle).
Qed.

Lemma find_or_add_library_outside name w :
  find_or_add_library (-1) name w = Fault Obj_archs.
Proof. done. Qed.

Lemma find_or_add_library_found i name w (a : Architecture) j :
  archs w !! i = Some a -> Z.of_nat i < MAX_ARCH ->
  find_name lib_name name (arch_libraries a) 0 = Some (Z.of_nat j) ->
  find_or_add_library (Z.of_nat i) name w = Ok (Z.of_nat j) w.
Proof.
  intros Ha Hlt Hfind. unfold find_or_add_library.
  rewrite (bind_Ok _ _ _ _ _ (arch_slot_in _ _ _ Ha Hlt)).
  by rewrite Hfind.
Qed.

Lemma find_or_add_library_new i name w (a : Architecture) :
  archs w !! i = Some a -> Z.of_nat i < MAX_ARCH ->
  find_name lib_name name (arch_libraries a) 0 = None ->
  lib_count a < MAX_LIBS ->
  find_or_add_library (Z.of_nat i) name w
  = Ok (Z.of_nat (List.length (arch_libraries a)))
       (set_archs w
          (<[i := mkArchitecture (arch_name a)
                    (arch_libraries a ++ [mkLibrary (strncpy 255 name) []])]>
             (archs w))).
Proof.
  intros Ha Hlt Hfind Hcount. unfold find_or_add_library.
  rewrite (bind_Ok _ _ _ _ _ (arch_slot_in _ _ _ Ha Hlt)).
  rewrite Hfind, (proj2 (Z.ltb_lt _ _) Hcount).
  by rewrite (bind_Ok _ _ _ _ _ (store_arch_at _ _ _)).
Qed.

Lemma find_or_add_library_full i name w (a : Architecture) :
  archs w !! i = Some a -> Z.of_nat i < MAX_ARCH ->
  find_name lib_name name (arch_libraries a) 0 = None ->
  MAX_LIBS <= lib_count a ->
  find_or_add_library (Z.of_nat i) name w
  = Ok (-1)
       (eprint w ("Error: Too many libraries for architecture " +:+ arch_name a)).
Proof.
  intros Ha Hlt Hfind Hcount. unfold find_or_add_library.
  rewrite (bind_Ok _ _ _ _ _ (arch_slot_in _ _ _ Ha Hlt)).
  by rewrite Hfind, (proj2 (Z.ltb_ge _ _) Hcount).
Qed.

Lemma add_executable_outside i file_path w (a : Architecture) :
  archs w !! i = Some a -> Z.of_nat i < MAX_ARCH ->
  add_executable (Z.of_nat i) (-1) file_path w = Fault Obj_libraries.
Proof.
  intros Ha Hlt. unfold add_executable.
  by rewrite (bind_Ok _ _ _ _ _ (arch_slot_in _ _ _ Ha Hlt)).
Qed.

Lemma add_executable_in i j file_path w (a : Architecture) (lib : Library) :
  archs w !! i = Some a -> Z.of_nat i < MAX_ARCH ->
  arch_libraries a !! j = Some lib -> Z.of_nat j < MAX_LIBS ->
  add_executable (Z.of_nat i) (Z.of_nat j) file_path w
  = Ok tt (add_executable_result i j a lib file_path w).
Proof.
  intros Ha Hi Hl Hj. unfold add_executable, add_executable_result.
  rewrite (bind_Ok _ _ _ _ _ (arch_slot_in _ _ _ Ha Hi)).
  rewrite (bind_Ok _ _ _ _ _ (lib_slot_in _ _ _ _ Hl Hj)).
  destruct (existsb _ _); [done |].
  destruct (exec_count lib <? MAX_EXECS); [| done].
  rewrite (bind_Ok _ _ _ _ _ (store_arch_at _ _ _)).
  by rewrite Nat2Z.id.
Qed.

End StoreCases.

(** ** [record], case by case *)

Section RecordCases.

Implicit Types (w : World) (arch name file_path : string) (i j : nat).

Lemma record_known arch name file_path w i j (a : Architecture)
    (lib : Library) :
  find_name arch_name arch (archs w) 0 = Some (Z.of_nat i) ->
  archs w !! i = Some a -> Z.of_nat i < MAX_ARCH ->
  find_name lib_name name (arch_libraries a) 0 = Some (Z.of_nat j) ->
  arch_libraries a !! j = Some lib -> Z.of_nat j < MAX_LIBS ->
  record arch name file_path w
  = Ok tt (add_executable_result i j a lib file_path w).
Proof.
  intros Hfa Ha Hi Hfl Hl Hj. unfold record.
  rewrite (bind_Ok _ _ _ _ _ (find_or_add_architecture_found _ _ _ a Hfa)).
  rewrite (bind_Ok _ _ _ _ _ (find_or_add_library_found _ _ _ _ _ Ha Hi Hfl)).
  by apply add_executable_in.
Qed.

Lemma record_new_library arch name file_path w i (a : Architecture) :
  find_name arch_name arch (archs w) 0 = Some (Z.of_nat i) ->
  archs w !! i = Some a -> Z.of_nat i < MAX_ARCH ->
  find_name lib_name name (arch_libraries a) 0 = None ->
  lib_count a < MAX_LIBS ->
  record arch name file_path w
  = Ok tt (set_total_execs
             (set_archs w
                (<[i := mkArchitecture (arch_name a)
                          (arch_libraries a
                             ++ [mkLibrary (strncpy 255 name) [file_path]])]>
                   (archs w)))
             (total_execs w + 1)).
Proof.
  intros Hfa Ha Hi Hfl Hc. unfold record.
  rewrite (bind_Ok _ _ _ _ _ (find_or_add_architecture_found _ _ _ a Hfa)).
  rewrite (bind_Ok _ _ _ _ _ (find_or_add_library_new _ _ _ _ Ha Hi Hfl Hc)).
  pose proof (lookup_lt_Some _ _ _ Ha) as Hlen.
  erewrite add_executable_in; cycle 1.
  - cbn. by apply list_lookup_insert_eq.
  - done.
  - cbn. by rewrite lookup_app_r, Nat.sub_diag.
  - done.
  - unfold add_executable_result. cbn.
    rewrite list_insert_insert_eq.
    by rewrite insert_app_r_alt, Nat.sub_diag.
Qed.

Lemma record_libraries_full arch name file_path w i (a : Architecture) :
  find_name arch_name arch (archs w) 0 = Some (Z.of_nat i) ->
  archs w !! i = Some a -> Z.of_nat i < MAX_ARCH ->
  find_name lib_name name (arch_libraries a) 0 = None ->
  MAX_LIBS <= lib_count a ->
  record arch name file_path w = Fault Obj_libraries.
Proof.
  intros Hfa Ha Hi Hfl Hc. unfold record.
  rewrite (bind_Ok _ _ _ _ _ (find_or_add_architecture_found _ _ _ a Hfa)).
  rewrite (bind_Ok _ _ _ _ _ (find_or_add_library_full _ _ _ _ Ha Hi Hfl Hc)).
  by apply add_executable_outside with a.
Qed.

Lemma record_new_architecture arch name file_path w :
  find_name arch_name arch (archs w) 0 = None ->
  arch_count w < MAX_ARCH ->
  record arch name file_path w
  = Ok tt (set_total_execs
             (set_archs w
                (archs w ++ [mkArchitecture (strncpy 31 arch)
                               [mkLibrary (strncpy 255 name) [file_path]]]))
             (total_execs w + 1)).
Proof.
  intros Hfa Hc. unfold record.
  rewrite (bind_Ok _ _ _ _ _ (find_or_add_architecture_new _ _ Hfa Hc)).
  erewrite bind_Ok; cycle 1.
  { apply find_or_add_library_new
      with (a := mkArchitecture (strncpy 31 arch) []); try done.
    cbn. by rewrite lookup_app_r, Nat.sub_diag. }
  cbn.
  erewrite (add_executable_in _ 0); cycle 1.
  - cbn. rewrite insert_app_r_alt, Nat.sub_diag by done.
    by rewrite lookup_app_r, Nat.sub_diag.
  - done.
  - done.
  - done.
  - unfold add_executable_result. cbn.
    rewrite !insert_app_r_alt, !Nat.sub_diag by done. reflexivity.
Qed.

Lemma record_archs_full arch name file_path w :
  find_name arch_name arch (archs w) 0 = None ->
  MAX_ARCH <= arch_count w ->
  record arch name file_path w = Fault Obj_archs.
Proof.
  intros Hfa Hc. unfold record.
  by rewrite (bind_Ok _ _ _ _ _ (find_or_add_architecture_full _ _ Hfa Hc)).
Qed.

Lemma record_arch_slot_out arch name file_path w i :
  find_name arch_name arch (archs w) 0 = Some (Z.of_nat i) ->
  MAX_ARCH <= Z.of_nat i ->
  record arch name file_path w = Fault Obj_archs.
Proof.
  intros Hfa Hi. unfold record.
  rewrite (bind_Ok _ _ _ _ _
             (find_or_add_architecture_found _ _ _ zero_Architecture Hfa)).
  apply bind_Fault. unfold find_or_add_library.
  apply bind_Fault. by apply arch_slot_out.
Qed.

Lemma record_lib_slot_out arch name file_path w i j (a : Architecture) :
  find_name arch_name arch (archs w) 0 = Some (Z.of_nat i) ->
  archs w !! i = Some a -> Z.of_nat i < MAX_ARCH ->
  find_name lib_name name (arch_libraries a) 0 = Some (Z.of_nat j) ->
  MAX_LIBS <= Z.of_nat j ->
  record arch name file_path w = Fault Obj_libraries.
Proof.
  intros Hfa Ha Hi Hfl Hj. unfold record.
  rewrite (bind_Ok _ _ _ _ _ (find_or_add_architecture_found _ _ _ a Hfa)).
  rewrite (bind_Ok _ _ _ _ _ (find_or_add_library_found _ _ _ _ _ Ha Hi Hfl)).
  unfold add_executable.
  rewrite (bind_Ok _ _ _ _ _ (arch_slot_in _ _ _ Ha Hi)).
  apply bind_Fault. by apply lib_slot_out.
Qed.

End RecordCases.

Lemma record_viewP (arch name file_path : string) (w : World) :
  record_view arch name file_path w (record arch name file_path w).
Proof.
  destruct (find_name arch_name arch (archs w) 0) as [zi|] eqn:Hfa.
  - apply find_name_Some in Hfa as Hi.
    destruct Hi as (i & a & -> & Ha & _ & _). rewrite Z.add_0_l in Hfa.
    destruct (Z_lt_dec (Z.of_nat i) MAX_ARCH) as [Hi|Hi]; cycle 1.
    { rewrite (record_arch_slot_out _ _ _ _ _ Hfa) by lia. constructor. }
    destruct (find_name lib_name name (arch_libraries a) 0) as [zj|] eqn:Hfl.
    + apply find_name_Some in Hfl as Hj.
      destruct Hj as (j & lib & -> & Hl & _ & _). rewrite Z.add_0_l in Hfl.
      destruct (Z_lt_dec (Z.of_nat j) MAX_LIBS) as [Hj|Hj]; cycle 1.
      { rewrite (record_lib_slot_out _ _ _ _ _ _ _ Hfa Ha Hi Hfl) by lia.
        constructor. }
      rewrite (record_known _ _ _ _ _ _ _ _ Hfa Ha Hi Hfl Hl Hj).
      by econstructor.
    + destruct (Z_lt_dec (lib_count a) MAX_LIBS) as [Hc|Hc].
      * rewrite (record_new_library _ _ _ _ _ _ Hfa Ha Hi Hfl Hc).
        by econstructor.
      * rewrite (record_libraries_full _ _ _ _ _ _ Hfa Ha Hi Hfl) by lia.
        constructor.
  - destruct (Z_lt_dec (arch_count w) MAX_ARCH) as [Hc|Hc].
    + rewrite (record_new_architecture _ _ _ _ Hfa Hc). by constructor.
    + rewrite (record_archs_full _ _ _ _ Hfa) by lia. constructor.
Qed.

(** [record] returns or leaves an array; it never ends the process. *)
Lemma record_no_exit (arch name file_path : string) (w : World) (s : Z)
    (w' : World) :
  record arch name file_path w <> Exit s w'.
Proof. by destruct (record_viewP arch name file_path w). Qed.

(** ** The executable counter *)

Section Counter.

Lemma sumZ_app {A} (f : A -> Z) (l1 l2 : list A) :
  sumZ f (l1 ++ l2) = sumZ f l1 + sumZ f l2.
Proof. induction l1 as [|x l1 IH]; simpl; lia. Qed.

Lemma sumZ_insert {A} (f : A -> Z) (l : list A) (i : nat) (x y : A) :
  l !! i = Some x -> sumZ f (<[i := y]> l) = sumZ f l - f x + f y.
Proof.
  revert i. induction l as [|z l IH]; intros [|i]; simpl; try done.
  - intros [= ->]. lia.
  - intros Hx. rewrite (IH _ Hx). lia.
Qed.

Lemma sumZ_Permutation {A} (f : A -> Z) (l1 l2 : list A) :
  l1 ≡ₚ l2 -> sumZ f l1 = sumZ f l2.
Proof. induction 1; simpl; lia. Qed.

End Counter.

Lemma exec_count_append (lib : Library) (file_path : string) :
  exec_count (mkLibrary (lib_name lib) (lib_execs lib ++ [file_path]))
  = exec_count lib + 1.
Proof. unfold exec_count. cbn. rewrite length_app. cbn. lia. Qed.

Lemma add_executable_result_counter (i j : nat) (a : Architecture)
    (lib : Library) (file_path : string) (w : World) :
  archs w !! i = Some a -> arch_libraries a !! j = Some lib ->
  let w' := add_executable_result i j a lib file_path w in
  total_execs w' - total_execs w = stored_pairs w' - stored_pairs w /\
  (total_execs w' = total_execs w \/ total_execs w' = total_execs w + 1).
Proof.
  intros Ha Hl. unfold add_executable_result.
  destruct (existsb _ _); [cbn; lia |].
  destruct (exec_count lib <? MAX_EXECS); [| unfold stored_pairs; cbn; lia].
  unfold stored_pairs, library_total. cbn.
  rewrite (sumZ_insert _ _ _ _ _ Ha). cbn.
  rewrite (sumZ_insert _ _ _ _ _ Hl), exec_count_append.
  unfold library_total. lia.
Qed.

Lemma record_counter (arch name file_path : string) (w w' : World) :
  record arch name file_path w = Ok tt w' ->
  total_execs w' - total_execs w = stored_pairs w' - stored_pairs w /\
  (total_execs w' = total_execs w \/ total_execs w' = total_execs w + 1).
Proof.
  intros Hrec. pose proof (record_viewP arch name file_path w) as Hv.
  rewrite Hrec in Hv. inversion Hv as [i j a lib ? Ha ? ? Hl| i a ? Ha | |];
    subst; clear Hv.
  - by apply add_executable_result_counter.
  - unfold stored_pairs. cbn. rewrite (sumZ_insert _ _ _ _ _ Ha).
    unfold library_total. cbn. rewrite sumZ_app. cbn.
    unfold exec_count. cbn. lia.
  - unfold stored_pairs. cbn. rewrite sumZ_app. cbn.
    unfold exec_count. cbn. lia.
Qed.

(** ** The names the walk records *)

Lemma machine_of_lines_tag (lines : list string) :
  machine_of_lines lines = "unknown" \/ machine_of_lines lines ∈ architecture_tags.
Proof.
  induction lines as [|line lines IH]; [by left |]. cbn [machine_of_lines].
  unfold architecture_tags.
  repeat case_match; try done; right;
    repeat (first [apply list_elem_of_here | apply list_elem_of_further]).
Qed.

Lemma get_architecture_tag (E : Env) (file_path : string) :
  get_architecture E file_path = "unknown"
  \/ get_architecture E file_path ∈ architecture_tags.
Proof.
  unfold get_architecture. destruct (popen_readelf_h E file_path);
    [apply machine_of_lines_tag | by left].
Qed.

Lemma architecture_tag_fits (arch : string) :
  arch ∈ architecture_tags -> strlen arch <= 31.
Proof.
  unfold architecture_tags. intros Hin.
  repeat (apply elem_of_cons in Hin as [-> | Hin]); try (vm_compute; discriminate).
  by apply elem_of_nil in Hin.
Qed.

(** ** What the walk preserves *)

Section Preservation.

Context (E : Env) (P : World -> Prop).
(** [P] is kept by the calls the walk makes: [record] with an architecture
    tag and the pattern of a search term, and a diagnostic. *)
Context (Hrecord : forall arch term name file_path,
            arch ∈ architecture_tags -> lib_pattern term = Some name ->
            preserves P (record arch name file_path)).
Context (Heprint : forall w msg, P w -> P (eprint w msg)).

Lemma match_terms_preserves terms arch name file_path :
  arch ∈ architecture_tags ->
  preserves P (match_terms terms arch name file_path).
Proof.
  intros Htag. induction terms as [|t terms IH]; intros w a w' HP; simpl.
  - unfold ret. by intros [= _ <-].
  - destruct (lib_pattern t) as [pattern|] eqn:Hpattern; [| done].
    destruct (strstr name pattern); [| by apply IH].
    by apply (Hrecord arch t pattern file_path).
Qed.

Lemma needed_lines_preserves lines terms arch file_path :
  arch ∈ architecture_tags ->
  preserves P (needed_lines lines terms arch file_path).
Proof.
  intros Htag. induction lines as [|line lines IH]; intros w a w' HP; simpl.
  - unfold ret. by intros [= _ <-].
  - destruct (strstr line "(NEEDED)"); [| by apply IH].
    destruct (needed_name line) as [[name|]|]; [| done | by apply IH].
    unfold bind.
    destruct (match_terms terms arch name file_path w) as [[] w1| |] eqn:Hm;
      [| done | done].
    apply IH. by apply (match_terms_preserves _ _ _ _ Htag _ _ _ HP Hm).
Qed.

Lemma get_dependencies_preserves file_path terms arch :
  arch ∈ architecture_tags ->
  preserves P (get_dependencies E file_path terms arch).
Proof.
  intros Htag w a w' HP. unfold get_dependencies.
  destruct (popen_readelf_d E file_path).
  - by apply needed_lines_preserves.
  - unfold fprintf_stderr. intros [= _ <-]. by apply Heprint.
Qed.

Lemma scan_file_preserves path options :
  preserves P (scan_file E path options).
Proof.
  intros w a w' HP. unfold scan_file.
  destruct (is_executable E path); [| unfold ret; by intros [= _ <-]].
  destruct (String.eqb_spec (get_architecture E path) "unknown") as [|Hknown];
    [unfold ret; by intros [= _ <-] |].
  cbn [negb]. apply get_dependencies_preserves; [| done].
  by destruct (get_architecture_tag E path).
Qed.

Lemma scan_entries_preserves descend dir_path entries options w w' :
  (forall path w w', P w -> descend path w = Some (Ok tt w') -> P w') ->
  P w ->
  scan_entries E descend dir_path entries options w = Some (Ok tt w') ->
  P w'.
Proof.
  intros Hd. revert w. induction entries as [|d_name rest IH]; intros w HP;
    simpl.
  - by intros [= <-].
  - destruct (_ || _); [by apply IH |].
    destruct (lstat E _) as [t|]; [| by apply IH].
    destruct (S_ISDIR t).
    + destruct (descend _ w) as [[[] w1| |]|] eqn:Hdesc; try done.
      apply IH. by apply (Hd _ _ _ HP Hdesc).
    + destruct (S_ISREG t); [| by apply IH].
      destruct (scan_file E _ options w) as [[] w1| |] eqn:Hf; try done.
      apply IH. by apply (scan_file_preserves _ _ _ _ _ HP Hf).
Qed.

Lemma scan_directory_preserves fuel dir_path options w w' :
  P w -> scan_directory E fuel dir_path options w = Some (Ok tt w') -> P w'.
Proof.
  revert dir_path w w'. induction fuel as [|fuel IH]; intros dir_path w w' HP;
    simpl; [done |].
  destruct (opendir E dir_path) as [entries|].
  - apply scan_entries_preserves; [| done]. intros path w1 w2. apply IH.
  - intros [= <-]. by apply Heprint.
Qed.

End Preservation.

(** ** What the reports do to the store *)

Section ReportStore.

Context (E : Env) {Q : Qsort}.

Lemma txt_architectures_fst (todo : list Architecture) :
  fst (txt_architectures todo) = map sort_libraries todo.
Proof.
  induction todo as [|a todo IH]; simpl; [done |].
  destruct (txt_architectures todo). simpl in *. by rewrite IH.
Qed.

Lemma pdf_architectures_fst (todo archs' : list Architecture)
    (items : list string) :
  pdf_architectures E todo = Some (archs', items) ->
  archs' = map sort_libraries todo.
Proof.
  revert archs' items. induction todo as [|a todo IH]; intros archs' items;
    simpl.
  - by intros [= <- _].
  - destruct (pdf_libraries E _); [| done].
    destruct (pdf_architectures E todo) as [[rest' items']|]; [| done].
    intros [= <- _]. by rewrite (IH _ _ eq_refl).
Qed.

Lemma stored_pairs_sorted (l : list Architecture) :
  sumZ library_total (map sort_libraries l) = sumZ library_total l.
Proof.
  induction l as [|a l IH]; simpl; [done |]. rewrite IH. f_equal.
  unfold library_total. cbn. apply sumZ_Permutation, qsort_Permutation.
Qed.

(** The store after a report: untouched, or each architecture's libraries
    sorted in place. *)
Lemma generate_txt_report_archs (options : Options) (w w' : World) :
  generate_txt_report E options w = Ok tt w' ->
  total_execs w' = total_execs w /\
  (archs w' = archs w \/ archs w' = map sort_libraries (archs w)).
Proof.
  unfold generate_txt_report.
  destruct (MAX_PATH <? _); [intros [= <-]; auto |].
  destruct (negb (fopen_w E _)); [intros [= <-]; auto |].
  pose proof (txt_architectures_fst (archs w)) as Hfst.
  destruct (txt_architectures (archs w)) as [archs' lines].
  intros [= <-]. cbn in *. auto.
Qed.

Lemma generate_pdf_report_archs (options : Options) (w w' : World) :
  generate_pdf_report E options w = Ok tt w' ->
  total_execs w' = total_execs w /\
  (archs w' = archs w \/ archs w' = map sort_libraries (archs w)).
Proof.
  unfold generate_pdf_report.
  destruct (MAX_PATH <? _); [intros [= <-]; auto |].
  destruct (negb (HPDF_New_ok E)); [intros [= <-]; auto |].
  destruct (pdf_architectures E (archs w)) as [[archs' items]|] eqn:Hpdf;
    [| done].
  apply pdf_architectures_fst in Hpdf.
  destruct (negb (HPDF_SaveToFile_ok E _)); intros [= <-]; cbn; auto.
Qed.

End ReportStore.

(** ** Search terms: normal forms *)

(** C4, as the code has it.  For every search term whose normal form (the
    term itself if it contains [".so"], else the term with [".so"] appended
    if it begins with ["lib"], else ["lib"], the term and [".so"]) has at
    most 255 characters, [get_dependencies] matches with that normal form; a
    longer normal form built by appending is cut to its first 255
    characters; ["pthread"], ["libm.so"] and ["libdl"] give
    ["libpthread.so"], ["libm.so"] and ["libdl.so"]; and a pattern the code
    builds is its own pattern. *)
Theorem lib_pattern_normalizes :
  (forall term, strlen (normalize_spec term) < 256 ->
     lib_pattern term = Some (normalize_spec term)) /\
  (forall term, strstr term ".so" = false ->
     lib_pattern term = Some (String.substring 0 255 (normalize_spec term))) /\
  lib_pattern "pthread" = Some "libpthread.so" /\
  lib_pattern "libm.so" = Some "libm.so" /\
  lib_pattern "libdl" = Some "libdl.so" /\
  (forall x p, lib_pattern x = Some p -> lib_pattern p = Some p).
Proof.
  split; [exact lib_pattern_normalize_spec |].
  split.
  { intros term Hso. unfold lib_pattern, normalize_spec, strncmp_eq.
    rewrite Hso. by destruct (String.prefix "lib" term). }
  split; [reflexivity |]. split; [reflexivity |]. split; [reflexivity |].
  exact lib_pattern_idempotent.
Qed.

Lemma lib_pattern_normalizes_witness :
  lib_pattern "ssl" = Some "libssl.so" /\
  lib_pattern "libssl.so" = Some "libssl.so".
Proof.
  pose proof (proj1 lib_pattern_normalizes "ssl") as Hfirst.
  pose proof (proj2 (proj2 (proj2 (proj2 (proj2 lib_pattern_normalizes))))
                "ssl" "libssl.so") as Hagain.
  split; [apply Hfirst; reflexivity | apply Hagain; reflexivity].
Defined.

(** C4 as stated fails on a long term: the 250-character term has no
    [".so"] and no ["lib"] in front, and its pattern is cut to 255
    characters, ending in [".s"]. *)
Lemma lib_pattern_truncates :
  strstr long_term ".so" = false /\
  String.prefix "lib" long_term = false /\
  lib_pattern long_term = Some ("lib" +:+ long_term +:+ ".s") /\
  lib_pattern long_term <> Some (normalize_spec long_term).
Proof.
  assert (lib_pattern long_term = Some ("lib" +:+ long_term +:+ ".s")) as Hcut
    by (vm_compute; reflexivity).
  split; [vm_compute; reflexivity |].
  split; [vm_compute; reflexivity |].
  split; [exact Hcut |].
  rewrite Hcut. intros Heq.
  apply (f_equal (fun o => String.length (default "" o))) in Heq.
  vm_compute in Heq. discriminate Heq.
Qed.

(** ** Capacity bounds *)

(** The executable bound is enforced as the specification says: the path is
    dropped, a diagnostic is written, nothing else changes. *)
Lemma record_executables_full (arch name file_path : string) (w : World)
    (i j : nat) (a : Architecture) (lib : Library) :
  find_name arch_name arch (archs w) 0 = Some (Z.of_nat i) ->
  archs w !! i = Some a -> Z.of_nat i < MAX_ARCH ->
  find_name lib_name name (arch_libraries a) 0 = Some (Z.of_nat j) ->
  arch_libraries a !! j = Some lib -> Z.of_nat j < MAX_LIBS ->
  existsb (fun e => String.eqb e file_path) (lib_execs lib) = false ->
  MAX_EXECS <= exec_count lib ->
  record arch name file_path w
  = Ok tt (eprint w ("Error: Too many executables for library " +:+ lib_name lib)).
Proof.
  intros Hfa Ha Hi Hfl Hl Hj Hnew Hfull.
  rewrite (record_known _ _ _ _ _ _ _ _ Hfa Ha Hi Hfl Hl Hj).
  unfold add_executable_result.
  by rewrite Hnew, (proj2 (Z.ltb_ge _ _) Hfull).
Qed.

(** C1, where the code leaves the claim.  After one hundred libraries have
    been recorded for x86_64, the next library makes [find_or_add_library]
    write its diagnostic and return -1; [get_dependencies] passes the -1 on,
    and [add_executable] takes [&archs[0].libraries[-1]]: an access outside
    the array, not a dropped insert. *)
Theorem record_past_library_bound :
  exists w,
    record_all full_events initial_world = Ok tt w /\
    map lib_count (archs w) = [MAX_LIBS] /\
    find_or_add_library 0 "libz.so" w
    = Ok (-1) (eprint w "Error: Too many libraries for architecture x86_64") /\
    record "x86_64" "libz.so" "/bin/a" w = Fault Obj_libraries.
Proof.
  eexists. split; [vm_compute; reflexivity |].
  split; [vm_compute; reflexivity |].
  split; vm_compute; reflexivity.
Qed.

(** The same slip one level up: with MAX_ARCH architectures in the store, a
    fifth makes [find_or_add_architecture] return -1, and
    [find_or_add_library] takes [&archs[-1]]. *)
Lemma record_past_architecture_bound :
  exists w,
    record_all [("x86_64", "libc.so", "/a"); ("x86", "libc.so", "/b");
                ("aarch64", "libc.so", "/c"); ("armv7", "libc.so", "/d")]
      initial_world = Ok tt w /\
    arch_count w = MAX_ARCH /\
    find_or_add_architecture "riscv" w
    = Ok (-1) (eprint w "Error: Too many architectures") /\
    record "riscv" "libc.so" "/e" w = Fault Obj_archs.
Proof.
  eexists. split; [vm_compute; reflexivity |].
  split; [vm_compute; reflexivity |].
  split; vm_compute; reflexivity.
Qed.

(** ** The counter invariant and idempotence *)

Lemma record_preserves_counter (arch name file_path : string) :
  preserves counter_invariant (record arch name file_path).
Proof.
  intros w [] w' Hinv Hrec. unfold counter_invariant in *.
  destruct (record_counter _ _ _ _ _ Hrec) as [Hdiff _]. lia.
Qed.

Lemma eprint_preserves_counter (w : World) (msg : string) :
  counter_invariant w -> counter_invariant (eprint w msg).
Proof. done. Qed.

Lemma reports_preserve_counter (E : Env) {Q : Qsort} (w w' : World) :
  total_execs w' = total_execs w ->
  archs w' = archs w \/ archs w' = map sort_libraries (archs w) ->
  counter_invariant w -> counter_invariant w'.
Proof.
  unfold counter_invariant, stored_pairs. intros -> [-> | ->] ->; [done |].
  by rewrite stored_pairs_sorted.
Qed.

Lemma existsb_eqb_last (l : list string) (x : string) :
  existsb (fun e => String.eqb e x) (l ++ [x]) = true.
Proof.
  rewrite existsb_app. simpl. rewrite String.eqb_refl.
  by rewrite orb_true_r.
Qed.

(** A second [record] of a triple the store already holds changes
    nothing. *)
Lemma record_again (arch name file_path : string) (w w' : World) :
  strlen arch <= 31 -> strlen name <= 255 ->
  record arch name file_path w = Ok tt w' ->
  exists w'', record arch name file_path w' = Ok tt w'' /\
              archs w'' = archs w' /\ total_execs w'' = total_execs w'.
Proof.
  intros Harch Hname Hrec.
  pose proof (record_viewP arch name file_path w) as Hv.
  rewrite Hrec in Hv.
  inversion Hv as [i j a lib Hfa Ha Hi Hfl Hl Hj Hw
                  | i a Hfa Ha Hi Hfl Hc Hw | Hfa Hc Hw |]; clear Hv;
    subst w'.
  - unfold add_executable_result in *.
    destruct (existsb _ (lib_execs lib)) eqn:Hex.
    { exists w. by rewrite Hrec. }
    destruct (exec_count lib <? MAX_EXECS) eqn:Hcount.
    + eexists. split; [| done].
      erewrite (record_known arch name file_path _ i j); cycle 1.
      * cbn. by rewrite (find_name_insert _ _ _ _ a).
      * cbn. apply list_lookup_insert_eq. by eapply lookup_lt_Some.
      * done.
      * cbn. by rewrite (find_name_insert _ _ _ _ lib).
      * cbn. apply list_lookup_insert_eq. by eapply lookup_lt_Some.
      * done.
      * unfold add_executable_result. cbn. by rewrite existsb_eqb_last.
    + eexists. split.
      * by erewrite (record_known arch name file_path _ i j a lib).
      * unfold add_executable_result. cbn. by rewrite Hex, Hcount.
  - eexists. split; [| done].
    erewrite (record_known arch name file_path _ i
                (List.length (arch_libraries a))); cycle 1.
    + cbn. by rewrite (find_name_insert _ _ _ _ a).
    + cbn. apply list_lookup_insert_eq. by eapply lookup_lt_Some.
    + done.
    + cbn. apply find_name_app_new; [done |]. cbn. by apply strncpy_fits.
    + cbn. by rewrite lookup_app_r, Nat.sub_diag.
    + done.
    + unfold add_executable_result. cbn. by rewrite String.eqb_refl.
  - eexists. split; [| done].
    erewrite (record_known arch name file_path _ (List.length (archs w)) 0);
      cycle 1.
    + cbn. apply find_name_app_new; [done |]. cbn. by apply strncpy_fits.
    + cbn. by rewrite lookup_app_r, Nat.sub_diag.
    + done.
    + cbn. rewrite strncpy_fits by done. by rewrite String.eqb_refl.
    + done.
    + done.
    + unfold add_executable_result. cbn. by rewrite String.eqb_refl.
Qed.

(** Recording a triple twice leaves the store that recording it once
    leaves, when the names fit the [name] fields. *)
Lemma record_twice (arch name file_path : string) (w : World) :
  strlen arch <= 31 -> strlen name <= 255 ->
  store_of ((record arch name file_path >> record arch name file_path) w)
  = store_of (record arch name file_path w).
Proof.
  intros Harch Hname. unfold bind.
  destruct (record arch name file_path w) as [[] w'|s w'|o] eqn:Hrec;
    [| done | done].
  destruct (record_again _ _ _ _ _ Harch Hname Hrec) as (w'' & -> & Ha & Ht).
  cbn. by rewrite Ha, Ht.
Qed.

(** ** Reports: store and order *)

Section ReportOrder.

Context (E : Env) {Q : Qsort}.

Lemma compare_libraries_consistent : consistent compare_libraries.
Proof. unfold compare_libraries. split; intros; lia. Qed.

Lemma sort_libraries_sorted (a : Architecture) :
  by_descending_count (arch_libraries (sort_libraries a)).
Proof.
  unfold by_descending_count. cbn.
  pose proof (qsort_StronglySorted compare_libraries (arch_libraries a)
                compare_libraries_consistent) as Hs.
  induction Hs as [|x l _ IH Hx]; constructor; [done |].
  eapply Forall_impl; [exact Hx |]. unfold compare_libraries. cbn.
  intros; lia.
Qed.

Lemma same_up_to_library_order_refl (l : list Architecture) :
  same_up_to_library_order l l.
Proof. induction l; by constructor. Qed.

Lemma same_up_to_library_order_sort (l : list Architecture) :
  same_up_to_library_order l (map sort_libraries l).
Proof.
  induction l as [|a l IH]; constructor; [| done].
  split; [done |]. cbn. apply qsort_Permutation.
Qed.

Lemma txt_architectures_snd (todo : list Architecture) :
  snd (txt_architectures todo)
  = concat (map txt_architecture (map sort_libraries todo)).
Proof.
  induction todo as [|a todo IH]; simpl; [done |].
  destruct (txt_architectures todo). simpl in *. by rewrite IH.
Qed.

Lemma reports_keep_store (w w' : World) :
  total_execs w' = total_execs w /\
  (archs w' = archs w \/ archs w' = map sort_libraries (archs w)) ->
  total_execs w' = total_execs w /\
  same_up_to_library_order (archs w) (archs w').
Proof.
  intros [Ht [-> | ->]]; split; try done.
  - apply same_up_to_library_order_refl.
  - apply same_up_to_library_order_sort.
Qed.

End ReportOrder.

Section ReportStoreExact.

Context (E : Env) {Q : Qsort}.

(** The text report sorts the store exactly when it opens its file. *)
Lemma generate_txt_report_store (options : Options) (w w' : World) :
  generate_txt_report E options w = Ok tt w' ->
  archs w' = if txt_unwritable E options then archs w
             else map sort_libraries (archs w).
Proof.
  unfold generate_txt_report, txt_unwritable.
  destruct (MAX_PATH <? _); [by intros [= <-] |]. cbn [orb].
  destruct (negb (fopen_w E _)); [by intros [= <-] |].
  pose proof (txt_architectures_fst (archs w)) as Hfst.
  destruct (txt_architectures (archs w)) as [archs' lines].
  intros [= <-]. by cbn in *.
Qed.

(** The PDF report sorts the store as it builds the document, before it
    saves it. *)
Lemma generate_pdf_report_store (options : Options) (w w' : World) :
  generate_pdf_report E options w = Ok tt w' ->
  archs w' = if (MAX_PATH <? strlen (output options) + 5) || negb (HPDF_New_ok E)
             then archs w
             else map sort_libraries (archs w).
Proof.
  unfold generate_pdf_report.
  destruct (MAX_PATH <? _); [by intros [= <-] |]. cbn [orb].
  destruct (negb (HPDF_New_ok E)); [by intros [= <-] |].
  destruct (pdf_architectures E (archs w)) as [[archs' items]|] eqn:Hpdf;
    [| done].
  apply pdf_architectures_fst in Hpdf.
  by destruct (negb (HPDF_SaveToFile_ok E _)); intros [= <-].
Qed.

End ReportStoreExact.

(** C2, as the code has it.  A report generator that returns leaves
    [total_execs], the architectures and their order, and, within each
    architecture, the libraries with their names, executable lists and
    counts; only the order of the libraries within an architecture can
    change, because [qsort] sorts the array of the store itself.  The text
    report leaves the store as it was exactly when it does not open its
    file (the name is too long or [fopen] fails), the PDF report exactly
    when it does not begin a document (the name is too long or [HPDF_New]
    fails); in every other case each architecture has its libraries sorted
    by non-increasing executable count, also when the PDF cannot be saved
    in the end. *)
Theorem reports_keep_store_up_to_order (E : Env) (Q : Qsort)
    (options : Options) (w w' : World) :
  generate_txt_report E options w = Ok tt w'
  \/ generate_pdf_report E options w = Ok tt w' ->
  total_execs w' = total_execs w /\
  same_up_to_library_order (archs w) (archs w') /\
  (generate_txt_report E options w = Ok tt w' ->
   if txt_unwritable E options then archs w' = archs w
   else archs w' = map sort_libraries (archs w) /\
        Forall (fun a => by_descending_count (arch_libraries a)) (archs w')) /\
  (generate_pdf_report E options w = Ok tt w' ->
   if (MAX_PATH <? strlen (output options) + 5) || negb (HPDF_New_ok E)
   then archs w' = archs w
   else archs w' = map sort_libraries (archs w) /\
        Forall (fun a => by_descending_count (arch_libraries a)) (archs w')).
Proof.
  intros Hr.
  assert (total_execs w' = total_execs w /\
          same_up_to_library_order (archs w) (archs w')) as [Ht Hs].
  { destruct Hr as [Hr | Hr]; apply reports_keep_store.
    - by apply (generate_txt_report_archs E options).
    - by apply (generate_pdf_report_archs E options). }
  assert (archs w' = map sort_libraries (archs w) ->
          Forall (fun a => by_descending_count (arch_libraries a)) (archs w'))
    as Hsorted.
  { intros ->. apply Forall_map, Forall_forall. intros a _.
    apply sort_libraries_sorted. }
  split; [done |]. split; [done |]. split.
  - intros Hstore%generate_txt_report_store.
    destruct (txt_unwritable E options); auto.
  - intros Hstore%generate_pdf_report_store.
    destruct (_ || _); auto.
Qed.

(** A PDF that cannot be saved: the document was built, and the store is
    sorted. *)
Lemma reports_keep_store_up_to_order_witness :
  exists w',
    @generate_pdf_report read_only_env merge_qsort
      (mkOptions ["c"] "/" "bldd_report" false true) unsorted_world = Ok tt w' /\
    files w' = [] /\ total_execs w' = 3 /\
    same_up_to_library_order (archs unsorted_world) (archs w') /\
    map (fun a => map lib_name (arch_libraries a)) (archs w')
    = [["libc.so"; "libm.so"]].
Proof.
  eexists. split; [reflexivity |]. split; [reflexivity |].
  destruct (reports_keep_store_up_to_order read_only_env merge_qsort
              (mkOptions ["c"] "/" "bldd_report" false true) unsorted_world _
              (or_intror eq_refl)) as (Ht & Hs & _ & Hpdf).
  split; [exact Ht |]. split; [exact Hs |].
  destruct (Hpdf eq_refl) as [Hstore _]. rewrite Hstore. reflexivity.
Defined.

(** Whatever [qsort] is, it has to exchange the two libraries of
    [unsorted_world]. *)
Lemma sort_libraries_unsorted (Q : Qsort) :
  map sort_libraries (archs unsorted_world)
  = [mkArchitecture "x86_64"
       [mkLibrary "libc.so" ["/bin/a"; "/bin/b"];
        mkLibrary "libm.so" ["/bin/b"]]].
Proof.
  cbn. unfold sort_libraries. cbn. do 2 f_equal.
  pose proof (qsort_Permutation compare_libraries
                [mkLibrary "libm.so" ["/bin/b"];
                 mkLibrary "libc.so" ["/bin/a"; "/bin/b"]]) as Hperm.
  pose proof (qsort_StronglySorted compare_libraries
                [mkLibrary "libm.so" ["/bin/b"];
                 mkLibrary "libc.so" ["/bin/a"; "/bin/b"]]
                compare_libraries_consistent) as Hsorted.
  symmetry in Hperm. apply Permutation_length_2_inv in Hperm as [Heq | Heq];
    rewrite Heq in *; [| done].
  apply StronglySorted_inv in Hsorted as [_ Hhd].
  apply Forall_cons in Hhd as [Hhd _]. by vm_compute in Hhd.
Qed.

(** C2 as stated fails: after the text report of [unsorted_world] the store
    lists libc.so before libm.so, for every implementation of [qsort]. *)
Lemma generate_txt_report_reorders_store :
  (forall Q : Qsort,
      exists w',
        @generate_txt_report quiet_env Q default_options unsorted_world
        = Ok tt w' /\
        map (fun a => map lib_name (arch_libraries a)) (archs w')
        = [["libc.so"; "libm.so"]]) /\
  map (fun a => map lib_name (arch_libraries a)) (archs unsorted_world)
  = [["libm.so"; "libc.so"]].
Proof.
  split; [| reflexivity]. intros Q.
  unfold generate_txt_report.
  replace (MAX_PATH <? strlen (output default_options) + 5) with false
    by reflexivity.
  replace (negb (fopen_w quiet_env
                   (snprintf MAX_PATH (output default_options +:+ ".txt"))))
    with false by reflexivity.
  pose proof (txt_architectures_fst (archs unsorted_world)) as Hfst.
  destruct (txt_architectures (archs unsorted_world)) as [archs' lines].
  simpl fst in Hfst. subst archs'. eexists. split; [reflexivity |].
  cbn [archs add_file set_archs].
  by rewrite (sort_libraries_unsorted Q).
Qed.

Lemma appends_only_refl (file_path : string) (l : list Architecture) :
  appends_only file_path l l.
Proof. intros i a Ha. exists a. repeat split; [done |]. intros j lib Hl. eauto. Qed.

Lemma appends_only_insert (file_path : string) (l : list Architecture)
    (i0 : nat) (a0 : Architecture) (libraries' : list Library) :
  l !! i0 = Some a0 ->
  (forall j lib, arch_libraries a0 !! j = Some lib ->
     exists lib', libraries' !! j = Some lib' /\
                  lib_name lib' = lib_name lib /\
                  (lib_execs lib' = lib_execs lib \/
                   lib_execs lib' = lib_execs lib ++ [file_path] /\
                   existsb (fun e => String.eqb e file_path) (lib_execs lib)
                   = false)) ->
  appends_only file_path l (<[i0 := mkArchitecture (arch_name a0) libraries']> l).
Proof.
  intros Ha0 Hlibs i a Ha. destruct (decide (i = i0)) as [-> | Hne].
  - rewrite Ha0 in Ha. injection Ha as <-.
    eexists. split; [apply list_lookup_insert_eq; by eapply lookup_lt_Some |].
    by split.
  - exists a. rewrite list_lookup_insert_ne by done. repeat split; [done |].
    intros j lib Hl. eauto.
Qed.

(** [record] never moves or removes a stored path: a new path goes to the
    end of its library's list. *)
Lemma record_appends_only (arch name file_path : string) (w w' : World) :
  record arch name file_path w = Ok tt w' ->
  appends_only file_path (archs w) (archs w').
Proof.
  intros Hrec. pose proof (record_viewP arch name file_path w) as Hv.
  rewrite Hrec in Hv.
  inversion Hv as [i j a lib Hfa Ha Hi Hfl Hl Hj Hw
                  | i a Hfa Ha Hi Hfl Hc Hw | Hfa Hc Hw |]; clear Hv;
    subst w'.
  - unfold add_executable_result.
    destruct (existsb _ _) eqn:Hex; [apply appends_only_refl |].
    destruct (exec_count lib <? MAX_EXECS); [| apply appends_only_refl].
    cbn. apply appends_only_insert; [done |].
    intros j' lib0 Hl0. destruct (decide (j' = j)) as [-> | Hne].
    + rewrite Hl in Hl0. injection Hl0 as <-.
      eexists. split; [apply list_lookup_insert_eq; by eapply lookup_lt_Some |].
      split; [done |]. by right.
    + exists lib0. rewrite list_lookup_insert_ne by done. auto.
  - cbn. apply appends_only_insert; [done |].
    intros j lib Hl. exists lib. rewrite lookup_app_l; [auto |].
    by eapply lookup_lt_Some.
  - cbn. intros i a Ha. exists a. rewrite lookup_app_l; [| by eapply lookup_lt_Some].
    repeat split; [done |]. intros j lib Hl. eauto.
Qed.


(** ** The store as a function of the calls *)

Section FirstSeen.

Lemma paths_for_snoc (a n arch name file_path : string) events :
  paths_for a n (events ++ [(arch, name, file_path)])
  = paths_for a n events
    ++ (if decide (arch = a /\ name = n) then [file_path] else []).
Proof.
  unfold paths_for. rewrite filter_app, fmap_app. f_equal.
  rewrite filter_cons, filter_nil. cbn. by repeat case_decide.
Qed.

Lemma first_occurrences_elem (p : string) (l : list string) :
  p ∈ first_occurrences l <-> p ∈ l.
Proof.
  induction l as [|x l IH]; [done |]. cbn.
  rewrite !elem_of_cons, list_elem_of_filter, IH.
  destruct (decide (p = x)) as [-> | Hne]; [split; auto |].
  split; [intros [? | [_ ?]]; auto | intros [? | ?]; auto].
Qed.

Lemma first_occurrences_snoc (p : string) (l : list string) :
  first_occurrences (l ++ [p])
  = if decide (p ∈ l) then first_occurrences l else first_occurrences l ++ [p].
Proof.
  induction l as [|x l IH]; [done |]. cbn. rewrite IH.
  destruct (decide (p ∈ l)) as [Hin | Hout].
  - rewrite decide_True; [done | by apply list_elem_of_further].
  - rewrite filter_app, filter_cons, filter_nil.
    destruct (decide (p = x)) as [-> | Hne].
    + rewrite (decide_True (P := x ∈ x :: l)) by apply list_elem_of_here.
      rewrite (decide_False (P := x <> x)) by (intros Hx; by apply Hx).
      by rewrite app_nil_r.
    + rewrite (decide_False (P := p ∈ x :: l))
        by (by intros [? | ?]%elem_of_cons).
      by rewrite (decide_True (P := p <> x)).
Qed.

Lemma existsb_eqb_elem (p : string) (l : list string) :
  existsb (fun e => String.eqb e p) l = true <-> p ∈ l.
Proof.
  rewrite existsb_exists. split.
  - intros (x & Hin & ->%String.eqb_eq). by apply list_elem_of_In.
  - intros Hin. exists p. split; [by apply list_elem_of_In |].
    apply String.eqb_refl.
Qed.

(** [first_seen] moves with a call as [add_executable] moves the list. *)
Lemma first_seen_snoc (arch name file_path : string) events :
  let stored := first_seen arch name events in
  first_seen arch name (events ++ [(arch, name, file_path)])
  = if existsb (fun e => String.eqb e file_path) stored then stored
    else if Z.of_nat (List.length stored) <? MAX_EXECS
         then stored ++ [file_path]
         else stored.
Proof.
  intros stored. subst stored. unfold first_seen.
  rewrite paths_for_snoc, decide_True by done.
  set (l := paths_for arch name events).
  set (n := Z.to_nat MAX_EXECS).
  rewrite first_occurrences_snoc.
  destruct (existsb _ (take n (first_occurrences l))) eqn:Hex.
  - apply existsb_eqb_elem in Hex.
    apply (subseteq_take n) in Hex. rewrite first_occurrences_elem in Hex.
    by rewrite decide_True.
  - assert (file_path ∉ take n (first_occurrences l)) as Hout.
    { intros Hin%existsb_eqb_elem. congruence. }
    destruct (Z.of_nat (List.length (take n (first_occurrences l))) <? MAX_EXECS)
      eqn:Hroom.
    + apply Z.ltb_lt in Hroom. rewrite length_take in Hroom.
      assert (List.length (first_occurrences l) < n)%nat as Hshort
          by (subst n; lia).
      rewrite (take_ge (first_occurrences l)) in * by lia.
      rewrite decide_False by (by rewrite <- first_occurrences_elem).
      apply take_ge. rewrite length_app. cbn. lia.
    + apply Z.ltb_ge in Hroom. rewrite length_take in Hroom.
      assert (n <= List.length (first_occurrences l))%nat as Hlong
          by (subst n; lia).
      case_decide; [done |]. by rewrite take_app_le.
Qed.

Lemma first_seen_snoc_other (a n arch name file_path : string) events :
  ~ (arch = a /\ name = n) ->
  first_seen a n (events ++ [(arch, name, file_path)]) = first_seen a n events.
Proof.
  intros Hne. unfold first_seen.
  by rewrite paths_for_snoc, decide_False, app_nil_r.
Qed.

End FirstSeen.

Section Reflects.

Lemma find_name_lookup {A} (name_of : A -> string) (key : string)
    (l : list A) (i : nat) (x : A) :
  find_name name_of key l 0 = Some (Z.of_nat i) -> l !! i = Some x ->
  name_of x = key.
Proof.
  intros (n & y & Hi & Hy & Hk & _)%find_name_Some Hx.
  assert (n = i) as -> by lia. congruence.
Qed.

Lemma find_name_None_lookup {A} (name_of : A -> string) (key : string)
    (l : list A) (i : nat) (x : A) :
  find_name name_of key l 0 = None -> l !! i = Some x -> name_of x <> key.
Proof.
  intros Hnone%find_name_None Hx.
  by apply (proj1 (Forall_lookup _ _) Hnone i x).
Qed.

Lemma names_unique {A} (name_of : A -> string) (l : list A) (i i' : nat)
    (x y : A) :
  NoDup (name_of <$> l) -> l !! i = Some x -> l !! i' = Some y ->
  name_of x = name_of y -> i = i'.
Proof.
  intros Hnd Hx Hy Heq.
  apply (NoDup_lookup _ _ _ (name_of x) Hnd).
  - by rewrite list_lookup_fmap, Hx.
  - by rewrite list_lookup_fmap, Hy, Heq.
Qed.

Lemma names_insert {A} (name_of : A -> string) (l : list A) (i : nat)
    (x y : A) :
  l !! i = Some x -> name_of y = name_of x ->
  name_of <$> <[i := y]> l = name_of <$> l.
Proof.
  intros Hx Hn. rewrite list_fmap_insert. apply list_insert_id.
  by rewrite list_lookup_fmap, Hx, Hn.
Qed.

Lemma names_snoc {A} (name_of : A -> string) (l : list A) (key : string)
    (y : A) :
  NoDup (name_of <$> l) -> find_name name_of key l 0 = None ->
  name_of y = key -> NoDup (name_of <$> (l ++ [y])).
Proof.
  intros Hnd Hnone%find_name_None Hy. rewrite fmap_app. apply NoDup_app.
  split; [done |]. split; [| apply NoDup_singleton].
  intros n Hn ->%list_elem_of_singleton.
  apply list_elem_of_fmap in Hn as (x & Hx & Hin).
  apply (proj1 (Forall_forall _ _) Hnone x Hin). congruence.
Qed.

Lemma first_seen_none (a n : string) events :
  (forall file_path, (a, n, file_path) ∉ events) -> first_seen a n events = [].
Proof.
  intros Hnone. unfold first_seen, paths_for.
  replace (filter (fun e => e.1.1 = a /\ e.1.2 = n) events)
    with (@nil (string * string * string)); [by destruct (Z.to_nat _) |].
  symmetry. induction events as [|[[a0 n0] p0] events IH]; [done |].
  rewrite filter_cons. cbn. rewrite decide_False.
  - apply IH. intros p Hin. apply (Hnone p). by apply list_elem_of_further.
  - intros [-> ->]. apply (Hnone p0), list_elem_of_here.
Qed.

Lemma first_seen_first (arch name file_path : string) events :
  (forall p, (arch, name, p) ∉ events) ->
  first_seen arch name (events ++ [(arch, name, file_path)]) = [file_path].
Proof.
  intros Hnone. pose proof (first_seen_snoc arch name file_path events) as Hs.
  cbn zeta in Hs. by rewrite (first_seen_none _ _ _ Hnone) in Hs.
Qed.

(** The list [add_executable] leaves, as an update of the store. *)
Lemma add_executable_result_archs (i j : nat) (a : Architecture)
    (lib : Library) (file_path : string) (w : World) :
  archs w !! i = Some a -> arch_libraries a !! j = Some lib ->
  archs (add_executable_result i j a lib file_path w)
  = <[i := mkArchitecture (arch_name a)
             (<[j := mkLibrary (lib_name lib)
                       (if existsb (fun e => String.eqb e file_path)
                             (lib_execs lib)
                        then lib_execs lib
                        else if exec_count lib <? MAX_EXECS
                             then lib_execs lib ++ [file_path]
                             else lib_execs lib)]>
                (arch_libraries a))]> (archs w).
Proof.
  intros Ha Hl. unfold add_executable_result.
  assert (<[i := mkArchitecture (arch_name a)
                   (<[j := mkLibrary (lib_name lib) (lib_execs lib)]>
                      (arch_libraries a))]> (archs w) = archs w) as Hid.
  { apply list_insert_id. rewrite Ha. f_equal. destruct a as [an al].
    cbn in *. f_equal. symmetry. apply list_insert_id. rewrite Hl.
    by destruct lib. }
  destruct (existsb _ _); [by rewrite Hid |].
  destruct (exec_count lib <? MAX_EXECS); [done | by rewrite Hid].
Qed.

End Reflects.

Section ReflectsStep.

Context (done : list (string * string * string)).
Context (arch name file_path : string).
Context (Harch : strlen arch <= 31) (Hname : strlen name <= 255).

(** The calls made so far have their entries also after the next call. *)
Lemma reflects_entries (before after : list Architecture) (i0 j0 : nat)
    (a' : Architecture) (lib' : Library) :
  appends_only file_path before after ->
  (forall a n p, (a, n, p) ∈ done ->
     exists i a0 j lib, before !! i = Some a0 /\ arch_name a0 = a /\
                        arch_libraries a0 !! j = Some lib /\ lib_name lib = n) ->
  after !! i0 = Some a' -> arch_name a' = arch ->
  arch_libraries a' !! j0 = Some lib' -> lib_name lib' = name ->
  forall a n p, (a, n, p) ∈ done ++ [(arch, name, file_path)] ->
    exists i a0 j lib, after !! i = Some a0 /\ arch_name a0 = a /\
                       arch_libraries a0 !! j = Some lib /\ lib_name lib = n.
Proof.
  intros Happ Hold Ha' Han Hl' Hln a n p [Hin | Hin]%elem_of_app.
  - destruct (Hold a n p Hin) as (i & a0 & j & lib & Ha0 & Hn0 & Hlib & Hn).
    destruct (Happ i a0 Ha0) as (a1 & Ha1 & Hn1 & Hlibs).
    destruct (Hlibs j lib Hlib) as (lib1 & Hlib1 & Hnl1 & _).
    exists i, a1, j, lib1. repeat split; congruence.
  - apply list_elem_of_singleton in Hin. injection Hin as -> -> ->.
    by exists i0, a', j0, lib'.
Qed.

(** A library that is in the store gets the path, or keeps its list. *)
Lemma reflects_known (w w' : World) (i j : nat) (a : Architecture)
    (lib : Library) :
  store_reflects done w ->
  archs w !! i = Some a -> arch_name a = arch ->
  arch_libraries a !! j = Some lib -> lib_name lib = name ->
  appends_only file_path (archs w) (archs w') ->
  archs w' = archs (add_executable_result i j a lib file_path w) ->
  store_reflects (done ++ [(arch, name, file_path)]) w'.
Proof.
  intros (Hua & Hul & Hs & Hc) Ha Han Hl Hln Happ Hw'.
  rewrite (add_executable_result_archs _ _ _ _ _ _ Ha Hl) in Hw'.
  pose proof (first_seen_snoc arch name file_path done) as Hsnoc.
  cbn zeta in Hsnoc. rewrite <- Han, <- Hln, <- (Hs i a j lib Ha Hl) in Hsnoc.
  fold (exec_count lib) in Hsnoc.
  set (execs' := if existsb _ (lib_execs lib) then _ else _) in *.
  set (lib' := mkLibrary (lib_name lib) execs') in *.
  set (a' := mkArchitecture (arch_name a) (<[j := lib']> (arch_libraries a)))
    in *.
  assert (archs w' !! i = Some a') as Ha'.
  { rewrite Hw'. apply list_lookup_insert_eq. by eapply lookup_lt_Some. }
  assert (arch_libraries a' !! j = Some lib') as Hl'.
  { apply list_lookup_insert_eq. by eapply lookup_lt_Some. }
  split; [| split; [| split]].
  - rewrite Hw'. by rewrite (names_insert arch_name _ _ a).
  - intros i0 a0. rewrite Hw'.
    intros [(<- & <- & _) | (_ & Ha0)]%list_lookup_insert_Some;
      [| by apply (Hul i0)].
    cbn. rewrite (names_insert lib_name _ _ lib); [by apply (Hul i) | done ..].
  - intros i0 a0 j0 lib0. rewrite Hw'.
    intros [(<- & <- & _) | (Hne & Ha0)]%list_lookup_insert_Some.
    + cbn. intros [(<- & <- & _) | (Hnj & Hl0)]%list_lookup_insert_Some.
      * cbn. by rewrite Han, Hln in *.
      * rewrite first_seen_snoc_other; [by apply (Hs i a j0) |].
        intros [_ Heq]. apply Hnj.
        apply (names_unique lib_name (arch_libraries a) j j0 lib lib0);
          [by apply (Hul i) | done | done | congruence].
    + intros Hl0. rewrite first_seen_snoc_other; [by apply (Hs i0 a0 j0) |].
      intros [Heq _]. apply Hne.
      apply (names_unique arch_name (archs w) i i0 a a0); try done.
      congruence.
  - by apply (reflects_entries (archs w) (archs w') i j a' lib').
Qed.

(** A new library of an architecture that is in the store. *)
Lemma reflects_new_library (w w' : World) (i : nat) (a : Architecture) :
  store_reflects done w ->
  archs w !! i = Some a -> arch_name a = arch ->
  find_name lib_name name (arch_libraries a) 0 = None ->
  appends_only file_path (archs w) (archs w') ->
  archs w'
  = <[i := mkArchitecture (arch_name a)
             (arch_libraries a ++ [mkLibrary (strncpy 255 name) [file_path]])]>
      (archs w) ->
  store_reflects (done ++ [(arch, name, file_path)]) w'.
Proof.
  intros (Hua & Hul & Hs & Hc) Ha Han Hnone Happ Hw'.
  rewrite (strncpy_fits 255 name Hname) in Hw'.
  set (lib' := mkLibrary name [file_path]) in *.
  set (a' := mkArchitecture (arch_name a) (arch_libraries a ++ [lib'])) in *.
  assert (archs w' !! i = Some a') as Ha'.
  { rewrite Hw'. apply list_lookup_insert_eq. by eapply lookup_lt_Some. }
  assert (arch_libraries a' !! List.length (arch_libraries a) = Some lib')
    as Hl'.
  { cbn. by rewrite lookup_app_r, Nat.sub_diag. }
  assert (forall p, (arch, name, p) ∉ done) as Hfresh.
  { intros p Hin.
    destruct (Hc arch name p Hin) as (i0 & a0 & j0 & lib0 & Ha0 & Hn0 & Hl0 & Hln).
    assert (i = i0) as <-
        by (apply (names_unique arch_name (archs w) i i0 a a0); congruence).
    assert (a0 = a) as -> by congruence.
    by apply (find_name_None_lookup lib_name name _ j0 lib0 Hnone Hl0). }
  split; [| split; [| split]].
  - rewrite Hw'. by rewrite (names_insert arch_name _ _ a).
  - intros i0 a0. rewrite Hw'.
    intros [(<- & <- & _) | (_ & Ha0)]%list_lookup_insert_Some;
      [| by apply (Hul i0)].
    cbn. apply (names_snoc lib_name _ name); [by apply (Hul i) | done ..].
  - intros i0 a0 j0 lib0. rewrite Hw'.
    intros [(<- & <- & _) | (Hne & Ha0)]%list_lookup_insert_Some.
    + cbn. intros [Hl0 | (_ & Hl0)]%lookup_app_Some.
      * rewrite first_seen_snoc_other; [by apply (Hs i a j0) |].
        intros [_ Heq].
        by apply (find_name_None_lookup lib_name name _ j0 lib0 Hnone Hl0).
      * apply list_lookup_singleton_Some in Hl0 as [_ <-]. cbn.
        rewrite Han. by rewrite first_seen_first.
    + intros Hl0. rewrite first_seen_snoc_other; [by apply (Hs i0 a0 j0) |].
      intros [Heq _]. apply Hne.
      apply (names_unique arch_name (archs w) i i0 a a0); try done.
      congruence.
  - by apply (reflects_entries (archs w) (archs w') i
                (List.length (arch_libraries a)) a' lib').
Qed.

(** A new architecture. *)
Lemma reflects_new_architecture (w w' : World) :
  store_reflects done w ->
  find_name arch_name arch (archs w) 0 = None ->
  appends_only file_path (archs w) (archs w') ->
  archs w'
  = archs w ++ [mkArchitecture (strncpy 31 arch)
                  [mkLibrary (strncpy 255 name) [file_path]]] ->
  store_reflects (done ++ [(arch, name, file_path)]) w'.
Proof.
  intros (Hua & Hul & Hs & Hc) Hnone Happ Hw'.
  rewrite (strncpy_fits 255 name Hname), (strncpy_fits 31 arch Harch) in Hw'.
  set (lib' := mkLibrary name [file_path]) in *.
  set (a' := mkArchitecture arch [lib']) in *.
  assert (forall p n, (arch, n, p) ∉ done) as Hfresh.
  { intros p n Hin.
    destruct (Hc arch n p Hin) as (i0 & a0 & j0 & lib0 & Ha0 & Hn0 & _).
    by apply (find_name_None_lookup arch_name arch _ i0 a0 Hnone Ha0). }
  split; [| split; [| split]].
  - rewrite Hw'. by apply (names_snoc arch_name _ arch).
  - intros i0 a0. rewrite Hw'. intros [Ha0 | (_ & Ha0)]%lookup_app_Some;
      [by apply (Hul i0) |].
    apply list_lookup_singleton_Some in Ha0 as [_ <-]. cbn.
    apply NoDup_singleton.
  - intros i0 a0 j0 lib0. rewrite Hw'.
    intros [Ha0 | (_ & Ha0)]%lookup_app_Some.
    + intros Hl0. rewrite first_seen_snoc_other; [by apply (Hs i0 a0 j0) |].
      intros [Heq _].
      by apply (find_name_None_lookup arch_name arch _ i0 a0 Hnone Ha0).
    + apply list_lookup_singleton_Some in Ha0 as [_ <-]. cbn.
      intros [_ <-]%list_lookup_singleton_Some. cbn.
      by rewrite first_seen_first.
  - apply (reflects_entries (archs w) (archs w') (List.length (archs w)) 0
             a' lib'); try done.
    rewrite Hw'. by rewrite lookup_app_r, Nat.sub_diag.
Qed.

(** One call. *)
Lemma record_reflects (w w' : World) :
  store_reflects done w ->
  record arch name file_path w = Ok tt w' ->
  store_reflects (done ++ [(arch, name, file_path)]) w'.
Proof.
  intros Hrefl Hrec.
  pose proof (record_appends_only _ _ _ _ _ Hrec) as Happ.
  pose proof (record_viewP arch name file_path w) as Hv.
  rewrite Hrec in Hv.
  inversion Hv as [i j a lib Hfa Ha Hi Hfl Hl Hj Hw
                  | i a Hfa Ha Hi Hfl Hc Hw | Hfa Hc Hw |]; clear Hv;
    subst w'.
  - apply (reflects_known w _ i j a lib); try done.
    + by apply (find_name_lookup arch_name arch (archs w) i).
    + by apply (find_name_lookup lib_name name (arch_libraries a) j).
  - apply (reflects_new_library w _ i a); try done.
    by apply (find_name_lookup arch_name arch (archs w) i).
  - by apply (reflects_new_architecture w).
Qed.

End ReflectsStep.

Lemma record_all_reflects (done events : list (string * string * string))
    (w w' : World) :
  store_reflects done w -> Forall names_fit events ->
  record_all events w = Ok tt w' ->
  store_reflects (done ++ events) w'.
Proof.
  revert done w. induction events as [|[[a n] p] events IH];
    intros done w Hrefl Hfit.
  - intros [= <-]. by rewrite app_nil_r.
  - apply Forall_cons in Hfit as [[Ha Hn] Hfit]. cbn in Ha, Hn.
    cbn [record_all]. unfold bind.
    destruct (record a n p w) as [[] w1| |] eqn:Hrec; [| done ..].
    intros Hrest. rewrite (cons_middle _ done events), app_assoc.
    apply (IH _ w1); [| done ..].
    by apply (record_reflects done a n p Ha Hn w w1).
Qed.

Lemma initial_world_reflects : store_reflects [] initial_world.
Proof.
  split; [apply NoDup_nil_2 |]. split; [done |]. split; [done |].
  intros a n p Hin. by apply elem_of_nil in Hin.
Qed.

(** A run of [record] calls from the empty store leaves, in each library,
    the first MAX_EXECS distinct paths recorded for it, in the order in
    which they were first recorded; no architecture and no library of an
    architecture is stored twice. *)
Lemma record_all_first_seen (events : list (string * string * string))
    (w : World) :
  Forall names_fit events ->
  record_all events initial_world = Ok tt w ->
  store_reflects events w.
Proof.
  intros Hfit Hrun.
  by apply (record_all_reflects [] events initial_world w
              initial_world_reflects).
Qed.


(** ** The text report returns *)

Section ReportFailures.

Context (E : Env) {Q : Qsort}.

Lemma generate_txt_report_returns (options : Options) (w : World) :
  exists w', generate_txt_report E options w = Ok tt w'.
Proof.
  unfold generate_txt_report.
  destruct (MAX_PATH <? _); [by eexists |].
  destruct (negb _); [by eexists |].
  destruct (txt_architectures (archs w)). by eexists.
Qed.

Lemma generate_txt_report_unwritable (options : Options) (w : World) :
  txt_unwritable E options = true ->
  exists msg, generate_txt_report E options w = Ok tt (eprint w msg).
Proof.
  unfold txt_unwritable, generate_txt_report.
  destruct (MAX_PATH <? _); [by eexists |]. simpl.
  intros ->. by eexists.
Qed.

End ReportFailures.

(** ** The array of search terms *)

Section ParseArguments.

Context (E : Env).

Lemma lib_flags_cons (arg : string) (args : list string) :
  lib_flags (arg :: args)
  = ((if is_flag arg "--lib" "-l" then 1 else 0) + lib_flags args)%nat.
Proof.
  unfold lib_flags. rewrite filter_cons.
  destruct (is_flag arg "--lib" "-l") eqn:Hflag.
  - by rewrite decide_True.
  - rewrite decide_False; [done | congruence].
Qed.

Lemma parse_loop_in_bounds (n : nat) (args : list string) (o : Options)
    (dir_set : bool) (w : World) :
  (List.length args <= n)%nat ->
  Z.of_nat (List.length (libs o)) + Z.of_nat (lib_flags args) <= MAX_LIBS ->
  parse_loop args o dir_set w <> Fault Obj_options_libs.
Proof.
  revert args o dir_set w.
  induction n as [|n IH]; intros [|arg rest] o dir_set w Hlen Hflags;
    try done; simpl in Hlen; [lia |].
  rewrite lib_flags_cons in Hflags. cbn [parse_loop].
  destruct (is_flag arg "--help" "-h"); [done |].
  destruct (is_flag arg "--lib" "-l").
  { destruct rest as [|value rest']; [done |].
    rewrite lib_flags_cons in Hflags. unfold bind, store_lib.
    destruct (Z.of_nat (List.length (libs o)) <? MAX_LIBS) eqn:Hslot;
      [| apply Z.ltb_ge in Hslot; lia].
    unfold ret. apply IH; [simpl in Hlen; lia |].
    cbn. rewrite length_app. cbn. destruct (is_flag value _ _); lia. }
  destruct (is_flag arg "--dir" "-d").
  { destruct rest as [|value rest']; [done |].
    rewrite lib_flags_cons in Hflags.
    destruct (strcpy MAX_PATH value); [| done].
    apply IH; [simpl in Hlen; lia |].
    cbn. destruct (is_flag value _ _); lia. }
  destruct (is_flag arg "--format" "-f").
  { destruct rest as [|value rest']; [done |].
    rewrite lib_flags_cons in Hflags.
    assert (Z.of_nat (List.length (libs o)) + Z.of_nat (lib_flags rest')
            <= MAX_LIBS) by (destruct (is_flag value _ _); lia).
    repeat case_match; try done; apply IH; simpl in Hlen; cbn; lia. }
  destruct (is_flag arg "--output" "-o"); [| done].
  destruct rest as [|value rest']; [done |].
  rewrite lib_flags_cons in Hflags.
  destruct (strcpy MAX_PATH value); [| done].
  apply IH; [simpl in Hlen; lia |].
  cbn. destruct (is_flag value _ _); lia.
Qed.

Lemma parse_loop_lib_args (terms rest : list string) (o : Options)
    (dir_set : bool) (w : World) :
  Z.of_nat (List.length (libs o)) + Z.of_nat (List.length terms) <= MAX_LIBS ->
  parse_loop (lib_args terms ++ rest) o dir_set w
  = parse_loop rest (set_libs o (libs o ++ terms)) dir_set w.
Proof.
  revert o. induction terms as [|term terms IH]; intros o Hlen.
  - destruct o. cbn. by rewrite app_nil_r.
  - cbn [lib_args flat_map app parse_loop].
    change (is_flag "--lib" "--help" "-h") with false.
    change (is_flag "--lib" "--lib" "-l") with true. cbn [is_flag].
    unfold bind, store_lib. cbn in Hlen.
    rewrite (proj2 (Z.ltb_lt _ _)) by lia. unfold ret.
    fold (lib_args terms). rewrite IH.
    + cbn. by rewrite <- app_assoc.
    + cbn. rewrite length_app. cbn. lia.
Qed.

Lemma parse_loop_lib_overflow (terms rest : list string) (o : Options)
    (dir_set : bool) (w : World) :
  Z.of_nat (List.length (libs o)) <= MAX_LIBS ->
  MAX_LIBS < Z.of_nat (List.length (libs o)) + Z.of_nat (List.length terms) ->
  parse_loop (lib_args terms ++ rest) o dir_set w = Fault Obj_options_libs.
Proof.
  revert o. induction terms as [|term terms IH]; intros o Hle Hlen.
  - cbn in Hlen. lia.
  - cbn [lib_args flat_map app parse_loop].
    change (is_flag "--lib" "--help" "-h") with false.
    change (is_flag "--lib" "--lib" "-l") with true. cbn [is_flag].
    unfold bind, store_lib.
    destruct (Z.of_nat (List.length (libs o)) <? MAX_LIBS) eqn:Hslot; [| done].
    apply Z.ltb_lt in Hslot. unfold ret. fold (lib_args terms).
    apply IH; cbn; rewrite length_app; cbn; cbn in Hlen; lia.
Qed.

End ParseArguments.

(** C10.  [parse_arguments] has MAX_LIBS = 100 slots for search terms and
    stores each term without looking at the count.  A command line with at
    most 100 [--lib]/[-l] arguments never writes outside the array, and 100
    terms are all stored, in order; a command line that begins with more
    than 100 [--lib] pairs writes the 101st outside it. *)
Theorem parse_arguments_lib_slots (E : Env) :
  MAX_LIBS = 100 /\
  (forall argv w,
      Z.of_nat (lib_flags (tail argv)) <= MAX_LIBS ->
      parse_arguments E argv w <> Fault Obj_options_libs) /\
  (forall terms d w,
      terms <> [] -> Z.of_nat (List.length terms) <= MAX_LIBS ->
      strlen d < MAX_PATH -> is_Some (opendir E d) ->
      parse_arguments E ("bldd" :: lib_args terms ++ ["--dir"; d]) w
      = Ok (mkOptions terms d "bldd_report" true false) w) /\
  (forall terms rest w,
      MAX_LIBS < Z.of_nat (List.length terms) ->
      parse_arguments E ("bldd" :: lib_args terms ++ rest) w
      = Fault Obj_options_libs).
Proof.
  split; [done |]. split; [| split].
  - intros argv w Hflags. unfold parse_arguments.
    destruct (Z.of_nat (List.length argv) <? 2); [done |].
    unfold bind.
    pose proof (parse_loop_in_bounds (List.length (tail argv)) (tail argv)
                  default_options false w (Nat.le_refl _)) as Hloop.
    destruct (parse_loop (tail argv) default_options false w)
      as [[o dir_set] w'| |o] eqn:Hparse.
    + cbn [fst snd]. unfold die, bind, fprintf_stderr, exit, ret.
      repeat case_match; done.
    + done.
    + intros [= ->]. apply Hloop; [cbn; lia | done].
  - intros terms d w Hne Hlen Hd [entries Hopen]. unfold parse_arguments.
    assert ((Z.of_nat (List.length ("bldd" :: lib_args terms ++ ["--dir"; d]))
             <? 2) = false) as ->.
    { apply Z.ltb_ge. destruct terms as [|t terms]; [done |].
      cbn [lib_args flat_map app List.length]. lia. }
    unfold bind. cbn [tail].
    rewrite parse_loop_lib_args by (cbn; unfold MAX_LIBS in *; lia).
    cbn [parse_loop].
    change (is_flag "--dir" "--help" "-h") with false.
    change (is_flag "--dir" "--lib" "-l") with false.
    change (is_flag "--dir" "--dir" "-d") with true. cbn [is_flag].
    unfold strcpy. rewrite (proj2 (Z.ltb_lt _ _) Hd). cbn.
    destruct (Z.of_nat (List.length terms) =? 0) eqn:Hzero.
    { apply Z.eqb_eq in Hzero. destruct terms; [done | cbn in Hzero; lia]. }
    by rewrite Hopen.
  - intros terms rest w Hlen. unfold parse_arguments.
    assert ((Z.of_nat (List.length ("bldd" :: lib_args terms ++ rest)) <? 2)
            = false) as ->.
    { apply Z.ltb_ge. destruct terms as [|t terms]; [cbn in Hlen; unfold MAX_LIBS in Hlen; lia |].
      cbn [lib_args flat_map app List.length]. lia. }
    unfold bind. cbn [tail].
    by rewrite parse_loop_lib_overflow by (cbn; unfold MAX_LIBS in *; lia).
Qed.

Lemma parse_arguments_lib_slots_witness :
  parse_arguments quiet_env ["bldd"; "--lib"; "c"; "-l"; "m"; "--dir"] initial_world
  <> Fault Obj_options_libs.
Proof.
  apply (proj1 (proj2 (parse_arguments_lib_slots quiet_env))).
  vm_compute. discriminate.
Defined.

(** 101 search terms: the store of the last one is outside the array. *)
Example parse_arguments_101_terms :
  parse_arguments quiet_env ("bldd" :: lib_args (library_names 101) ++ ["--dir"; "/"])
    initial_world = Fault Obj_options_libs.
Proof. vm_compute. reflexivity. Qed.

(** ** The directory walk and symbolic links *)

Section Walk.

Context (E : Env) (options : Options).


Lemma scan_entries_returns descend dir_path entries w :
  (forall d_name w',
      d_name ∈ entries -> d_name <> "." -> d_name <> ".." ->
      lstat E (entry_path dir_path d_name) = Some S_IFDIR ->
      is_Some (descend (entry_path dir_path d_name) w')) ->
  is_Some (scan_entries E descend dir_path entries options w).
Proof.
  revert w. induction entries as [|d_name rest IH]; intros w Hdesc;
    [by eexists |].
  assert (forall v, is_Some (scan_entries E descend dir_path rest options v))
    as Hrest.
  { intros v. apply IH. intros d w' Hin. apply Hdesc. by right. }
  cbn [scan_entries].
  destruct (String.eqb d_name ".") eqn:Hdot; [apply Hrest |].
  destruct (String.eqb d_name "..") eqn:Hdotdot; [apply Hrest |].
  cbn [orb].
  destruct (lstat E (entry_path dir_path d_name)) as [t|] eqn:Hstat;
    [| apply Hrest].
  destruct t; cbn [S_ISDIR S_ISREG]; try apply Hrest.
  - apply String.eqb_neq in Hdot, Hdotdot.
    destruct (Hdesc d_name w (list_elem_of_here _ _) Hdot Hdotdot Hstat)
      as [r ->].
    destruct r as [[] w'| |]; [apply Hrest | by eexists ..].
  - destruct (scan_file E _ options w) as [[] w'| |];
      [apply Hrest | by eexists ..].
Qed.

(** When the directories that [lstat] reports are nested to a finite depth,
    the walk returns, whatever the symbolic links point to. *)
Lemma scan_directory_returns (rank : string -> nat) fuel root w :
  (forall d p, real_subdirectory E d p -> (rank p < rank d)%nat) ->
  (rank root < fuel)%nat ->
  is_Some (scan_directory E fuel root options w).
Proof.
  intros Hrank. revert root w.
  induction fuel as [|fuel IH]; intros root w Hfuel; [lia |].
  cbn [scan_directory].
  destruct (opendir E root) as [entries|] eqn:Hopen; [| by eexists].
  apply scan_entries_returns. intros d_name w' Hin Hdot Hdotdot Hstat.
  apply IH.
  assert (rank (entry_path root d_name) < rank root)%nat; [| lia].
  apply Hrank. by exists entries, d_name.
Qed.

Lemma scan_entries_more_fuel (d1 d2 : string -> World -> option (result unit))
    dir_path entries w r :
  (forall p v r', d1 p v = Some r' -> d2 p v = Some r') ->
  scan_entries E d1 dir_path entries options w = Some r ->
  scan_entries E d2 dir_path entries options w = Some r.
Proof.
  intros Hd. revert w. induction entries as [|d_name rest IH]; intros w;
    [done |].
  cbn [scan_entries]. destruct (_ || _); [apply IH |].
  destruct (lstat E _) as [t|]; [| apply IH].
  destruct (S_ISDIR t).
  - destruct (d1 _ w) as [r1|] eqn:H1; [| done].
    rewrite (Hd _ _ _ H1). destruct r1; [apply IH | done ..].
  - destruct (S_ISREG t); [| apply IH].
    destruct (scan_file E _ options w); [apply IH | done ..].
Qed.

(** More fuel does not change a result. *)
Lemma scan_directory_more_fuel fuel fuel' root w r :
  (fuel <= fuel')%nat ->
  scan_directory E fuel root options w = Some r ->
  scan_directory E fuel' root options w = Some r.
Proof.
  revert fuel' root w r.
  induction fuel as [|fuel IH]; intros fuel' root w r Hle; [done |].
  destruct fuel' as [|fuel']; [lia |]. cbn [scan_directory].
  destruct (opendir E root); [| done].
  apply scan_entries_more_fuel. intros p v r'. apply IH. lia.
Qed.

End Walk.


(** ** Sizes of the store *)

Lemma record_preserves_fits (arch name file_path : string) :
  preserves store_fits (record arch name file_path).
Proof.
  intros w [] w' [Hcount Hall] Hrec.
  pose proof (record_viewP arch name file_path w) as Hv.
  rewrite Hrec in Hv.
  inversion Hv as [i j a lib Hfa Ha Hi Hfl Hl Hj Hw
                  | i a Hfa Ha Hi Hfl Hc Hw | Hfa Hc Hw |]; clear Hv;
    subst w'.
  - unfold add_executable_result.
    destruct (existsb _ _); [done |].
    destruct (exec_count lib <? MAX_EXECS) eqn:Hroom; [| done].
    apply Z.ltb_lt in Hroom.
    pose proof (proj1 (Forall_lookup _ _) Hall i a Ha) as [Hlibs Hexecs].
    split.
    + unfold arch_count in *. cbn. by rewrite length_insert.
    + cbn. apply Forall_insert; [done |]. split.
      * unfold lib_count in *. cbn. by rewrite length_insert.
      * cbn. apply Forall_insert; [done |].
        rewrite exec_count_append. lia.
  - pose proof (proj1 (Forall_lookup _ _) Hall i a Ha) as [Hlibs Hexecs].
    split.
    + unfold arch_count in *. cbn. by rewrite length_insert.
    + cbn. apply Forall_insert; [done |]. split.
      * unfold lib_count in *. cbn. rewrite length_app. cbn. lia.
      * cbn. apply Forall_app. split; [done |].
        constructor; [| done]. by vm_compute.
  - split.
    + unfold arch_count in *. cbn. rewrite length_app. cbn. lia.
    + cbn. apply Forall_app. split; [done |].
      constructor; [| done]. split; [by vm_compute |].
      constructor; [| done]. by vm_compute.
Qed.

(** In a store that fits its arrays the counter is far from the end of
    [int]. *)
Lemma total_execs_bound (w : World) :
  store_fits w -> counter_invariant w ->
  0 <= total_execs w <= MAX_ARCH * MAX_LIBS * MAX_EXECS.
Proof.
  intros [Hcount Hall] ->. unfold stored_pairs, arch_count in *.
  assert (forall libraries : list Library,
             Forall (fun lib => exec_count lib <= MAX_EXECS) libraries ->
             0 <= sumZ exec_count libraries
             <= Z.of_nat (List.length libraries) * MAX_EXECS) as Hlibs.
  { induction 1 as [|lib libraries Hlib _ IH]; cbn [sumZ List.length]; [lia |].
    unfold exec_count in *. lia. }
  assert (0 <= sumZ library_total (archs w)
          <= Z.of_nat (List.length (archs w)) * (MAX_LIBS * MAX_EXECS)) as Hsum.
  { clear Hcount. induction Hall as [|a l [Ha Hexecs] _ IH];
      cbn [sumZ List.length]; [lia |].
    specialize (Hlibs _ Hexecs). unfold library_total, lib_count in *.
    unfold MAX_EXECS in *. nia. }
  unfold MAX_ARCH, MAX_LIBS, MAX_EXECS in *. nia.
Qed.

(** ** The invariants of the data model after the walk *)

Lemma NoDup_first_occurrences (l : list string) : NoDup (first_occurrences l).
Proof.
  induction l as [|x l IH]; [apply NoDup_nil_2 |]. cbn.
  apply NoDup_cons. split; [| by apply NoDup_filter].
  intros [Hne _]%list_elem_of_filter. by apply Hne.
Qed.

Lemma NoDup_first_seen (arch name : string) events :
  NoDup (first_seen arch name events).
Proof.
  unfold first_seen.
  apply (sublist_NoDup _ (first_occurrences (paths_for arch name events)));
    [apply NoDup_first_occurrences | apply sublist_take].
Qed.

Lemma store_reflects_invariants events (w : World) :
  store_reflects events w -> data_model_invariants w.
Proof.
  intros (Hua & Hul & Hs & _). split; [done |].
  apply Forall_lookup. intros i a Ha. split; [by apply (Hul i) |].
  apply Forall_lookup. intros j lib Hl.
  rewrite (Hs i a j lib Ha Hl). apply NoDup_first_seen.
Qed.

(** The store the walk leaves satisfies the invariants of the data model,
    fits its arrays, and has a correct counter. *)
Lemma scan_directory_invariants (E : Env) (fuel : nat) (dir_path : string)
    (options : Options) (w : World) :
  scan_directory E fuel dir_path options initial_world = Some (Ok tt w) ->
  data_model_invariants w /\ store_fits w /\ counter_invariant w.
Proof.
  intros Hscan. split; [| split].
  - assert (exists events, store_reflects events w) as [events Hrefl];
      [| by apply (store_reflects_invariants events)].
    apply (scan_directory_preserves E (fun v => exists events, store_reflects events v))
      with fuel dir_path options initial_world; [| | | done].
    + intros arch term name file_path Htag Hpattern v [] v' [events Hrefl] Hrec.
      exists (events ++ [(arch, name, file_path)]).
      apply (record_reflects events arch name file_path) with v; try done.
      * by apply architecture_tag_fits.
      * apply lib_pattern_Some in Hpattern. lia.
    + intros v msg [events Hrefl]. by exists events.
    + exists []. apply initial_world_reflects.
  - apply (scan_directory_preserves E store_fits)
      with fuel dir_path options initial_world; [| done | | done].
    + intros arch term name file_path _ _. apply record_preserves_fits.
    + split; [by vm_compute | constructor].
  - apply (scan_directory_preserves E counter_invariant)
      with fuel dir_path options initial_world; [| done | done | done].
    intros arch term name file_path _ _. apply record_preserves_counter.
Qed.

(** C7.  For every store, every architecture tag, every library name that
    is the pattern of a search term, and every path: recording the triple
    twice leaves the store that recording it once leaves.  The second call
    changes no library's executable list or count and not [total_execs]. *)
Theorem record_idempotent (arch term name file_path : string) (w : World) :
  arch ∈ architecture_tags -> lib_pattern term = Some name ->
  store_of ((record arch name file_path >> record arch name file_path) w)
  = store_of (record arch name file_path w).
Proof.
  intros Harch Hname. apply record_twice.
  - by apply architecture_tag_fits.
  - apply lib_pattern_Some in Hname. lia.
Qed.

Lemma record_idempotent_witness :
  store_of ((record "x86_64" "libc.so" "/bin/a"
             >> record "x86_64" "libc.so" "/bin/a") initial_world)
  = Some ([mkArchitecture "x86_64" [mkLibrary "libc.so" ["/bin/a"]]], 1).
Proof.
  rewrite (record_idempotent "x86_64" "c" "libc.so" "/bin/a" initial_world);
    [reflexivity | apply list_elem_of_here | reflexivity].
Defined.

(** * The command line, the walk and the reports *)

(** ** The command line *)

Section ParseInvariant.

(** A property of the options and [dir_set] that every option of the
    command line keeps; [values] are the arguments an option may take its
    value from. *)
Context (I : Options -> bool -> Prop) (values : list string).
Context (Hlib : forall o d v,
            v ∈ values -> Z.of_nat (List.length (libs o)) < MAX_LIBS ->
            I o d -> I (set_libs o (libs o ++ [v])) d).
Context (Hdir : forall o d v,
            v ∈ values -> strlen v < MAX_PATH -> I o d -> I (set_dir o v) true).
Context (Hformat : forall o d txt pdf,
            txt || pdf = true -> I o d -> I (set_format o txt pdf) d).
Context (Houtput : forall o d v,
            v ∈ values -> strlen v < MAX_PATH -> I o d -> I (set_output o v) d).

Lemma parse_loop_invariant (n : nat) (args : list string) (o : Options)
    (d : bool) (w : World) (o' : Options) (d' : bool) (w' : World) :
  (List.length args <= n)%nat -> (forall v, v ∈ args -> v ∈ values) ->
  parse_loop args o d w = Ok (o', d') w' -> I o d -> I o' d' /\ w' = w.
Proof.
  revert args o d.
  induction n as [|n IH]; intros [|arg rest] o d Hlen Hin; simpl in Hlen;
    try lia; try (by intros [= <- <- <-]).
  cbn [parse_loop].
  destruct (is_flag arg "--help" "-h"); [done |].
  assert (forall value rest',
             rest = value :: rest' ->
             value ∈ values /\ (List.length rest' <= n)%nat /\
             forall v, v ∈ rest' -> v ∈ values) as Hrest.
  { intros value rest' ->. simpl in Hlen. split; [| split; [lia |]].
    - apply Hin. right. left.
    - intros v Hv. apply Hin. right. by right. }
  destruct (is_flag arg "--lib" "-l").
  { destruct rest as [|value rest']; [done |].
    destruct (Hrest value rest' eq_refl) as (Hv & Hl & Hr).
    unfold bind, store_lib.
    destruct (Z.of_nat (List.length (libs o)) <? MAX_LIBS) eqn:Hroom; [| done].
    apply Z.ltb_lt in Hroom. unfold ret. cbv beta iota. intros Hp HI.
    apply (IH _ _ _ Hl Hr Hp). by apply Hlib. }
  destruct (is_flag arg "--dir" "-d").
  { destruct rest as [|value rest']; [done |].
    destruct (Hrest value rest' eq_refl) as (Hv & Hl & Hr).
    unfold strcpy.
    destruct (strlen value <? MAX_PATH) eqn:Hfit; [| done].
    apply Z.ltb_lt in Hfit. intros Hp HI.
    apply (IH _ _ _ Hl Hr Hp). by apply (Hdir o d). }
  destruct (is_flag arg "--format" "-f").
  { destruct rest as [|value rest']; [done |].
    destruct (Hrest value rest' eq_refl) as (Hv & Hl & Hr).
    destruct (String.eqb value "txt");
      [intros Hp HI; apply (IH _ _ _ Hl Hr Hp); by apply Hformat |].
    destruct (String.eqb value "pdf");
      [intros Hp HI; apply (IH _ _ _ Hl Hr Hp); by apply Hformat |].
    destruct (String.eqb value "both");
      [intros Hp HI; apply (IH _ _ _ Hl Hr Hp); by apply Hformat |].
    done. }
  destruct (is_flag arg "--output" "-o"); [| done].
  destruct rest as [|value rest']; [done |].
  destruct (Hrest value rest' eq_refl) as (Hv & Hl & Hr).
  unfold strcpy.
  destruct (strlen value <? MAX_PATH) eqn:Hfit; [| done].
  apply Z.ltb_lt in Hfit. intros Hp HI.
  apply (IH _ _ _ Hl Hr Hp). by apply Houtput.
Qed.

End ParseInvariant.

(** An end of the process in the loop has status 0 and no diagnostic
    ([--help]), or status 1 and one diagnostic. *)
Lemma parse_loop_exits (n : nat) (args : list string) (o : Options)
    (d : bool) (w : World) (s : Z) (w' : World) :
  (List.length args <= n)%nat ->
  parse_loop args o d w = Exit s w' ->
  (s = 0 /\ w' = w) \/ (s = 1 /\ exists msg, w' = eprint w msg).
Proof.
  revert args o d.
  induction n as [|n IH]; intros [|arg rest] o d Hlen; simpl in Hlen;
    try lia; try done.
  cbn [parse_loop].
  destruct (is_flag arg "--help" "-h"); [intros [= <- <-]; by left |].
  assert (forall msg, @die (Options * bool) msg 1 w = Exit s w' ->
             (s = 0 /\ w' = w) \/ (s = 1 /\ exists msg, w' = eprint w msg))
    as Hdie.
  { intros msg [= <- <-]. right. split; [done | by exists msg]. }
  destruct (is_flag arg "--lib" "-l").
  { destruct rest as [|value rest']; [apply Hdie |].
    unfold bind, store_lib.
    destruct (Z.of_nat (List.length (libs o)) <? MAX_LIBS); [| done].
    unfold ret. apply IH. simpl in Hlen. lia. }
  destruct (is_flag arg "--dir" "-d").
  { destruct rest as [|value rest']; [apply Hdie |].
    destruct (strcpy MAX_PATH value); [| done].
    apply IH. simpl in Hlen. lia. }
  destruct (is_flag arg "--format" "-f").
  { destruct rest as [|value rest']; [apply Hdie |].
    simpl in Hlen.
    destruct (String.eqb value "txt"); [apply IH; lia |].
    destruct (String.eqb value "pdf"); [apply IH; lia |].
    destruct (String.eqb value "both"); [apply IH; lia |].
    apply Hdie. }
  destruct (is_flag arg "--output" "-o"); [| apply Hdie].
  destruct rest as [|value rest']; [apply Hdie |].
  destruct (strcpy MAX_PATH value); [| done].
  apply IH. simpl in Hlen. lia.
Qed.


(** How [parse_arguments] can end: it returns with [stderr] as it was, or
    it ends the process with status 0 and no diagnostic or with status 1
    and one diagnostic. *)
Lemma parse_arguments_cases (E : Env) (argv : list string) (w : World) :
  match parse_arguments E argv w with
  | Ok _ w' => w' = w
  | Exit s w' => (s = 0 /\ w' = w) \/ (s = 1 /\ exists msg, w' = eprint w msg)
  | Fault _ => True
  end.
Proof.
  unfold parse_arguments.
  destruct (Z.of_nat (List.length argv) <? 2); [by left |].
  unfold bind.
  destruct (parse_loop (tail argv) default_options false w)
    as [[o1 d1] w1|s1 w1|] eqn:Hloop; [| | done].
  - destruct (parse_loop_invariant (fun _ _ => True) (tail argv)) with
      (n := List.length (tail argv)) (args := tail argv) (o := default_options)
      (d := false) (w := w) (o' := o1) (d' := d1) (w' := w1) as [_ ->];
      try done.
    cbn [fst snd].
    assert (forall msg,
               (1 = 0 /\ eprint w msg = w)
               \/ (1 = 1 /\ exists msg', eprint w msg = eprint w msg'))
      as Hdie by (intros msg; right; split; [done | by exists msg]).
    destruct (_ =? 0); [apply Hdie |].
    destruct (negb d1); [apply Hdie |].
    destruct (opendir E (dir o1)); [done | apply Hdie].
  - by apply (parse_loop_exits (List.length (tail argv)) (tail argv)
                default_options false).
Qed.

(** X1.  When [parse_arguments] returns, nothing has been written to
    [stderr]; there is at least one search term and there are at most
    MAX_LIBS, each an argument of the command line; the directory is an
    argument of fewer than MAX_PATH characters that [opendir] opens; the
    output name has fewer than MAX_PATH characters; and at least one report
    format is selected. *)
Theorem parse_arguments_success (E : Env) (argv : list string) (w : World)
    (o : Options) (w' : World) :
  parse_arguments E argv w = Ok o w' ->
  w' = w /\
  libs o <> [] /\ Z.of_nat (List.length (libs o)) <= MAX_LIBS /\
  (forall term, term ∈ libs o -> term ∈ tail argv) /\
  dir o ∈ tail argv /\ strlen (dir o) < MAX_PATH /\
  is_Some (opendir E (dir o)) /\
  strlen (output o) < MAX_PATH /\
  (txt_format o = true \/ pdf_format o = true).
Proof.
  unfold parse_arguments.
  destruct (Z.of_nat (List.length argv) <? 2); [done |].
  unfold bind.
  destruct (parse_loop (tail argv) default_options false w)
    as [[o1 d1] w1| |] eqn:Hloop; [| done ..].
  cbn [fst snd].
  destruct (Z.of_nat (List.length (libs o1)) =? 0) eqn:Hnone; [done |].
  destruct d1; [| done]. cbn [negb].
  destruct (opendir E (dir o1)) as [entries|] eqn:Hopen; [| done].
  intros [= <- <-].
  pose (I := fun (o : Options) (d : bool) =>
               Z.of_nat (List.length (libs o)) <= MAX_LIBS /\
               (forall term, term ∈ libs o -> term ∈ tail argv) /\
               (d = true -> dir o ∈ tail argv /\ strlen (dir o) < MAX_PATH) /\
               strlen (output o) < MAX_PATH /\
               txt_format o || pdf_format o = true).
  destruct (parse_loop_invariant I (tail argv)) with
    (n := List.length (tail argv)) (args := tail argv) (o := default_options)
    (d := false) (w := w) (o' := o1) (d' := true) (w' := w1)
    as [(Hmax & Hterms & Hdir & Hout & Hfmt) Hw]; try done.
  - intros o d v Hv Hroom (Hmax & Hterms & Hdir & Hout & Hfmt).
    repeat split; try done.
    + cbn. rewrite length_app. cbn. lia.
    + cbn. intros term [Hin | ->%list_elem_of_singleton]%elem_of_app; auto.
    + by apply Hdir.
    + by apply Hdir.
  - intros o d v Hv Hfit (Hmax & Hterms & Hdir & Hout & Hfmt).
    repeat split; done.
  - intros o d txt pdf Hsel (Hmax & Hterms & Hdir & Hout & Hfmt).
    repeat split; try done; by apply Hdir.
  - intros o d v Hv Hfit (Hmax & Hterms & Hdir & Hout & Hfmt).
    repeat split; try done; by apply Hdir.
  - repeat split; try done. intros term Hin. by apply elem_of_nil in Hin.
  - destruct (Hdir eq_refl) as [Hd Hlen].
    split; [done |]. split.
    { intros Hnil. rewrite Hnil in Hnone. done. }
    repeat split; try done.
    destruct (txt_format o1); [by left | by right].
Qed.

Lemma parse_arguments_success_witness :
  let o := mkOptions ["c"; "ssl"] "/r" "report" true true in
  parse_arguments loop_env
    ["bldd"; "-l"; "c"; "-d"; "/r"; "-f"; "both"; "--lib"; "ssl"; "-o"; "report"]
    initial_world = Ok o initial_world /\
  Z.of_nat (List.length (libs o)) <= MAX_LIBS /\ is_Some (opendir loop_env (dir o)).
Proof.
  intros o.
  assert (parse_arguments loop_env
            ["bldd"; "-l"; "c"; "-d"; "/r"; "-f"; "both"; "--lib"; "ssl";
             "-o"; "report"] initial_world = Ok o initial_world) as Hparse
    by reflexivity.
  split; [exact Hparse |].
  destruct (parse_arguments_success loop_env _ _ _ _ Hparse)
    as (_ & _ & Hmax & _ & _ & _ & Hopen & _).
  by split.
Defined.





(** ** What a [record] call lists *)

Lemma lists_lookup (w : World) (arch name file_path : string) :
  lists w arch name file_path <->
  exists i a j lib,
    archs w !! i = Some a /\ arch_name a = arch /\
    arch_libraries a !! j = Some lib /\ lib_name lib = name /\
    file_path ∈ lib_execs lib.
Proof.
  split.
  - intros (a & lib & [i Ha]%list_elem_of_lookup_1 & Han
            & [j Hl]%list_elem_of_lookup_1 & Hln & Hp).
    by exists i, a, j, lib.
  - intros (i & a & j & lib & Ha & Han & Hl & Hln & Hp).
    exists a, lib. repeat split; try done; by eapply list_elem_of_lookup_2.
Qed.

Lemma library_full_lookup (w : World) (arch name : string) :
  library_full w arch name <->
  exists i a j lib,
    archs w !! i = Some a /\ arch_name a = arch /\
    arch_libraries a !! j = Some lib /\ lib_name lib = name /\
    MAX_EXECS <= exec_count lib.
Proof.
  split.
  - intros (a & lib & [i Ha]%list_elem_of_lookup_1 & Han
            & [j Hl]%list_elem_of_lookup_1 & Hln & Hp).
    by exists i, a, j, lib.
  - intros (i & a & j & lib & Ha & Han & Hl & Hln & Hp).
    exists a, lib. repeat split; try done; by eapply list_elem_of_lookup_2.
Qed.

(** A call keeps what is listed, and a full list stays full. *)
Lemma record_keeps_listed (arch name file_path : string) (w w' : World) :
  record arch name file_path w = Ok tt w' ->
  (forall a n p, lists w a n p -> lists w' a n p) /\
  (forall a n, library_full w a n -> library_full w' a n).
Proof.
  intros Happ%record_appends_only. split.
  - intros a n p (i & a0 & j & lib & Ha & Han & Hl & Hln & Hp)%lists_lookup.
    apply lists_lookup.
    destruct (Happ i a0 Ha) as (a1 & Ha1 & Han1 & Hlibs).
    destruct (Hlibs j lib Hl) as (lib1 & Hl1 & Hln1 & Hexecs).
    exists i, a1, j, lib1. repeat split; try congruence.
    destruct Hexecs as [-> | [-> _]]; [done |].
    apply elem_of_app. by left.
  - intros a n (i & a0 & j & lib & Ha & Han & Hl & Hln & Hp)%library_full_lookup.
    apply library_full_lookup.
    destruct (Happ i a0 Ha) as (a1 & Ha1 & Han1 & Hlibs).
    destruct (Hlibs j lib Hl) as (lib1 & Hl1 & Hln1 & Hexecs).
    exists i, a1, j, lib1. repeat split; try congruence.
    unfold exec_count in *.
    destruct Hexecs as [-> | [-> _]]; [done |].
    rewrite length_app. lia.
Qed.

(** A call lists nothing but its triple. *)
Lemma record_lists_new (arch name file_path : string) (w w' : World) :
  strlen arch <= 31 -> strlen name <= 255 ->
  record arch name file_path w = Ok tt w' ->
  forall a n p,
    lists w' a n p ->
    lists w a n p \/ (a = arch /\ n = name /\ p = file_path).
Proof.
  intros Harch Hname Hrec a0 n0 p0.
  pose proof (record_viewP arch name file_path w) as Hv.
  rewrite Hrec in Hv.
  inversion Hv as [i j a lib Hfa Ha Hi Hfl Hl Hj Hw
                  | i a Hfa Ha Hi Hfl Hc Hw | Hfa Hc Hw |]; clear Hv;
    subst w'; rewrite !lists_lookup.
  - rewrite (add_executable_result_archs _ _ _ _ _ _ Ha Hl).
    pose proof (find_name_lookup arch_name arch _ _ _ Hfa Ha) as Han.
    pose proof (find_name_lookup lib_name name _ _ _ Hfl Hl) as Hln.
    intros (i1 & a1 & j1 & lib1 & Ha1 & Han1 & Hl1 & Hln1 & Hp).
    apply list_lookup_insert_Some in Ha1 as [(<- & <- & _) | (_ & Ha1)];
      [| left; by exists i1, a1, j1, lib1].
    cbn in Han1, Hl1.
    apply list_lookup_insert_Some in Hl1 as [(<- & <- & _) | (_ & Hl1)];
      [| left; by exists i, a, j1, lib1].
    cbn in Hln1, Hp.
    assert (p0 ∈ lib_execs lib \/ p0 = file_path) as [Hold | ->].
    { destruct (existsb _ _); [by left |].
      destruct (exec_count lib <? MAX_EXECS); [| by left].
      apply elem_of_app in Hp as [? | ->%list_elem_of_singleton]; auto. }
    + left. by exists i, a, j, lib.
    + right. repeat split; congruence.
  - pose proof (find_name_lookup arch_name arch _ _ _ Hfa Ha) as Han.
    cbn. intros (i1 & a1 & j1 & lib1 & Ha1 & Han1 & Hl1 & Hln1 & Hp).
    apply list_lookup_insert_Some in Ha1 as [(<- & <- & _) | (_ & Ha1)];
      [| left; by exists i1, a1, j1, lib1].
    cbn in Han1, Hl1.
    apply lookup_app_Some in Hl1 as [Hl1 | (_ & Hl1)];
      [left; by exists i, a, j1, lib1 |].
    apply list_lookup_singleton_Some in Hl1 as [_ <-]. cbn in Hln1, Hp.
    apply list_elem_of_singleton in Hp as ->.
    rewrite strncpy_fits in Hln1 by done.
    right. repeat split; congruence.
  - cbn. intros (i1 & a1 & j1 & lib1 & Ha1 & Han1 & Hl1 & Hln1 & Hp).
    apply lookup_app_Some in Ha1 as [Ha1 | (_ & Ha1)];
      [left; by exists i1, a1, j1, lib1 |].
    apply list_lookup_singleton_Some in Ha1 as [_ <-]. cbn in Han1, Hl1.
    apply list_lookup_singleton_Some in Hl1 as [_ <-]. cbn in Hln1, Hp.
    apply list_elem_of_singleton in Hp as ->.
    rewrite strncpy_fits in Han1, Hln1 by done.
    right. repeat split; congruence.
Qed.

(** After a call its triple is listed, unless the list of the library is
    full. *)
Lemma record_lists_triple (arch name file_path : string) (w w' : World) :
  strlen arch <= 31 -> strlen name <= 255 ->
  record arch name file_path w = Ok tt w' ->
  lists w' arch name file_path \/ library_full w' arch name.
Proof.
  intros Harch Hname Hrec.
  pose proof (record_viewP arch name file_path w) as Hv.
  rewrite Hrec in Hv.
  inversion Hv as [i j a lib Hfa Ha Hi Hfl Hl Hj Hw
                  | i a Hfa Ha Hi Hfl Hc Hw | Hfa Hc Hw |]; clear Hv;
    subst w'; rewrite lists_lookup, library_full_lookup.
  - rewrite (add_executable_result_archs _ _ _ _ _ _ Ha Hl).
    pose proof (find_name_lookup arch_name arch _ _ _ Hfa Ha) as Han.
    pose proof (find_name_lookup lib_name name _ _ _ Hfl Hl) as Hln.
    pose proof (lookup_lt_Some _ _ _ Ha) as Hilt.
    pose proof (lookup_lt_Some _ _ _ Hl) as Hjlt.
    destruct (existsb _ (lib_execs lib)) eqn:Hex;
      [| destruct (exec_count lib <? MAX_EXECS) eqn:Hroom].
    + left. eexists i, _, j, _.
      split; [by apply list_lookup_insert_eq |]. split; [done |].
      split; [by apply list_lookup_insert_eq |]. split; [done |].
      cbn. by apply existsb_eqb_elem.
    + left. eexists i, _, j, _.
      split; [by apply list_lookup_insert_eq |]. split; [done |].
      split; [by apply list_lookup_insert_eq |]. split; [done |].
      cbn. apply elem_of_app. right. by apply list_elem_of_singleton.
    + right. eexists i, _, j, _.
      split; [by apply list_lookup_insert_eq |]. split; [done |].
      split; [by apply list_lookup_insert_eq |]. split; [done |].
      apply Z.ltb_ge in Hroom. by cbn.
  - pose proof (find_name_lookup arch_name arch _ _ _ Hfa Ha) as Han.
    pose proof (lookup_lt_Some _ _ _ Ha) as Hilt.
    left. cbn. eexists i, _, (List.length (arch_libraries a)), _.
    split; [by apply list_lookup_insert_eq |]. split; [done |].
    split; [cbn; by rewrite lookup_app_r, Nat.sub_diag |].
    split; [cbn; by apply strncpy_fits |].
    cbn. by apply list_elem_of_singleton.
  - left. cbn. eexists (List.length (archs w)), _, 0%nat, _.
    split; [by rewrite lookup_app_r, Nat.sub_diag |].
    split; [cbn; by apply strncpy_fits |].
    split; [done |]. split; [cbn; by apply strncpy_fits |].
    cbn. by apply list_elem_of_singleton.
Qed.

(** ** Search terms: the first match *)

(** The loop of [get_dependencies] up to the first term whose pattern
    occurs in the name. *)
Lemma match_terms_first (before after : list string) (term pattern : string)
    (arch name file_path : string) (w : World) :
  Forall (fun t => exists p, lib_pattern t = Some p /\ strstr name p = false)
    before ->
  lib_pattern term = Some pattern -> strstr name pattern = true ->
  match_terms (before ++ term :: after) arch name file_path w
  = record arch pattern file_path w.
Proof.
  intros Hbefore Hpat Hin.
  induction Hbefore as [|t before (p & Hp & Hno) _ IH]; simpl.
  - by rewrite Hpat, Hin.
  - by rewrite Hp, Hno.
Qed.

Lemma lib_pattern_defined (term : string) :
  strstr term ".so" = false \/ strlen term <= 255 -> is_Some (lib_pattern term).
Proof.
  unfold lib_pattern, strcpy. intros [-> | Hlen]; cbn [negb].
  - by destruct (negb _).
  - destruct (strstr term ".so"); cbn [negb]; [| by destruct (negb _)].
    by rewrite (proj2 (Z.ltb_lt _ _)) by lia.
Qed.

Lemma lib_pattern_cut (term pattern : string) :
  lib_pattern term = Some pattern ->
  pattern = String.substring 0 255 (normalize_spec term).
Proof.
  unfold lib_pattern, normalize_spec, strncmp_eq, strcpy.
  destruct (strstr term ".so"); cbn [negb].
  - destruct (strlen term <? 256) eqn:Hlen; [| done]. intros [= <-].
    apply Z.ltb_lt in Hlen. symmetry. apply substring_0_all.
    unfold strlen in Hlen. lia.
  - by destruct (String.prefix "lib" term); intros [= <-].
Qed.

(** C3, as the code has it.  [match_terms] goes through the search terms in
    the order supplied and stops at the first whose pattern occurs in the
    dependency name (containment, not equality): the loop is one [record]
    call, under that pattern.  When the call returns, the file is listed
    under that pattern for the architecture, unless the list of that library
    is full; what the store listed before is still listed; and nothing else
    is listed, so no later term that matches as well is used.  When no
    pattern occurs in the name the store is left as it was.  The terms up
    to the first match are terms that have a pattern: a term without
    [".so"] has one, a term with [".so"] has one when it has at most 255
    characters; and the pattern is the normal form of the term, cut to its
    first 255 characters. *)
Theorem match_terms_first_match (arch name file_path : string)
    (terms : list string) (w : World) :
  (forall before term after pattern,
      terms = before ++ term :: after ->
      Forall (fun t => exists p, lib_pattern t = Some p /\ strstr name p = false)
        before ->
      lib_pattern term = Some pattern ->
      strstr name pattern = true ->
      match_terms terms arch name file_path w
      = record arch pattern file_path w /\
      (arch ∈ architecture_tags ->
       forall w',
         match_terms terms arch name file_path w = Ok tt w' ->
         (lists w' arch pattern file_path \/ library_full w' arch pattern) /\
         (forall a n p, lists w a n p -> lists w' a n p) /\
         (forall a n p,
             lists w' a n p ->
             lists w a n p \/ (a = arch /\ n = pattern /\ p = file_path)))) /\
  (Forall (fun t => exists p, lib_pattern t = Some p /\ strstr name p = false)
     terms ->
   match_terms terms arch name file_path w = Ok tt w) /\
  (forall term,
      strstr term ".so" = false \/ strlen term <= 255 ->
      is_Some (lib_pattern term)) /\
  (forall term pattern,
      lib_pattern term = Some pattern ->
      pattern = String.substring 0 255 (normalize_spec term)).
Proof.
  split; [| split; [| split; [exact lib_pattern_defined
                              | exact lib_pattern_cut]]].
  - intros before term after pattern -> Hbefore Hpat Hin.
    pose proof (match_terms_first before after term pattern arch name
                  file_path w Hbefore Hpat Hin) as Heq.
    split; [exact Heq |]. rewrite Heq. intros Htag%architecture_tag_fits w' Hrec.
    assert (strlen pattern <= 255) as Hfit
      by (apply lib_pattern_Some in Hpat; lia).
    split; [by apply (record_lists_triple arch pattern file_path w) |].
    split; [by apply (record_keeps_listed arch pattern file_path w) |].
    by apply (record_lists_new arch pattern file_path w).
  - induction 1 as [|t terms' (p & Hp & Hno) _ IH]; simpl; [done |].
    by rewrite Hp, Hno.
Qed.

Lemma match_terms_first_match_witness :
  exists w',
    match_terms ["m"; "c"; "libc.so.6"] "x86_64" "libc.so.6" "/bin/a"
      initial_world = Ok tt w' /\
    (lists w' "x86_64" "libc.so" "/bin/a"
     \/ library_full w' "x86_64" "libc.so") /\
    forall a n p,
      lists w' a n p ->
      lists initial_world a n p
      \/ (a = "x86_64" /\ n = "libc.so" /\ p = "/bin/a").
Proof.
  eexists. split; [reflexivity |].
  destruct (proj1 (match_terms_first_match "x86_64" "libc.so.6" "/bin/a"
                     ["m"; "c"; "libc.so.6"] initial_world)
              ["m"] "c" ["libc.so.6"] "libc.so" eq_refl) as [_ Hlists].
  - constructor; [| constructor]. exists "libm.so". split; reflexivity.
  - reflexivity.
  - reflexivity.
  - destruct (Hlists (list_elem_of_here _ _) _ eq_refl) as (Hnew & _ & Honly).
    split; [exact Hnew | exact Honly].
Defined.

(** C3 as stated fails for long terms.  The canonical form of [long_term]
    has 256 characters and does not occur in the 255-character dependency
    name [cut_name], but the pattern, cut to 255 characters, is that name,
    and the file is recorded.  And a term of 256 characters with [".so"] in
    it has no pattern: [strcpy] writes past [lib_pattern], and the term
    ["c"] after it, whose canonical form occurs in ["libc.so.6"], is not
    reached. *)
Lemma match_terms_long_terms :
  normalize_spec long_term = "lib" +:+ long_term +:+ ".so" /\
  strstr cut_name (normalize_spec long_term) = false /\
  needed_name (" 0x01 (NEEDED)   Shared library: [" +:+ cut_name +:+ "]")
  = Some (Some cut_name) /\
  match_terms [long_term] "x86_64" cut_name "/bin/a" initial_world
  = Ok tt (mkWorld [mkArchitecture "x86_64" [mkLibrary cut_name ["/bin/a"]]]
             1 [] []) /\
  strlen overlong_term = 256 /\
  strstr "libc.so.6" (normalize_spec overlong_term) = false /\
  strstr "libc.so.6" (normalize_spec "c") = true /\
  match_terms [overlong_term; "c"] "x86_64" "libc.so.6" "/bin/a" initial_world
  = Fault Obj_lib_pattern.
Proof. repeat split; vm_compute; reflexivity. Qed.

(** The match is by containment: ["libc.so"] is not ["libc.so.6"], and the
    second and third term, which match as well, leave no trace. *)
Example match_terms_substring :
  match_terms ["c"; "libc.so.6"; "so"] "x86_64" "libc.so.6" "/bin/a"
    initial_world
  = Ok tt (mkWorld [mkArchitecture "x86_64" [mkLibrary "libc.so" ["/bin/a"]]]
             1 [] []).
Proof. reflexivity. Qed.

(** ** The pairs of the store *)

(** With unique names, what the store lists under the names of a library is
    the list of that library. *)
Lemma lists_library (w : World) (i j : nat) (a : Architecture) (lib : Library) :
  data_model_invariants w ->
  archs w !! i = Some a -> arch_libraries a !! j = Some lib ->
  (forall p, lists w (arch_name a) (lib_name lib) p <-> p ∈ lib_execs lib) /\
  (library_full w (arch_name a) (lib_name lib) <-> MAX_EXECS <= exec_count lib).
Proof.
  intros [Hnd Hall] Ha Hl.
  destruct (proj1 (Forall_lookup _ _) Hall i a Ha) as [Hndl _].
  assert (forall i' a' j' lib',
             archs w !! i' = Some a' -> arch_name a' = arch_name a ->
             arch_libraries a' !! j' = Some lib' -> lib_name lib' = lib_name lib ->
             lib' = lib) as Hsame.
  { intros i' a' j' lib' Ha' Han Hl' Hln.
    assert (i = i') as <-
        by (by apply (names_unique arch_name (archs w) i i' a a')).
    assert (a' = a) as -> by congruence.
    assert (j = j') as <-
        by (by apply (names_unique lib_name (arch_libraries a) j j' lib lib')).
    congruence. }
  split.
  - intros p. rewrite lists_lookup. split.
    + intros (i' & a' & j' & lib' & Ha' & Han & Hl' & Hln & Hp).
      by rewrite <- (Hsame i' a' j' lib').
    + intros Hp. by exists i, a, j, lib.
  - rewrite library_full_lookup. split.
    + intros (i' & a' & j' & lib' & Ha' & Han & Hl' & Hln & Hp).
      by rewrite <- (Hsame i' a' j' lib').
    + intros Hp. by exists i, a, j, lib.
Qed.

Section RecordStep.

Context (arch name file_path : string).
Context (Harch : strlen arch <= 31) (Hname : strlen name <= 255).

(** [record] keeps the names unique and the lists free of repetitions. *)
Lemma record_preserves_model :
  preserves data_model_invariants (record arch name file_path).
Proof.
  intros w [] w' [Hnd Hall] Hrec.
  pose proof (record_viewP arch name file_path w) as Hv.
  rewrite Hrec in Hv.
  inversion Hv as [i j a lib Hfa Ha Hi Hfl Hl Hj Hw
                  | i a Hfa Ha Hi Hfl Hc Hw | Hfa Hc Hw |]; clear Hv;
    subst w'; unfold data_model_invariants.
  - rewrite (add_executable_result_archs _ _ _ _ _ _ Ha Hl).
    destruct (proj1 (Forall_lookup _ _) Hall i a Ha) as [Hndl Hexecs].
    split; [by rewrite (names_insert arch_name _ _ a) |].
    apply Forall_insert; [done |]. cbn. split.
    + by rewrite (names_insert lib_name _ _ lib).
    + apply Forall_insert; [done |]. cbn.
      pose proof (proj1 (Forall_lookup _ _) Hexecs j lib Hl) as Hndp.
      destruct (existsb _ _) eqn:Hex; [done |].
      destruct (exec_count lib <? MAX_EXECS); [| done].
      apply NoDup_app. split; [done |]. split; [| apply NoDup_singleton].
      intros p Hp ->%list_elem_of_singleton.
      apply existsb_eqb_elem in Hp. congruence.
  - cbn. destruct (proj1 (Forall_lookup _ _) Hall i a Ha) as [Hndl Hexecs].
    split; [by rewrite (names_insert arch_name _ _ a) |].
    apply Forall_insert; [done |]. cbn. rewrite strncpy_fits by done. split.
    + by apply (names_snoc lib_name _ name).
    + apply Forall_app. split; [done |]. constructor; [| done].
      apply NoDup_singleton.
  - cbn. rewrite !strncpy_fits by done. split.
    + by apply (names_snoc arch_name _ arch).
    + apply Forall_app. split; [done |]. constructor; [| done]. cbn.
      split; [apply NoDup_singleton |]. constructor; [| done].
      apply NoDup_singleton.
Qed.

(** What one [record] call does to the counter: nothing when the pair is
    listed, one more when it is new and its list has room, nothing when the
    list is full. *)
Lemma record_step (w w' : World) :
  data_model_invariants w ->
  record arch name file_path w = Ok tt w' ->
  (lists w arch name file_path ->
   total_execs w' = total_execs w /\ archs w' = archs w) /\
  (~ lists w arch name file_path -> ~ library_full w arch name ->
   total_execs w' = total_execs w + 1 /\ lists w' arch name file_path) /\
  (~ lists w arch name file_path -> library_full w arch name ->
   total_execs w' = total_execs w /\ archs w' = archs w).
Proof.
  intros Hmodel Hrec.
  pose proof (record_viewP arch name file_path w) as Hv.
  rewrite Hrec in Hv.
  inversion Hv as [i j a lib Hfa Ha Hi Hfl Hl Hj Hw
                  | i a Hfa Ha Hi Hfl Hc Hw | Hfa Hc Hw |]; clear Hv;
    subst w'.
  - pose proof (find_name_lookup arch_name arch _ _ _ Hfa Ha) as Han.
    pose proof (find_name_lookup lib_name name _ _ _ Hfl Hl) as Hln.
    pose proof (lookup_lt_Some _ _ _ Ha) as Hilt.
    pose proof (lookup_lt_Some _ _ _ Hl) as Hjlt.
    destruct (lists_library w i j a lib Hmodel Ha Hl) as [Hlisted Hfull].
    rewrite Han, Hln in Hlisted, Hfull.
    rewrite Hfull, (Hlisted file_path).
    unfold add_executable_result.
    destruct (existsb _ (lib_execs lib)) eqn:Hex.
    { apply existsb_eqb_elem in Hex. split; [done |]. split; by intros []. }
    assert (file_path ∉ lib_execs lib) as Hnew
      by (intros Hin%existsb_eqb_elem; congruence).
    split; [done |].
    destruct (exec_count lib <? MAX_EXECS) eqn:Hroom.
    + apply Z.ltb_lt in Hroom. split; [| intros _ ?; lia].
      intros _ _. split; [done |]. apply lists_lookup. cbn.
      eexists i, _, j, _.
      split; [by apply list_lookup_insert_eq |]. split; [done |].
      split; [by apply list_lookup_insert_eq |]. split; [done |].
      cbn. apply elem_of_app. right. by apply list_elem_of_singleton.
    + apply Z.ltb_ge in Hroom. split; [by intros _ [] | done].
  - pose proof (find_name_lookup arch_name arch _ _ _ Hfa Ha) as Han.
    pose proof (lookup_lt_Some _ _ _ Ha) as Hilt.
    destruct Hmodel as [Hnd _].
    assert (forall i' a' j' lib',
               archs w !! i' = Some a' -> arch_name a' = arch ->
               arch_libraries a' !! j' = Some lib' -> lib_name lib' <> name)
      as Hfresh.
    { intros i' a' j' lib' Ha' Han' Hl'.
      assert (i = i') as <-
          by (apply (names_unique arch_name (archs w) i i' a a'); congruence).
      assert (a' = a) as -> by congruence.
      by apply (find_name_None_lookup lib_name name (arch_libraries a) j' lib'). }
    split; [| split].
    + intros (i' & a' & j' & lib' & Ha' & Han' & Hl' & Hln' & _)%lists_lookup.
      by destruct (Hfresh i' a' j' lib').
    + intros _ _. split; [done |]. apply lists_lookup. cbn.
      eexists i, _, (List.length (arch_libraries a)), _.
      split; [by apply list_lookup_insert_eq |]. split; [done |].
      split; [cbn; by rewrite lookup_app_r, Nat.sub_diag |].
      split; [cbn; by apply strncpy_fits |].
      cbn. by apply list_elem_of_singleton.
    + intros _ (i' & a' & j' & lib' & Ha' & Han' & Hl' & Hln' & _)
               %library_full_lookup.
      by destruct (Hfresh i' a' j' lib').
  - assert (forall i' a', archs w !! i' = Some a' -> arch_name a' <> arch)
      as Hfresh
      by (intros i' a'; by apply (find_name_None_lookup arch_name arch (archs w))).
    split; [| split].
    + intros (i' & a' & j' & lib' & Ha' & Han' & _)%lists_lookup.
      by destruct (Hfresh i' a').
    + intros _ _. split; [done |]. apply lists_lookup. cbn.
      eexists (List.length (archs w)), _, 0%nat, _.
      split; [by rewrite lookup_app_r, Nat.sub_diag |].
      split; [cbn; by apply strncpy_fits |].
      split; [done |]. split; [cbn; by apply strncpy_fits |].
      cbn. by apply list_elem_of_singleton.
    + intros _ (i' & a' & j' & lib' & Ha' & Han' & _)%library_full_lookup.
      by destruct (Hfresh i' a').
Qed.

End RecordStep.

(** [add_executable] looks for the path before it appends it: a list
    without repetitions stays one, whatever the names of the call. *)
Lemma record_preserves_sets (arch name file_path : string) :
  preserves lists_are_sets (record arch name file_path).
Proof.
  intros w [] w' Hall Hrec.
  pose proof (record_viewP arch name file_path w) as Hv.
  rewrite Hrec in Hv.
  inversion Hv as [i j a lib Hfa Ha Hi Hfl Hl Hj Hw
                  | i a Hfa Ha Hi Hfl Hc Hw | Hfa Hc Hw |]; clear Hv;
    subst w'; unfold lists_are_sets.
  - rewrite (add_executable_result_archs _ _ _ _ _ _ Ha Hl).
    pose proof (proj1 (Forall_lookup _ _) Hall i a Ha) as Hexecs.
    apply Forall_insert; [done |]. cbn.
    apply Forall_insert; [done |]. cbn.
    pose proof (proj1 (Forall_lookup _ _) Hexecs j lib Hl) as Hndp.
    destruct (existsb _ _) eqn:Hex; [done |].
    destruct (exec_count lib <? MAX_EXECS); [| done].
    apply NoDup_app. split; [done |]. split; [| apply NoDup_singleton].
    intros p Hp ->%list_elem_of_singleton.
    apply existsb_eqb_elem in Hp. congruence.
  - cbn. pose proof (proj1 (Forall_lookup _ _) Hall i a Ha) as Hexecs.
    apply Forall_insert; [done |]. cbn.
    apply Forall_app. split; [done |]. constructor; [| done].
    apply NoDup_singleton.
  - cbn. apply Forall_app. split; [done |]. constructor; [| done]. cbn.
    constructor; [| done]. apply NoDup_singleton.
Qed.

Lemma reports_preserve_model {Q : Qsort} (w w' : World) :
  archs w' = archs w \/ archs w' = map sort_libraries (archs w) ->
  data_model_invariants w -> data_model_invariants w'.
Proof.
  unfold data_model_invariants. intros [-> | ->]; [done |].
  intros [Hnd Hall]. split.
  - replace (arch_name <$> map sort_libraries (archs w))
      with (arch_name <$> archs w); [done |].
    clear. induction (archs w) as [|a l IH]; [done |]. cbn. by rewrite IH.
  - apply Forall_map. eapply Forall_impl; [exact Hall |].
    intros a [Hndl Hexecs]. cbn.
    pose proof (qsort_Permutation compare_libraries (arch_libraries a)) as Hp.
    split; [by rewrite Hp | by rewrite Hp].
Qed.

(** C6.  [total_execs] is the number of (library, executable) pairs in the
    store, where no library lists a path twice, so that the length of a list
    is the size of a set: both hold at the start and are kept by every
    [record] call, by the whole walk, and by both report generators.  With
    the names of the walk (an architecture tag, the pattern of a search
    term) [record] also keeps the names unique, and it moves the counter by
    the number of pairs it adds: by nothing when the pair is listed
    already, by one when the pair is new and is added, by nothing when the
    pair is new and dropped because the list is full.  An executable
    recorded under two libraries counts once in each. *)
Theorem total_execs_counts_pairs :
  (counter_invariant initial_world /\ lists_are_sets initial_world /\
   data_model_invariants initial_world) /\
  (forall arch name file_path w w',
      record arch name file_path w = Ok tt w' ->
      (counter_invariant w -> counter_invariant w') /\
      (lists_are_sets w -> lists_are_sets w') /\
      total_execs w' - total_execs w = stored_pairs w' - stored_pairs w /\
      (total_execs w' = total_execs w \/ total_execs w' = total_execs w + 1)) /\
  (forall arch term name file_path w w',
      arch ∈ architecture_tags -> lib_pattern term = Some name ->
      data_model_invariants w -> record arch name file_path w = Ok tt w' ->
      data_model_invariants w' /\
      (lists w arch name file_path ->
       total_execs w' = total_execs w /\ archs w' = archs w) /\
      (~ lists w arch name file_path -> ~ library_full w arch name ->
       total_execs w' = total_execs w + 1 /\ lists w' arch name file_path) /\
      (~ lists w arch name file_path -> library_full w arch name ->
       total_execs w' = total_execs w /\ archs w' = archs w)) /\
  (forall E fuel dir_path options w w',
      scan_directory E fuel dir_path options w = Some (Ok tt w') ->
      (counter_invariant w -> counter_invariant w') /\
      (data_model_invariants w -> data_model_invariants w')) /\
  (forall E (Q : Qsort) options w w',
      generate_txt_report E options w = Ok tt w'
      \/ generate_pdf_report E options w = Ok tt w' ->
      (counter_invariant w -> counter_invariant w') /\
      (data_model_invariants w -> data_model_invariants w')) /\
  (exists w,
      (record "x86_64" "libc.so" "/bin/b" >> record "x86_64" "libm.so" "/bin/b")
        initial_world = Ok tt w /\
      total_execs w = 2 /\
      map (fun a => map exec_count (arch_libraries a)) (archs w) = [[1; 1]]).
Proof.
  assert (forall arch term name,
             arch ∈ architecture_tags -> lib_pattern term = Some name ->
             strlen arch <= 31 /\ strlen name <= 255) as Hfit.
  { intros arch term name Harch%architecture_tag_fits Hname%lib_pattern_Some.
    lia. }
  split.
  { split; [done |]. split; [constructor |].
    split; [apply NoDup_nil_2 | constructor]. }
  split; [| split; [| split; [| split]]].
  - intros arch name file_path w w' Hrec.
    split; [intros Hinv;
            by apply (record_preserves_counter _ _ _ _ _ _ Hinv Hrec) |].
    split; [intros Hsets;
            by apply (record_preserves_sets _ _ _ _ _ _ Hsets Hrec) |].
    by apply (record_counter arch name file_path).
  - intros arch term name file_path w w' Harch Hname Hmodel Hrec.
    destruct (Hfit arch term name Harch Hname) as [Ha Hn].
    split; [by apply (record_preserves_model arch name file_path Ha Hn w tt) |].
    by apply record_step.
  - intros E fuel dir_path options w w' Hscan. split; intros Hinv.
    + apply (scan_directory_preserves E counter_invariant)
        with fuel dir_path options w; [| | done | done].
      * intros arch term name file_path _ _. apply record_preserves_counter.
      * apply eprint_preserves_counter.
    + apply (scan_directory_preserves E data_model_invariants)
        with fuel dir_path options w; [| done | done | done].
      intros arch term name file_path Harch Hname.
      destruct (Hfit arch term name Harch Hname) as [Ha Hn].
      by apply record_preserves_model.
  - intros E Q options w w' Hr.
    assert (total_execs w' = total_execs w /\
            (archs w' = archs w \/ archs w' = map sort_libraries (archs w)))
      as [Ht Ha].
    { destruct Hr as [Hr | Hr];
        [by apply (generate_txt_report_archs E options)
        | by apply (generate_pdf_report_archs E options)]. }
    split; [by apply (reports_preserve_counter E w w') |].
    by apply reports_preserve_model.
  - eexists. repeat split.
Qed.

(** [/bin/b] a second time under libc.so: the pair is listed, and the
    counter stays. *)
Lemma total_execs_counts_pairs_witness :
  exists w',
    record "x86_64" "libc.so" "/bin/b"
      (mkWorld [mkArchitecture "x86_64" [mkLibrary "libc.so" ["/bin/a"; "/bin/b"]]]
         2 [] []) = Ok tt w' /\
    data_model_invariants w' /\ total_execs w' = 2.
Proof.
  assert (data_model_invariants
            (mkWorld [mkArchitecture "x86_64"
                        [mkLibrary "libc.so" ["/bin/a"; "/bin/b"]]] 2 [] []))
    as Hbefore.
  { split; [apply NoDup_singleton |]. constructor; [| constructor].
    split; [apply NoDup_singleton |]. constructor; [| constructor].
    apply NoDup_cons. split; [| apply NoDup_singleton].
    intros Hin%list_elem_of_singleton. discriminate Hin. }
  eexists. split; [reflexivity |].
  destruct (proj1 (proj2 (proj2 total_execs_counts_pairs))
              "x86_64" "c" "libc.so" "/bin/b" _ _
              (list_elem_of_here _ _) eq_refl Hbefore eq_refl)
    as (Hmodel & Hlisted & _).
  split; [exact Hmodel |]. apply Hlisted.
  exists (mkArchitecture "x86_64" [mkLibrary "libc.so" ["/bin/a"; "/bin/b"]]),
    (mkLibrary "libc.so" ["/bin/a"; "/bin/b"]).
  repeat split; try apply list_elem_of_here.
  apply list_elem_of_further, list_elem_of_here.
Defined.

(** ** Outcomes of the walk *)

Lemma walked_snoc (E : Env) (root dir_path sub : string) :
  walked E root dir_path -> real_subdirectory E dir_path sub ->
  walked E root sub.
Proof.
  induction 1 as [d | d s t Hsub _ IH]; intros Hlast.
  - apply walked_below with sub; [done | constructor].
  - apply walked_below with s; [done | by apply IH].
Qed.

Lemma S_ISDIR_true (t : file_type) : S_ISDIR t = true -> t = S_IFDIR.
Proof. by destruct t. Qed.

Lemma S_ISREG_true (t : file_type) : S_ISREG t = true -> t = S_IFREG.
Proof. by destruct t. Qed.

Lemma dot_entries (d_name : string) :
  String.eqb d_name "." || String.eqb d_name ".." = false ->
  d_name <> "." /\ d_name <> "..".
Proof.
  intros [Hdot Hdotdot]%orb_false_iff.
  by apply String.eqb_neq in Hdot, Hdotdot.
Qed.

Section WalkOutcome.

Context (E : Env) (options : Options) (root : string).
Context (P : World -> Prop) (allowed : object -> Prop).
(** [P] is kept by the calls the walk makes and by its diagnostics, and the
    accesses outside [lib_pattern] and [lib_name] that can happen are
    admitted. *)
Context (Hrecord : forall arch name file_path w,
            P w -> justified E options root arch name file_path ->
            outcome P allowed (record arch name file_path w)).
Context (Hopendir : forall w dir_path,
            P w -> P (eprint w ("Cannot open directory: " +:+ dir_path))).
Context (Hpopen : forall w file_path,
            P w -> P (eprint w ("Failed to run readelf on " +:+ file_path))).
Context (Hpattern : forall term,
            term ∈ libs options -> lib_pattern term = None ->
            allowed Obj_lib_pattern).
Context (Hname : forall file_path lines line,
            popen_readelf_d E file_path = Some lines -> line ∈ lines ->
            strstr line "(NEEDED)" = true -> needed_name line = Some None ->
            allowed Obj_lib_name).

Lemma match_terms_outcome (before terms : list string)
    (file_path dep : string) (w : World) :
  libs options = before ++ terms ->
  Forall (fun t => exists p, lib_pattern t = Some p /\ strstr dep p = false)
    before ->
  scanned E root file_path -> is_executable E file_path = true ->
  get_architecture E file_path <> "unknown" ->
  needs E file_path dep -> P w ->
  outcome P allowed
    (match_terms terms (get_architecture E file_path) dep file_path w).
Proof.
  intros Hterms Hbefore Hscan Hexec Hknown Hneeds. revert before Hterms Hbefore w.
  induction terms as [|t terms IH]; intros before Hterms Hbefore w HP;
    cbn [match_terms]; [done |].
  destruct (lib_pattern t) as [pattern|] eqn:Hpat.
  - destruct (strstr dep pattern) eqn:Hin.
    + apply Hrecord; [done |]. repeat split; try done.
      exists dep. split; [done |]. by exists before, t, terms.
    + apply (IH (before ++ [t])); [by rewrite <- app_assoc | | done].
      apply Forall_app. split; [done |]. constructor; [| done]. by exists pattern.
  - apply (Hpattern t); [| done].
    rewrite Hterms. apply elem_of_app. right. left.
Qed.

Lemma needed_lines_outcome (all lines : list string) (file_path : string)
    (w : World) :
  popen_readelf_d E file_path = Some all ->
  (forall line, line ∈ lines -> line ∈ all) ->
  scanned E root file_path -> is_executable E file_path = true ->
  get_architecture E file_path <> "unknown" -> P w ->
  outcome P allowed
    (needed_lines lines (libs options) (get_architecture E file_path)
       file_path w).
Proof.
  intros Hall Hsub Hscan Hexec Hknown. revert w Hsub.
  induction lines as [|line lines IH]; intros w Hsub HP; cbn [needed_lines];
    [done |].
  assert (forall v, P v ->
             outcome P allowed
               (needed_lines lines (libs options)
                  (get_architecture E file_path) file_path v)) as Hrest.
  { intros v Hv. apply IH; [| done]. intros l Hl. apply Hsub. by right. }
  destruct (strstr line "(NEEDED)") eqn:Hneeded; [| by apply Hrest].
  destruct (needed_name line) as [[dep|]|] eqn:Hdep; [| | by apply Hrest].
  - unfold bind.
    assert (needs E file_path dep) as Hneeds.
    { exists all, line. repeat split; try done. apply Hsub. left. }
    pose proof (match_terms_outcome [] (libs options) file_path dep w eq_refl
                  (Forall_nil_2 _) Hscan Hexec Hknown Hneeds HP) as Hm.
    destruct (match_terms _ _ dep file_path w) as [[] w1| |]; [| done ..].
    by apply Hrest.
  - apply (Hname file_path all line); try done. apply Hsub. left.
Qed.

Lemma scan_file_outcome (path : string) (w : World) :
  scanned E root path -> P w ->
  outcome P allowed (scan_file E path options w).
Proof.
  intros Hscan HP. unfold scan_file.
  destruct (is_executable E path) eqn:Hexec; [| done].
  destruct (String.eqb_spec (get_architecture E path) "unknown") as [|Hknown];
    [done |].
  cbn [negb]. unfold get_dependencies.
  destruct (popen_readelf_d E path) as [lines|] eqn:Hlines.
  - by apply (needed_lines_outcome lines lines).
  - by apply Hpopen.
Qed.

Lemma scan_entries_outcome
    (descend : string -> World -> option (result unit))
    (dir_path : string) (all entries : list string) (w : World)
    (r : result unit) :
  (forall path v r',
      walked E root path -> P v -> descend path v = Some r' ->
      outcome P allowed r') ->
  walked E root dir_path -> opendir E dir_path = Some all ->
  (forall d_name, d_name ∈ entries -> d_name ∈ all) ->
  P w ->
  scan_entries E descend dir_path entries options w = Some r ->
  outcome P allowed r.
Proof.
  intros Hdesc Hwalk Hopen. revert w.
  induction entries as [|d_name entries IH]; intros w Hsub HP;
    cbn [scan_entries]; [by intros [= <-] |].
  assert (forall v, P v ->
             scan_entries E descend dir_path entries options v = Some r ->
             outcome P allowed r) as Hrest.
  { intros v Hv. apply IH; [| done]. intros d Hd. apply Hsub. by right. }
  destruct (String.eqb d_name "." || String.eqb d_name "..") eqn:Hdots;
    [by apply Hrest |].
  apply dot_entries in Hdots as [Hdot Hdotdot].
  destruct (lstat E (entry_path dir_path d_name)) as [t|] eqn:Hstat;
    [| by apply Hrest].
  destruct (S_ISDIR t) eqn:Hdir.
  - apply S_ISDIR_true in Hdir as ->.
    assert (walked E root (entry_path dir_path d_name)) as Hsubdir.
    { apply walked_snoc with dir_path; [done |].
      exists all, d_name. repeat split; try done. apply Hsub. left. }
    destruct (descend (entry_path dir_path d_name) w) as [r1|] eqn:Hd;
      [| done].
    pose proof (Hdesc _ _ _ Hsubdir HP Hd) as Hr1.
    destruct r1 as [[] w1| |]; [by apply Hrest | by intros [= <-] ..].
  - destruct (S_ISREG t) eqn:Hreg; [| by apply Hrest].
    apply S_ISREG_true in Hreg as ->.
    assert (scanned E root (entry_path dir_path d_name)) as Hscan.
    { exists dir_path, all, d_name. repeat split; try done. apply Hsub. left. }
    pose proof (scan_file_outcome _ w Hscan HP) as Hr1.
    destruct (scan_file E _ options w) as [[] w1| |];
      [by apply Hrest | by intros [= <-] ..].
Qed.

Lemma scan_directory_outcome_from (fuel : nat) (dir_path : string)
    (w : World) (r : result unit) :
  walked E root dir_path -> P w ->
  scan_directory E fuel dir_path options w = Some r ->
  outcome P allowed r.
Proof.
  revert dir_path w r.
  induction fuel as [|fuel IH]; intros dir_path w r Hwalk HP; [done |].
  cbn [scan_directory].
  destruct (opendir E dir_path) as [entries|] eqn:Hopen.
  - apply (scan_entries_outcome _ dir_path entries entries); try done.
  - intros [= <-]. by apply Hopendir.
Qed.

Lemma scan_directory_outcome (fuel : nat) (w : World) (r : result unit) :
  P w -> scan_directory E fuel root options w = Some r -> outcome P allowed r.
Proof. apply scan_directory_outcome_from. constructor. Qed.

End WalkOutcome.

(** ** Symbolic links and termination *)

Section WalkBelow.

Context (E : Env) (options : Options).


End WalkBelow.


Lemma loop_rank_decreases (d p : string) :
  real_subdirectory loop_env d p -> (loop_rank p < loop_rank d)%nat.
Proof.
  intros (entries & d_name & Hopen & Hin & Hdot & Hdotdot & -> & Hstat).
  cbn in Hopen.
  destruct (String.eqb_spec d "/r") as [-> | _];
    [| destruct (String.eqb_spec d "/r/back") as [-> | _];
       [| destruct (String.eqb_spec d "/r/bin") as [-> | _];
          [| destruct (String.eqb_spec d "/r/back/bin") as [-> | _]]]];
    cbn in Hopen; try discriminate Hopen; injection Hopen as <-;
    repeat (apply elem_of_cons in Hin as [-> | Hin]); try done;
    try (by apply elem_of_nil in Hin);
    try (vm_compute in Hstat; discriminate Hstat);
    vm_compute; lia.
Qed.


(** ** A path of MAX_PATH - 1 characters *)


Section CutPath.

Context (E : Env) (options : Options) (dir_path : string).
Context (Hlen : strlen dir_path = MAX_PATH - 1).
Context (Hdir : lstat E dir_path = Some S_IFDIR).



End CutPath.






(** ** What the walk lists *)

Lemma justified_fits (E : Env) (options : Options)
    (root arch name file_path : string) :
  justified E options root arch name file_path ->
  arch ∈ architecture_tags /\ strlen arch <= 31 /\ strlen name <= 255.
Proof.
  intros (_ & _ & <- & Hknown & dep & _ & before & term & after & _ & Hpat & _).
  assert (get_architecture E file_path ∈ architecture_tags) as Htag
    by (by destruct (get_architecture_tag E file_path)).
  split; [done |]. split; [by apply architecture_tag_fits |].
  apply lib_pattern_Some in Hpat. lia.
Qed.

Lemma match_terms_attributed (terms : list string)
    (arch dep name file_path : string) (w : World) :
  attributed terms dep name ->
  match_terms terms arch dep file_path w = record arch name file_path w.
Proof.
  intros (before & term & after & -> & Hpat & Hin & Hbefore).
  induction Hbefore as [|t before (p & Hp & Hno) _ IH]; cbn [app match_terms].
  - by rewrite Hpat, Hin.
  - by rewrite Hp, Hno.
Qed.

Section WalkLists.

Context (E : Env) (options : Options).
Context (arch name file_path dep : string).
Context (Hexec : is_executable E file_path = true).
Context (Harch : get_architecture E file_path = arch).
Context (Hknown : arch <> "unknown").
Context (Hneeds : needs E file_path dep).
Context (Hattr : attributed (libs options) dep name).

Lemma listed_or_full_record (arch' name' file_path' : string) :
  preserves (listed_or_full arch name file_path) (record arch' name' file_path').
Proof.
  intros w [] w' HQ Hrec.
  destruct (record_keeps_listed _ _ _ _ _ Hrec) as [Hlists Hfull].
  destruct HQ as [Hl | Hf]; [left; by apply Hlists | right; by apply Hfull].
Qed.

Lemma listed_or_full_scan_file (path : string) :
  preserves (listed_or_full arch name file_path) (scan_file E path options).
Proof.
  apply scan_file_preserves; [| done].
  intros arch' term name' path' _ _. apply listed_or_full_record.
Qed.

Lemma needed_lines_lists (lines : list string) (line : string) (w w' : World) :
  line ∈ lines -> strstr line "(NEEDED)" = true ->
  needed_name line = Some (Some dep) ->
  needed_lines lines (libs options) arch file_path w = Ok tt w' -> listed_or_full arch name file_path w'.
Proof.
  assert (arch ∈ architecture_tags) as Htag.
  { rewrite <- Harch in *. by destruct (get_architecture_tag E file_path). }
  assert (forall rest v v',
             listed_or_full arch name file_path v -> needed_lines rest (libs options) arch file_path v = Ok tt v' ->
             listed_or_full arch name file_path v') as Hkeep.
  { intros rest v v' HQ Hrest.
    apply (needed_lines_preserves (listed_or_full arch name file_path)) with rest (libs options) arch file_path v tt;
      try done.
    intros arch' term name' path' _ _. apply listed_or_full_record. }
  intros Hin Hneeded Hdep. revert w.
  induction lines as [|l lines IH]; intros w; [by apply elem_of_nil in Hin |].
  apply elem_of_cons in Hin as [<- | Hin].
  - cbn [needed_lines]. rewrite Hneeded, Hdep. unfold bind.
    rewrite (match_terms_attributed _ _ _ _ _ _ Hattr).
    destruct (record arch name file_path w) as [[] w1| |] eqn:Hrec; [| done ..].
    apply Hkeep.
    destruct Hattr as (before & term & after & _ & Hpat & _).
    apply (record_lists_triple _ _ _ _ _) in Hrec; [done | |].
    + by apply architecture_tag_fits.
    + apply lib_pattern_Some in Hpat. lia.
  - specialize (IH Hin). cbn [needed_lines].
    destruct (strstr l "(NEEDED)"); [| apply IH].
    destruct (needed_name l) as [[dep'|]|]; [| done | apply IH].
    unfold bind.
    destruct (match_terms _ _ dep' file_path w) as [[] w1| |]; [| done ..].
    apply IH.
Qed.

Lemma scan_file_lists (w w' : World) :
  scan_file E file_path options w = Ok tt w' -> listed_or_full arch name file_path w'.
Proof.
  unfold scan_file. rewrite Hexec, Harch.
  rewrite (proj2 (String.eqb_neq _ _) Hknown). cbn [negb].
  destruct Hneeds as (lines & line & Hlines & Hin & Hneeded & Hdep).
  unfold get_dependencies. rewrite Hlines.
  by apply needed_lines_lists with line.
Qed.

Lemma scan_entries_lists
    (descend : string -> World -> option (result unit))
    (dir_path : string) (entries : list string) (w w' : World) :
  (forall sub v v',
      descend sub v = Some (Ok tt v') -> listed_or_full arch name file_path v \/ scanned E sub file_path -> listed_or_full arch name file_path v') ->
  scan_entries E descend dir_path entries options w = Some (Ok tt w') ->
  listed_or_full arch name file_path w \/
  (exists d_name,
      d_name ∈ entries /\ d_name <> "." /\ d_name <> ".." /\
      (file_path = entry_path dir_path d_name /\
       lstat E file_path = Some S_IFREG
       \/ lstat E (entry_path dir_path d_name) = Some S_IFDIR /\
          scanned E (entry_path dir_path d_name) file_path)) ->
  listed_or_full arch name file_path w'.
Proof.
  intros Hdesc. revert w.
  induction entries as [|d entries IH]; intros w; cbn [scan_entries].
  { intros [= <-] [HQ | (d & Hin & _)]; [done | by apply elem_of_nil in Hin]. }
  intros Hscan Hcases.
  (* what remains to be shown after the first entry has been dealt with *)
  assert (forall v,
             scan_entries E descend dir_path entries options v = Some (Ok tt w') ->
             (listed_or_full arch name file_path w -> listed_or_full arch name file_path v) ->
             (forall d_name,
                 d_name = d -> d_name <> "." -> d_name <> ".." ->
                 file_path = entry_path dir_path d_name /\
                 lstat E file_path = Some S_IFREG
                 \/ lstat E (entry_path dir_path d_name) = Some S_IFDIR /\
                    scanned E (entry_path dir_path d_name) file_path ->
                 listed_or_full arch name file_path v) ->
             listed_or_full arch name file_path w') as Hrest.
  { intros v Hv Hmono Hhead. apply (IH v Hv).
    destruct Hcases as [HQ | (d_name & Hin & Hdot & Hdotdot & Hcase)];
      [left; by apply Hmono |].
    apply elem_of_cons in Hin as [-> | Hin].
    - left. by apply (Hhead d).
    - right. by exists d_name. }
  destruct (String.eqb_spec d ".") as [-> | Hdot].
  { apply (Hrest w Hscan); [done |]. by intros d_name ->. }
  destruct (String.eqb_spec d "..") as [-> | Hdotdot].
  { apply (Hrest w Hscan); [done |]. by intros d_name ->. }
  cbn [orb] in Hscan.
  destruct (lstat E (entry_path dir_path d)) as [t|] eqn:Hstat.
  2: { apply (Hrest w Hscan); [done |].
       intros d_name -> _ _ [[-> Hreg] | [Hdir _]]; congruence. }
  destruct (S_ISDIR t) eqn:Hdir.
  - apply S_ISDIR_true in Hdir as ->.
    destruct (descend (entry_path dir_path d) w) as [[[] w1| |]|] eqn:Hd;
      try done.
    apply (Hrest w1 Hscan).
    + intros HQ. apply (Hdesc _ _ _ Hd). by left.
    + intros d_name -> _ _ [[-> Hreg] | [_ Hsub]]; [congruence |].
      apply (Hdesc _ _ _ Hd). by right.
  - destruct (S_ISREG t) eqn:Hreg.
    + apply S_ISREG_true in Hreg as ->.
      destruct (scan_file E (entry_path dir_path d) options w)
        as [[] w1| |] eqn:Hfile; try done.
      apply (Hrest w1 Hscan).
      * intros HQ.
        exact (listed_or_full_scan_file (entry_path dir_path d) w tt w1 HQ Hfile).
      * intros d_name -> _ _ [[Heq _] | [Hsubdir _]]; [| congruence].
        rewrite <- Heq in Hfile. by apply (scan_file_lists w).
    + apply (Hrest w Hscan); [done |].
      intros d_name -> _ _ [[-> Hr] | [Hs _]]; rewrite Hstat in *;
        [injection Hr as -> | injection Hs as ->]; done.
Qed.

Lemma scanned_entry (dir_path : string) :
  scanned E dir_path file_path ->
  exists entries d_name,
    opendir E dir_path = Some entries /\
    d_name ∈ entries /\ d_name <> "." /\ d_name <> ".." /\
    (file_path = entry_path dir_path d_name /\
     lstat E file_path = Some S_IFREG
     \/ lstat E (entry_path dir_path d_name) = Some S_IFDIR /\
        scanned E (entry_path dir_path d_name) file_path).
Proof.
  intros (target & entries & d_name & Hwalk & Hopen & Hin & Hdot & Hdotdot
          & Hpath & Hreg).
  inversion Hwalk as [? | ? sub ? Hsub Hbelow]; subst.
  - exists entries, d_name. repeat split; try done. by left.
  - destruct Hsub as (entries0 & d0 & Hopen0 & Hin0 & Hdot0 & Hdotdot0
                      & -> & Hdir).
    exists entries0, d0. repeat split; try done. right. split; [done |].
    by exists target, entries, d_name.
Qed.

Lemma scan_directory_lists_from (fuel : nat) (dir_path : string)
    (w w' : World) :
  scan_directory E fuel dir_path options w = Some (Ok tt w') ->
  listed_or_full arch name file_path w \/ scanned E dir_path file_path -> listed_or_full arch name file_path w'.
Proof.
  revert dir_path w w'.
  induction fuel as [|fuel IH]; intros dir_path w w'; [done |].
  cbn [scan_directory].
  destruct (opendir E dir_path) as [entries|] eqn:Hopen.
  - intros Hscan Hcases.
    apply (scan_entries_lists _ dir_path entries w w' (IH) Hscan).
    destruct Hcases as [HQ | Hs]; [by left | right].
    apply scanned_entry in Hs as (entries0 & d_name & Hopen0 & Hrest).
    rewrite Hopen in Hopen0. injection Hopen0 as <-. by exists d_name.
  - intros [= <-] [HQ | Hs]; [done |].
    apply scanned_entry in Hs as (entries0 & d_name & Hopen0 & _). congruence.
Qed.

End WalkLists.

(** ** Names and room in the store *)

Lemma names_bound (names admitted : list string) :
  NoDup names -> (forall x, x ∈ names -> x ∈ admitted) ->
  (List.length names <= List.length admitted)%nat.
Proof. intros Hnd Hsub. by apply submseteq_length, NoDup_submseteq. Qed.

Lemma names_room (names admitted : list string) (key : string) :
  NoDup names -> (forall x, x ∈ names -> x ∈ admitted) ->
  key ∈ admitted -> key ∉ names ->
  (List.length names < List.length admitted)%nat.
Proof.
  intros Hnd Hsub Hkey Hnew.
  assert (List.length (key :: names) <= List.length admitted)%nat as Hlen.
  { apply names_bound; [by apply NoDup_cons |].
    intros x [-> | Hx]%elem_of_cons; auto. }
  simpl in Hlen. lia.
Qed.

Lemma find_name_None_elem {A} (name_of : A -> string) (key : string)
    (l : list A) :
  find_name name_of key l 0 = None -> key ∉ name_of <$> l.
Proof.
  intros Hnone%find_name_None (x & -> & Hx)%list_elem_of_fmap.
  by apply (proj1 (Forall_forall _ _) Hnone x Hx).
Qed.

Lemma length_patterns (options : Options) :
  (List.length (patterns options) <= List.length (libs options))%nat.
Proof.
  unfold patterns. induction (libs options) as [|t l IH]; [done |].
  cbn. destruct (lib_pattern t); cbn; lia.
Qed.

(** Where [record] leaves an array. *)
Lemma record_faults (arch name file_path : string) (w : World) (o : object) :
  record arch name file_path w = Fault o ->
  (o = Obj_archs /\
   (find_name arch_name arch (archs w) 0 = None /\ MAX_ARCH <= arch_count w
    \/ MAX_ARCH < arch_count w)) \/
  (o = Obj_libraries /\
   exists i a,
     archs w !! i = Some a /\ arch_name a = arch /\
     (find_name lib_name name (arch_libraries a) 0 = None /\
      MAX_LIBS <= lib_count a
      \/ MAX_LIBS < lib_count a)).
Proof.
  destruct (find_name arch_name arch (archs w) 0) as [zi|] eqn:Hfa.
  - apply find_name_Some in Hfa as Hi.
    destruct Hi as (i & a & -> & Ha & Han & _). rewrite Z.add_0_l in Hfa.
    pose proof (lookup_lt_Some _ _ _ Ha) as Hilt.
    destruct (Z_lt_dec (Z.of_nat i) MAX_ARCH) as [Hi|Hi]; cycle 1.
    { rewrite (record_arch_slot_out _ _ _ _ _ Hfa) by lia.
      intros [= <-]. left. split; [done |]. right. unfold arch_count. lia. }
    destruct (find_name lib_name name (arch_libraries a) 0) as [zj|] eqn:Hfl.
    + apply find_name_Some in Hfl as Hj.
      destruct Hj as (j & lib & -> & Hl & _ & _). rewrite Z.add_0_l in Hfl.
      pose proof (lookup_lt_Some _ _ _ Hl) as Hjlt.
      destruct (Z_lt_dec (Z.of_nat j) MAX_LIBS) as [Hj|Hj]; cycle 1.
      { rewrite (record_lib_slot_out _ _ _ _ _ _ _ Hfa Ha Hi Hfl) by lia.
        intros [= <-]. right. split; [done |]. exists i, a.
        repeat split; try done. right. unfold lib_count. lia. }
      by rewrite (record_known _ _ _ _ _ _ _ _ Hfa Ha Hi Hfl Hl Hj).
    + destruct (Z_lt_dec (lib_count a) MAX_LIBS) as [Hc|Hc].
      * by rewrite (record_new_library _ _ _ _ _ _ Hfa Ha Hi Hfl Hc).
      * rewrite (record_libraries_full _ _ _ _ _ _ Hfa Ha Hi Hfl) by lia.
        intros [= <-]. right. split; [done |]. exists i, a.
        repeat split; try done. left. split; [done | lia].
  - destruct (Z_lt_dec (arch_count w) MAX_ARCH) as [Hc|Hc].
    + by rewrite (record_new_architecture _ _ _ _ Hfa Hc).
    + rewrite (record_archs_full _ _ _ _ Hfa) by lia.
      intros [= <-]. left. split; [done |]. left. split; [done | lia].
Qed.

Section NamesWithin.

Context (tags names : list string).
Context (arch name file_path : string).
Context (Htag : arch ∈ tags) (Hname : name ∈ names).
Context (Harch_fits : strlen arch <= 31) (Hname_fits : strlen name <= 255).

Lemma record_names_within : preserves (names_within tags names)
                              (record arch name file_path).
Proof.
  intros w [] w' [Hnd Hall] Hrec.
  pose proof (record_viewP arch name file_path w) as Hv.
  rewrite Hrec in Hv.
  inversion Hv as [i j a lib Hfa Ha Hi Hfl Hl Hj Hw
                  | i a Hfa Ha Hi Hfl Hc Hw | Hfa Hc Hw |]; clear Hv;
    subst w'; unfold names_within.
  - rewrite (add_executable_result_archs _ _ _ _ _ _ Ha Hl).
    destruct (proj1 (Forall_lookup _ _) Hall i a Ha) as (Ht & Hndl & Hlibs).
    split; [by rewrite (names_insert arch_name _ _ a) |].
    apply Forall_insert; [done |]. cbn. split; [done |]. split.
    + by rewrite (names_insert lib_name _ _ lib).
    + apply Forall_insert; [done |]. cbn.
      by apply (proj1 (Forall_lookup _ _) Hlibs j lib).
  - cbn. destruct (proj1 (Forall_lookup _ _) Hall i a Ha) as (Ht & Hndl & Hlibs).
    split; [by rewrite (names_insert arch_name _ _ a) |].
    apply Forall_insert; [done |]. cbn. split; [done |].
    rewrite strncpy_fits by done. split.
    + by apply (names_snoc lib_name _ name).
    + apply Forall_app. split; [done |]. by constructor.
  - cbn. rewrite !strncpy_fits by done. split.
    + by apply (names_snoc arch_name _ arch).
    + apply Forall_app. split; [done |]. constructor; [| done]. cbn.
      split; [done |]. split; [apply NoDup_singleton |]. by constructor.
Qed.

(** With the names of the store among MAX_ARCH tags, no call leaves
    [archs]. *)
Lemma record_within_archs (w : World) :
  Z.of_nat (List.length tags) <= MAX_ARCH -> names_within tags names w ->
  record arch name file_path w <> Fault Obj_archs.
Proof.
  intros Htags [Hnd Hall]
    [[_ Hfull] | [[=] _]]%record_faults.
  assert (forall x, x ∈ arch_name <$> archs w -> x ∈ tags) as Hsub.
  { intros x (a & -> & Ha)%list_elem_of_fmap.
    by apply (proj1 (Forall_forall _ _) Hall a Ha). }
  unfold arch_count in Hfull. rewrite <- (length_fmap arch_name) in Hfull.
  destruct Hfull as [[Hnone%find_name_None_elem Hfull] | Hfull].
  - pose proof (names_room _ _ _ Hnd Hsub Htag Hnone). lia.
  - pose proof (names_bound _ _ Hnd Hsub). lia.
Qed.

(** With the library names among MAX_LIBS names, no call leaves
    [libraries]. *)
Lemma record_within_libraries (w : World) :
  Z.of_nat (List.length names) <= MAX_LIBS -> names_within tags names w ->
  record arch name file_path w <> Fault Obj_libraries.
Proof.
  intros Hnames [Hnd Hall]
    [[[=] _] | [_ (i & a & Ha & Han & Hfull)]]%record_faults.
  destruct (proj1 (Forall_lookup _ _) Hall i a Ha) as (_ & Hndl & Hlibs).
  assert (forall x, x ∈ lib_name <$> arch_libraries a -> x ∈ names) as Hsub.
  { intros x (lib & -> & Hl)%list_elem_of_fmap.
    by apply (proj1 (Forall_forall _ _) Hlibs lib Hl). }
  unfold lib_count in Hfull. rewrite <- (length_fmap lib_name) in Hfull.
  destruct Hfull as [[Hnone%find_name_None_elem Hfull] | Hfull].
  - pose proof (names_room _ _ _ Hndl Hsub Hname Hnone). lia.
  - pose proof (names_bound _ _ Hndl Hsub). lia.
Qed.

End NamesWithin.

Lemma names_within_initial (tags names : list string) :
  names_within tags names initial_world.
Proof. split; [apply NoDup_nil_2 | constructor]. Qed.

Lemma justified_pattern (E : Env) (options : Options)
    (root arch name file_path : string) :
  justified E options root arch name file_path -> name ∈ patterns options.
Proof.
  intros (_ & _ & _ & _ & dep & _ & before & term & after & Hlibs & Hpat & _).
  apply list_elem_of_omap. exists term. split; [| done].
  rewrite Hlibs. apply elem_of_app. right. left.
Qed.

(** ** The walk: what it lists, and how it ends *)

Lemma record_frame (arch name file_path : string) (w w' : World) :
  record arch name file_path w = Ok tt w' ->
  files w' = files w /\ total_execs w <= total_execs w' /\
  (stderr w' = stderr w \/
   exists lib, stderr w'
               = stderr w ++ ["Error: Too many executables for library " +:+ lib]).
Proof.
  intros Hrec. pose proof (record_viewP arch name file_path w) as Hv.
  rewrite Hrec in Hv.
  inversion Hv as [i j a lib Hfa Ha Hi Hfl Hl Hj Hw
                  | i a Hfa Ha Hi Hfl Hc Hw | Hfa Hc Hw |]; clear Hv;
    subst w'; cbn; try (repeat split; [lia | by left]).
  unfold add_executable_result.
  destruct (existsb _ _); [repeat split; [lia | by left] |].
  destruct (exec_count lib <? MAX_EXECS); cbn; repeat split; try lia;
    [by left | right; by eexists].
Qed.

Lemma walk_effects_refl (w : World) : walk_effects w w.
Proof.
  repeat split; [lia | done |]. exists []. by rewrite app_nil_r.
Qed.

Lemma walk_effects_message (w0 w : World) (msg : string) :
  walk_message msg -> walk_effects w0 w -> walk_effects w0 (eprint w msg).
Proof.
  intros Hmsg (Hfiles & Htotal & Hlists & msgs & Hmsgs & Hall).
  repeat split; try done.
  exists (msgs ++ [msg]). cbn. rewrite Hmsgs, app_assoc. split; [done |].
  apply Forall_app. split; [done | by constructor].
Qed.

Lemma walk_effects_record (w0 w w' : World) (arch name file_path : string) :
  record arch name file_path w = Ok tt w' ->
  walk_effects w0 w -> walk_effects w0 w'.
Proof.
  intros Hrec (Hfiles & Htotal & Hlists & msgs & Hmsgs & Hall).
  destruct (record_frame _ _ _ _ _ Hrec) as (Hf & Ht & Herr).
  destruct (record_keeps_listed _ _ _ _ _ Hrec) as [Hkeep _].
  repeat split; [congruence | lia | by auto |].
  destruct Herr as [-> | [lib ->]].
  - by exists msgs.
  - exists (msgs ++ ["Error: Too many executables for library " +:+ lib]).
    rewrite Hmsgs, app_assoc. split; [done |].
    apply Forall_app. split; [done |]. constructor; [| done].
    right. right. by exists lib.
Qed.

(** What is listed has its reason, if that was so before the walk. *)
Lemma scan_directory_sound (E : Env) (options : Options) (fuel : nat)
    (root : string) (w w' : World) :
  (forall arch name file_path,
      lists w arch name file_path ->
      justified E options root arch name file_path) ->
  scan_directory E fuel root options w = Some (Ok tt w') ->
  forall arch name file_path,
    lists w' arch name file_path ->
    justified E options root arch name file_path.
Proof.
  intros Hbefore Hscan.
  apply (scan_directory_outcome E options root
           (fun v => forall arch name file_path,
                lists v arch name file_path ->
                justified E options root arch name file_path)
           (fun _ => True)) in Hscan; try done.
  intros arch name file_path v HP Hj.
  destruct (record arch name file_path v) as [[] v'| |] eqn:Hrec; [| | done].
  - destruct (justified_fits _ _ _ _ _ _ Hj) as (_ & Harch & Hname).
    intros a n p Hl.
    destruct (record_lists_new _ _ _ _ _ Harch Hname Hrec a n p Hl)
      as [Hold | (-> & -> & ->)]; [by apply HP | done].
  - by apply record_no_exit in Hrec.
Qed.

(** X4.  Soundness of the walk.  Every triple the store lists after a walk
    from the empty store has its reason in the tree: the path is a regular
    file the walk came by; [is_executable] holds for it, that is,
    [access (path, X_OK)] succeeds and [readelf -h] on it exits with status
    0; the architecture is the one [get_architecture] gives, which is not
    ["unknown"]; and [readelf -d] prints for it a NEEDED line with a name in
    which the library name occurs, the library name being the pattern of
    the first search term whose pattern occurs in that name. *)
Theorem scan_directory_lists_justified (E : Env) (options : Options)
    (fuel : nat) (root : string) (w : World) :
  scan_directory E fuel root options initial_world = Some (Ok tt w) ->
  forall arch name file_path,
    lists w arch name file_path ->
    justified E options root arch name file_path /\
    access_X_OK E file_path = true /\ system_readelf_h E file_path = 0.
Proof.
  intros Hscan arch name file_path Hlisted.
  assert (justified E options root arch name file_path) as Hj.
  { apply (scan_directory_sound E options fuel root initial_world w);
      try done.
    intros a n p (x & lib & Hx & _). by apply elem_of_nil in Hx. }
  split; [done |]. destruct Hj as (_ & Hexec & _).
  unfold is_executable in Hexec.
  destruct (access_X_OK E file_path); [| done].
  split; [done |]. by apply Z.eqb_eq.
Qed.

Lemma scan_directory_lists_justified_witness :
  justified loop_env loop_options "/r" "x86_64" "libc.so" "/r/bin/a" /\
  access_X_OK loop_env "/r/bin/a" = true /\
  system_readelf_h loop_env "/r/bin/a" = 0.
Proof.
  apply (scan_directory_lists_justified loop_env loop_options 2 "/r" loop_world).
  - vm_compute. reflexivity.
  - eexists _, _. split; [apply list_elem_of_here |]. split; [reflexivity |].
    split; [apply list_elem_of_here |]. split; [reflexivity |].
    apply list_elem_of_here.
Defined.

(** X5.  Completeness of the walk.  When the walk of [root] returns, every
    regular file it came by for which [is_executable] holds, whose
    architecture is known, and for which [readelf -d] prints a NEEDED line
    with a name in which the pattern of a search term occurs, is listed
    under the pattern of the first such term, for its architecture, unless
    the list of that library already holds MAX_EXECS paths. *)
Theorem scan_directory_lists_matches (E : Env) (options : Options)
    (fuel : nat) (root : string) (w w' : World)
    (arch name file_path : string) :
  scan_directory E fuel root options w = Some (Ok tt w') ->
  justified E options root arch name file_path ->
  lists w' arch name file_path \/ library_full w' arch name.
Proof.
  intros Hscan (Hscanned & Hexec & Harch & Hknown & dep & Hneeds & Hattr).
  apply (scan_directory_lists_from E options arch name file_path dep
           Hexec Harch Hknown Hneeds Hattr fuel root w w' Hscan).
  by right.
Qed.

Lemma loop_env_justified :
  justified loop_env loop_options "/r" "x86_64" "libc.so" "/r/bin/a".
Proof.
  split; [| split; [reflexivity | split; [reflexivity | split; [done |]]]].
  - exists "/r/bin", ["."; ".."; "a"], "a".
    split; [| by repeat split; try done; repeat constructor].
    apply walked_below with "/r/bin"; [| constructor].
    exists ["."; ".."; "bin"; "back"], "bin".
    repeat split; try done. by repeat constructor.
  - exists "libc.so.6". split.
    + exists [" 0x01 (NEEDED)   Shared library: [libc.so.6]"],
        " 0x01 (NEEDED)   Shared library: [libc.so.6]".
      repeat split. apply list_elem_of_here.
    + exists [], "c", []. repeat split. constructor.
Qed.

Lemma scan_directory_lists_matches_witness :
  lists loop_world "x86_64" "libc.so" "/r/bin/a"
  \/ library_full loop_world "x86_64" "libc.so".
Proof.
  apply (scan_directory_lists_matches loop_env loop_options 2 "/r"
           initial_world loop_world "x86_64" "libc.so" "/r/bin/a").
  - vm_compute. reflexivity.
  - exact loop_env_justified.
Defined.

Lemma lib_pattern_fits (term : string) :
  (strstr term ".so" = true -> strlen term < 256) -> is_Some (lib_pattern term).
Proof.
  intros Hfit. unfold lib_pattern, strcpy.
  destruct (strstr term ".so"); cbn [negb].
  - rewrite (proj2 (Z.ltb_lt _ _) (Hfit eq_refl)). by eexists.
  - destruct (negb _); by eexists.
Qed.

(** X6.  Safety of the walk.  With at most MAX_LIBS search terms, every
    term that contains [".so"] shorter than 256 characters, and every name
    that [readelf -d] prints between brackets on a NEEDED line shorter than
    256 characters, a walk from the empty store that ends has returned:
    no array is left and the process is not ended.  When, in addition, the
    directories are nested to a finite depth, the walk does end. *)
Theorem scan_directory_returns_normally (E : Env) (options : Options) :
  Z.of_nat (List.length (libs options)) <= MAX_LIBS ->
  Forall (fun term => strstr term ".so" = true -> strlen term < 256)
    (libs options) ->
  (forall file_path lines line,
      popen_readelf_d E file_path = Some lines -> line ∈ lines ->
      strstr line "(NEEDED)" = true -> needed_name line <> Some None) ->
  (forall fuel root r,
      scan_directory E fuel root options initial_world = Some r ->
      exists w, r = Ok tt w) /\
  (forall (rank : string -> nat) root,
      (forall d p, real_subdirectory E d p -> (rank p < rank d)%nat) ->
      exists w, forall fuel,
        (rank root < fuel)%nat ->
        scan_directory E fuel root options initial_world = Some (Ok tt w)).
Proof.
  intros Hcount Hterms Hnames.
  assert (forall fuel root r,
             scan_directory E fuel root options initial_world = Some r ->
             exists w, r = Ok tt w) as Hok.
  { intros fuel root r Hscan.
    apply (scan_directory_outcome E options root
             (names_within architecture_tags (patterns options))
             (fun _ => False)) in Hscan.
    - destruct r as [[] w| |]; [by exists w | done ..].
    - intros arch name file_path v HP Hj.
      destruct (justified_fits _ _ _ _ _ _ Hj) as (Htag & Harch & Hname).
      pose proof (justified_pattern _ _ _ _ _ _ Hj) as Hpat.
      destruct (record arch name file_path v) as [[] v'|s v'|o] eqn:Hrec.
      + by apply (record_names_within architecture_tags (patterns options)
                    arch name file_path Htag Hpat Harch Hname v tt v').
      + by apply record_no_exit in Hrec.
      + apply record_faults in Hrec as Ho.
        destruct Ho as [[-> _] | [-> _]]; cbn.
        * by apply (record_within_archs architecture_tags (patterns options)
                      arch name file_path Htag v).
        * apply (record_within_libraries architecture_tags (patterns options)
                   arch name file_path Hpat v); try done.
          pose proof (length_patterns options). lia.
    - done.
    - done.
    - intros term Hin Hnone.
      destruct (lib_pattern_fits term) as [p Hp]; [| congruence].
      by apply (proj1 (Forall_forall _ _) Hterms).
    - intros file_path lines line Hlines Hin Hneeded Hover.
      by apply (Hnames file_path lines line).
    - apply names_within_initial. }
  split; [exact Hok |].
  intros rank root Hrank.
  destruct (scan_directory_returns E options rank (S (rank root)) root
              initial_world Hrank) as [r Hr]; [lia |].
  destruct (Hok _ _ _ Hr) as [w ->]. exists w. intros fuel Hfuel.
  apply (scan_directory_more_fuel E options (S (rank root))); [lia | done].
Qed.

Lemma scan_directory_returns_normally_witness :
  exists w, scan_directory loop_env 2 "/r" loop_options initial_world
            = Some (Ok tt w).
Proof.
  destruct (proj2 (scan_directory_returns_normally loop_env loop_options
                     ltac:(by vm_compute)
                     ltac:(by repeat constructor)
                     ltac:(intros file_path lines line [= <-]
                             ->%list_elem_of_singleton _; by vm_compute))
              loop_rank "/r" loop_rank_decreases) as [w Hw].
  exists w. apply Hw. vm_compute. lia.
Defined.

(** X7.  The architecture table cannot overflow in a walk.  Whatever the
    search terms and the tree, a walk from the empty store never takes the
    branch of [find_or_add_architecture] that returns -1: [archs] is not
    left, and in the store the walk returns the architecture names are
    distinct tags of [get_architecture], so there are at most MAX_ARCH. *)
Theorem scan_directory_architectures_fit (E : Env) (options : Options)
    (fuel : nat) (root : string) (r : result unit) :
  scan_directory E fuel root options initial_world = Some r ->
  r <> Fault Obj_archs /\
  forall w,
    r = Ok tt w ->
    NoDup (arch_name <$> archs w) /\
    (forall a, a ∈ archs w -> arch_name a ∈ architecture_tags) /\
    arch_count w <= MAX_ARCH.
Proof.
  intros Hscan.
  apply (scan_directory_outcome E options root
           (names_within architecture_tags (patterns options))
           (fun o => o <> Obj_archs)) in Hscan.
  - split; [by intros -> |]. intros w ->. destruct Hscan as [Hnd Hall].
    assert (forall a, a ∈ archs w -> arch_name a ∈ architecture_tags) as Htags.
    { intros a Ha. by apply (proj1 (Forall_forall _ _) Hall a Ha). }
    repeat split; try done.
    unfold arch_count. rewrite <- (length_fmap arch_name).
    assert (List.length (arch_name <$> archs w)
            <= List.length architecture_tags)%nat as Hlen; [| by cbn in Hlen; unfold MAX_ARCH; lia].
    apply names_bound; [done |].
    intros x (a & -> & Ha)%list_elem_of_fmap. by apply Htags.
  - intros arch name file_path v HP Hj.
    destruct (justified_fits _ _ _ _ _ _ Hj) as (Htag & Harch & Hname).
    pose proof (justified_pattern _ _ _ _ _ _ Hj) as Hpat.
    destruct (record arch name file_path v) as [[] v'|s v'|o] eqn:Hrec.
    + by apply (record_names_within architecture_tags (patterns options)
                  arch name file_path Htag Hpat Harch Hname v tt v').
    + by apply record_no_exit in Hrec.
    + cbn. intros ->.
      by apply (record_within_archs architecture_tags (patterns options)
                  arch name file_path Htag v).
  - done.
  - done.
  - done.
  - done.
  - apply names_within_initial.
Qed.

Lemma scan_directory_architectures_fit_witness :
  NoDup (arch_name <$> archs loop_world) /\
  (forall a, a ∈ archs loop_world -> arch_name a ∈ architecture_tags) /\
  arch_count loop_world <= MAX_ARCH.
Proof.
  apply (proj2 (scan_directory_architectures_fit loop_env loop_options 2 "/r"
                  (Ok tt loop_world) ltac:(vm_compute; reflexivity))).
  reflexivity.
Defined.

(** X8.  What the walk does not do.  [scan_directory] never ends the
    process.  When it returns, no report file has been touched,
    [total_execs] has not decreased, every triple the store listed is still
    listed, and [stderr] has only grown, by diagnostics about a directory
    that could not be opened, a [popen] that failed, or a library whose
    list of executables is full. *)
Theorem scan_directory_only_adds (E : Env) (options : Options) (fuel : nat)
    (root : string) (w : World) (r : result unit) :
  scan_directory E fuel root options w = Some r ->
  (forall s w', r <> Exit s w') /\
  (forall w', r = Ok tt w' -> walk_effects w w').
Proof.
  intros Hscan.
  apply (scan_directory_outcome E options root (walk_effects w)
           (fun _ => True)) in Hscan.
  - split; [intros s w' -> | intros w' ->]; done.
  - intros arch name file_path v HP _.
    destruct (record arch name file_path v) as [[] v'|s v'|o] eqn:Hrec;
      [| | done].
    + by apply (walk_effects_record w v v' arch name file_path).
    + by apply record_no_exit in Hrec.
  - intros v dir_path. apply walk_effects_message. left. by eexists.
  - intros v file_path. apply walk_effects_message. right. left. by eexists.
  - done.
  - done.
  - apply walk_effects_refl.
Qed.

Lemma scan_directory_only_adds_witness :
  walk_effects initial_world loop_world.
Proof.
  apply (proj2 (scan_directory_only_adds loop_env loop_options 2 "/r"
                  initial_world (Ok tt loop_world)
                  ltac:(vm_compute; reflexivity))).
  reflexivity.
Defined.

(** ** The store after the walk *)

Lemma record_preserves_nonempty (arch name file_path : string) :
  preserves store_nonempty (record arch name file_path).
Proof.
  intros w [] w' Hall Hrec.
  pose proof (record_viewP arch name file_path w) as Hv.
  rewrite Hrec in Hv.
  inversion Hv as [i j a lib Hfa Ha Hi Hfl Hl Hj Hw
                  | i a Hfa Ha Hi Hfl Hc Hw | Hfa Hc Hw |]; clear Hv;
    subst w'; unfold store_nonempty.
  - rewrite (add_executable_result_archs _ _ _ _ _ _ Ha Hl).
    destruct (proj1 (Forall_lookup _ _) Hall i a Ha) as [Hlibs Hexecs].
    apply Forall_insert; [done |]. cbn. split.
    + intros Hnil. apply (f_equal List.length) in Hnil.
      rewrite length_insert in Hnil. by destruct (arch_libraries a).
    + apply Forall_insert; [done |]. cbn.
      pose proof (proj1 (Forall_lookup _ _) Hexecs j lib Hl) as Hne.
      destruct (existsb _ _); [done |].
      destruct (exec_count lib <? MAX_EXECS); [| done].
      by destruct (lib_execs lib).
  - cbn. destruct (proj1 (Forall_lookup _ _) Hall i a Ha) as [Hlibs Hexecs].
    apply Forall_insert; [done |]. cbn. split.
    + by destruct (arch_libraries a).
    + apply Forall_app. split; [done |]. by constructor.
  - cbn. apply Forall_app. split; [done |]. constructor; [| done]. cbn.
    split; [done |]. by constructor.
Qed.

(** X9.  The store after a walk from the empty store.  No architecture
    and, within an architecture, no library is stored twice, and no library
    lists a path twice; the arrays are within their bounds; no architecture
    is without a library and no library without an executable; the counter
    is at most MAX_ARCH * MAX_LIBS * MAX_EXECS; and the difference
    [compare_libraries] computes for two libraries of the store lies
    between -MAX_EXECS and MAX_EXECS, far from the ends of [int]. *)
Theorem scan_directory_leaves_sound_store (E : Env) (options : Options)
    (fuel : nat) (root : string) (w : World) :
  scan_directory E fuel root options initial_world = Some (Ok tt w) ->
  data_model_invariants w /\ store_fits w /\ store_nonempty w /\
  0 <= total_execs w <= MAX_ARCH * MAX_LIBS * MAX_EXECS /\
  (forall a lib_a lib_b,
      a ∈ archs w -> lib_a ∈ arch_libraries a -> lib_b ∈ arch_libraries a ->
      - MAX_EXECS <= compare_libraries lib_a lib_b <= MAX_EXECS).
Proof.
  intros Hscan.
  destruct (scan_directory_invariants E fuel root options w Hscan)
    as (Hmodel & Hfits & Hcounter).
  split; [done |]. split; [done |]. split; [| split].
  - apply (scan_directory_preserves E store_nonempty)
      with fuel root options initial_world; [| done | constructor | done].
    intros arch term name file_path _ _. apply record_preserves_nonempty.
  - by apply total_execs_bound.
  - intros a lib_a lib_b Ha Hlib_a Hlib_b. destruct Hfits as [_ Hall].
    destruct (proj1 (Forall_forall _ _) Hall a Ha) as [_ Hexecs].
    pose proof (proj1 (Forall_forall _ _) Hexecs lib_a Hlib_a).
    pose proof (proj1 (Forall_forall _ _) Hexecs lib_b Hlib_b).
    unfold compare_libraries, exec_count in *. lia.
Qed.

Lemma scan_directory_leaves_sound_store_witness :
  data_model_invariants loop_world /\ store_fits loop_world /\
  store_nonempty loop_world.
Proof.
  destruct (scan_directory_leaves_sound_store loop_env loop_options 2 "/r"
              loop_world ltac:(vm_compute; reflexivity))
    as (Hmodel & Hfits & Hnonempty & _).
  split; [exact Hmodel | split; [exact Hfits | exact Hnonempty]].
Defined.

(** ** The name on a NEEDED line *)

Lemma index_0_cons (n : string) (a : ascii) (s : string) :
  String.index 0 n (String a s)
  = if String.prefix n (String a s) then Some 0%nat
    else match String.index 0 n s with
         | Some k => Some (S k)
         | None => None
         end.
Proof. reflexivity. Qed.

(** The first occurrence of a character after a part that does not hold
    it. *)
Lemma index_char_skip (c : ascii) (pre rest : string) :
  strstr pre (String c "") = false ->
  String.index 0 (String c "") (pre +:+ rest)
  = match String.index 0 (String c "") rest with
    | Some k => Some (String.length pre + k)%nat
    | None => None
    end.
Proof.
  induction pre as [|a pre IH].
  - intros _. cbn [String.append String.length]. by destruct (String.index _ _ _).
  - intros [Hp Hpre]%strstr_false_cons.
    change (String a pre +:+ rest) with (String a (pre +:+ rest)).
    rewrite index_0_cons.
    destruct (String.prefix (String c "") (String a (pre +:+ rest))) eqn:Hq.
    + apply prefix_cons in Hq as [-> _].
      assert (String.prefix (String a "") (String a pre) = true) as Ht
        by (apply prefix_cons; split; [done | apply prefix_nil]).
      congruence.
    + rewrite (IH Hpre). by destruct (String.index _ _ rest).
Qed.

Lemma index_char_here (c : ascii) (rest : string) :
  String.index 0 (String c "") (String c rest) = Some 0%nat.
Proof.
  rewrite index_0_cons.
  assert (String.prefix (String c "") (String c rest) = true) as ->
    by (apply prefix_cons; split; [done | apply prefix_nil]).
  done.
Qed.

Lemma index_char_first (c : ascii) (pre rest : string) :
  strstr pre (String c "") = false ->
  String.index 0 (String c "") (pre +:+ String c rest)
  = Some (String.length pre).
Proof.
  intros Hpre. rewrite (index_char_skip c pre _ Hpre), index_char_here.
  f_equal. lia.
Qed.

Lemma index_char_None (c : ascii) (s : string) :
  strstr s (String c "") = false -> String.index 0 (String c "") s = None.
Proof.
  intros Hs. pose proof (index_char_skip c s "" Hs) as Hskip.
  by rewrite append_nil_r in Hskip.
Qed.

Lemma strstr_char_app (c : ascii) (a b : string) :
  strstr a (String c "") = false -> strstr b (String c "") = false ->
  strstr (a +:+ b) (String c "") = false.
Proof.
  intros Ha Hb. induction a as [|x a IH]; [done |].
  apply strstr_false_cons in Ha as [Hp Ha].
  change (String x a +:+ b) with (String x (a +:+ b)).
  apply strstr_false_cons. split; [| by apply IH].
  destruct (String.prefix (String c "") (String x (a +:+ b))) eqn:Hq; [| done].
  apply prefix_cons in Hq as [-> _].
  assert (String.prefix (String x "") (String x a) = true) as Ht
    by (apply prefix_cons; split; [done | apply prefix_nil]).
  congruence.
Qed.

Lemma substring_skip (pre rest : string) (m : nat) :
  String.substring (String.length pre) m (pre +:+ rest)
  = String.substring 0 m rest.
Proof. induction pre as [|a pre IH]; [done | exact IH]. Qed.

Lemma substring_0_exact (s rest : string) :
  String.substring 0 (String.length s) (s +:+ rest) = s.
Proof.
  rewrite substring_0_append by done. by apply substring_0_all.
Qed.

(** The positions of the brackets on a line [pre[name]post]. *)
Lemma bracket_positions (pre name post : string) :
  strstr pre "[" = false -> strstr pre "]" = false ->
  strstr name "]" = false ->
  let line := pre +:+ "[" +:+ name +:+ "]" +:+ post in
  String.index 0 "[" line = Some (String.length pre) /\
  String.index 0 "]" line
  = Some (String.length pre + 1 + String.length name)%nat.
Proof.
  intros Hopen Hclose Hname line. subst line. split.
  - by apply (index_char_first "[" pre).
  - replace (pre +:+ "[" +:+ name +:+ "]" +:+ post)
      with ((pre +:+ "[" +:+ name) +:+ "]" +:+ post)
      by (by rewrite !append_assoc).
    change ("]" +:+ post) with (String "]" post).
    rewrite (index_char_first "]").
    + f_equal. rewrite !length_append. cbn. lia.
    + apply strstr_char_app; [done |].
      by apply (strstr_char_app "]" "[" name).
Qed.

(** X10.  [get_dependencies] reads the name of a library off a NEEDED line
    as [readelf] prints it: on a line [pre[name]post] with no bracket in
    [pre] and no closing bracket in [name], the name is [name] when it has
    fewer than 256 characters, and the copy leaves [lib_name] when it has
    more; a line without an opening or without a closing bracket, or whose
    first closing bracket comes before any opening one, is passed over. *)
Theorem needed_name_brackets :
  (forall pre name post,
      strstr pre "[" = false -> strstr pre "]" = false ->
      strstr name "]" = false ->
      needed_name (pre +:+ "[" +:+ name +:+ "]" +:+ post)
      = if strlen name <? 256 then Some (Some name) else Some None) /\
  (forall line,
      strstr line "[" = false \/ strstr line "]" = false ->
      needed_name line = None) /\
  (forall pre post,
      strstr pre "[" = false -> strstr pre "]" = false ->
      needed_name (pre +:+ "]" +:+ post) = None).
Proof.
  split; [| split].
  - intros pre name post Hopen Hclose Hname.
    destruct (bracket_positions pre name post Hopen Hclose Hname) as [Hs He].
    unfold needed_name. rewrite Hs, He.
    rewrite (proj2 (Nat.ltb_lt _ _)) by lia.
    replace (String.length pre + 1 + String.length name - String.length pre - 1)%nat
      with (String.length name) by lia.
    assert (String.substring (S (String.length pre)) (String.length name)
              (pre +:+ "[" +:+ name +:+ "]" +:+ post) = name) as ->.
    { replace (S (String.length pre)) with (String.length (pre +:+ "["))
        by (rewrite length_append; cbn; lia).
      replace (pre +:+ "[" +:+ name +:+ "]" +:+ post)
        with ((pre +:+ "[") +:+ name +:+ "]" +:+ post)
        by (by rewrite !append_assoc).
      rewrite substring_skip. apply substring_0_exact. }
    unfold strlen.
    destruct (Z.ltb_spec (Z.of_nat (String.length name)) 256) as [Hlt | Hge].
    + by rewrite (proj2 (Nat.ltb_lt _ _)) by lia.
    + by rewrite (proj2 (Nat.ltb_ge _ _)) by lia.
  - intros line [Hnone | Hnone]; unfold needed_name.
    + by rewrite (index_char_None "[" line Hnone).
    + rewrite (index_char_None "]" line Hnone).
      by destruct (String.index 0 "[" line).
  - intros pre post Hopen Hclose. unfold needed_name.
    change ("]" +:+ post) with (String "]" post).
    rewrite (index_char_first "]" pre post Hclose).
    rewrite (index_char_skip "[" pre _ Hopen).
    rewrite index_0_cons.
    assert (String.prefix "[" (String "]" post) = false) as -> by done.
    destruct (String.index 0 "[" post) as [k|]; [| done].
    by rewrite (proj2 (Nat.ltb_ge _ _)) by lia.
Qed.

Lemma needed_name_brackets_witness :
  needed_name " 0x0000000000000001 (NEEDED)  Shared library: [libc.so.6]"
  = Some (Some "libc.so.6").
Proof.
  exact (proj1 needed_name_brackets
           " 0x0000000000000001 (NEEDED)  Shared library: " "libc.so.6" ""
           eq_refl eq_refl eq_refl).
Defined.

(** ** The lines of [readelf -d] *)

(** X11.  Of the output of [readelf -d], [get_dependencies] uses the lines
    that hold ["(NEEDED)"] and a pair of brackets, in their order, and no
    other line: the result is the result for those lines alone (so the
    SONAME, RPATH and RUNPATH entries, which also show a name in brackets,
    are not taken for dependencies); the lines of a file are dealt with
    one after the other; and a file without such a line leaves the store
    and [stderr] as they were. *)
Theorem needed_lines_only (terms : list string) (arch file_path : string)
    (w : World) :
  (forall lines,
      needed_lines lines terms arch file_path w
      = needed_lines
          (filter (fun line => strstr line "(NEEDED)" = true /\
                               needed_name line <> None) lines)
          terms arch file_path w) /\
  (forall l1 l2,
      needed_lines (l1 ++ l2) terms arch file_path w
      = (needed_lines l1 terms arch file_path
         >> needed_lines l2 terms arch file_path) w) /\
  (forall lines,
      Forall (fun line => strstr line "(NEEDED)" = false
                          \/ needed_name line = None) lines ->
      needed_lines lines terms arch file_path w = Ok tt w).
Proof.
  split; [| split].
  - intros lines. revert w. induction lines as [|line lines IH]; intros w;
      [done |].
    rewrite filter_cons. cbn [needed_lines].
    destruct (strstr line "(NEEDED)") eqn:Hneeded.
    + destruct (needed_name line) as [[name|]|] eqn:Hname.
      * rewrite decide_True by done. cbn [needed_lines].
        rewrite Hneeded, Hname. unfold bind.
        destruct (match_terms terms arch name file_path w); [apply IH | done ..].
      * rewrite decide_True by done. cbn [needed_lines].
        by rewrite Hneeded, Hname.
      * rewrite decide_False by (by intros [_ ?]). apply IH.
    + rewrite decide_False by (by intros [? _]). apply IH.
  - intros l1 l2. revert w. induction l1 as [|line l1 IH]; intros w; [done |].
    cbn [app needed_lines].
    destruct (strstr line "(NEEDED)"); [| apply IH].
    destruct (needed_name line) as [[name|]|]; [| done | apply IH].
    unfold bind.
    destruct (match_terms terms arch name file_path w); [| done ..].
    by rewrite IH.
  - intros lines Hnone. revert w.
    induction Hnone as [|line lines Hline _ IH]; intros w; [done |].
    cbn [needed_lines].
    destruct (strstr line "(NEEDED)"); [| apply IH].
    destruct Hline as [[=] | ->]. apply IH.
Qed.

Lemma needed_lines_only_witness :
  needed_lines [" 0x0e (SONAME)  Library soname: [libz.so.1]";
                " 0x1d (RUNPATH) Library runpath: [/opt/lib]"]
    ["z"] "x86_64" "/lib/libz.so.1" initial_world
  = Ok tt initial_world.
Proof.
  apply (proj2 (proj2 (needed_lines_only ["z"] "x86_64" "/lib/libz.so.1"
                         initial_world))).
  repeat constructor.
Defined.

(** ** Search terms that cannot match *)

Lemma strstr_trans (a b c : string) :
  strstr a b = true -> strstr b c = true -> strstr a c = true.
Proof.
  rewrite !strstr_spec.
  intros (a1 & a2 & ->) (b1 & b2 & ->).
  exists (a1 +:+ b1), (b2 +:+ a2). by rewrite !append_assoc.
Qed.

(** A term whose pattern does not occur in the name is passed over. *)
Lemma match_terms_skip (mid post : list string) (t p : string)
    (arch dep file_path : string) (w : World) :
  lib_pattern t = Some p -> strstr dep p = false ->
  match_terms (mid ++ t :: post) arch dep file_path w
  = match_terms (mid ++ post) arch dep file_path w.
Proof.
  intros Hp Hno. induction mid as [|m mid IH]; cbn [app match_terms].
  - by rewrite Hp, Hno.
  - destruct (lib_pattern m) as [q|]; [| done].
    by destruct (strstr dep q).
Qed.

(** X12.  The matcher sees the search terms only through their patterns,
    and a term is shadowed by an earlier term whose pattern occurs in its
    own: nothing is ever recorded under it, and leaving it out changes no
    result.  (So of [-l c -l libc.so.6] only [libc.so] gets a library
    entry, and a repeated term is without effect.) *)
Theorem match_terms_shadowing (arch dep file_path : string) (w : World) :
  (forall terms terms',
      lib_pattern <$> terms = lib_pattern <$> terms' ->
      match_terms terms arch dep file_path w
      = match_terms terms' arch dep file_path w) /\
  (forall pre t1 mid t2 post p1 p2,
      lib_pattern t1 = Some p1 -> lib_pattern t2 = Some p2 ->
      strstr p2 p1 = true ->
      match_terms (pre ++ t1 :: mid ++ t2 :: post) arch dep file_path w
      = match_terms (pre ++ t1 :: mid ++ post) arch dep file_path w).
Proof.
  split.
  - intros terms. induction terms as [|t terms IH]; intros [|t' terms'];
      try done.
    cbn [fmap list_fmap match_terms]. intros [= Ht Hrest].
    rewrite <- Ht. destruct (lib_pattern t) as [p|]; [| done].
    destruct (strstr dep p); [done | by apply IH].
  - intros pre t1 mid t2 post p1 p2 Hp1 Hp2 Hin.
    induction pre as [|t pre IH]; cbn [app match_terms].
    + rewrite Hp1. destruct (strstr dep p1) eqn:Hdep; [done |].
      apply (match_terms_skip mid post t2 p2); [done |].
      destruct (strstr dep p2) eqn:Hdep2; [| done].
      by rewrite (strstr_trans dep p2 p1 Hdep2 Hin) in Hdep.
    + destruct (lib_pattern t) as [q|]; [| done].
      by destruct (strstr dep q).
Qed.

Lemma match_terms_shadowing_witness :
  match_terms ["ssl"; "c"; "libc.so.6"; "m"] "x86_64" "libc.so.6" "/bin/a"
    initial_world
  = match_terms ["ssl"; "c"; "m"] "x86_64" "libc.so.6" "/bin/a" initial_world.
Proof.
  exact (proj2 (match_terms_shadowing "x86_64" "libc.so.6" "/bin/a"
                  initial_world)
           ["ssl"] "c" [] "libc.so.6" ["m"] "libc.so" "libc.so.6"
           eq_refl eq_refl eq_refl).
Defined.

(** ** Architecture of a file *)

(** X13.  [get_architecture] gives one of the four tags or ["unknown"]; a
    line without ["Machine:"] has no say; and the lines are asked in order:
    the answer for a header is the answer of its first part unless that is
    ["unknown"], and then the answer of the rest. *)
Theorem get_architecture_first_verdict (E : Env) :
  (forall file_path,
      get_architecture E file_path = "unknown"
      \/ get_architecture E file_path ∈ architecture_tags) /\
  (forall line rest,
      strstr line "Machine:" = false ->
      machine_of_lines (line :: rest) = machine_of_lines rest) /\
  (forall l1 l2,
      machine_of_lines (l1 ++ l2)
      = if String.eqb (machine_of_lines l1) "unknown" then machine_of_lines l2
        else machine_of_lines l1).
Proof.
  split; [apply get_architecture_tag |]. split.
  - intros line rest Hno. cbn [machine_of_lines]. by rewrite Hno.
  - intros l1 l2. induction l1 as [|line l1 IH]; [done |].
    cbn [app machine_of_lines]. rewrite IH.
    repeat case_match; done.
Qed.

Lemma get_architecture_first_verdict_witness :
  machine_of_lines ["ELF Header:"; "  Machine:      AArch64"]
  = machine_of_lines ["  Machine:      AArch64"].
Proof.
  exact (proj1 (proj2 (get_architecture_first_verdict quiet_env))
           "ELF Header:" ["  Machine:      AArch64"] eq_refl).
Defined.

(** ** Looking up what was added *)

(** X14.  What [find_or_add_architecture] and [find_or_add_library] add is
    found again.  After a call that returns an index, a second call with
    the same name returns the same index and changes nothing, the entry at
    that index bears the name, and every name that was found before is
    found at the index it had. *)
Theorem find_or_add_finds_again :
  (forall arch w i w',
      strlen arch <= 31 ->
      find_or_add_architecture arch w = Ok i w' -> 0 <= i ->
      find_or_add_architecture arch w' = Ok i w' /\
      (exists a, archs w' !! Z.to_nat i = Some a /\ arch_name a = arch) /\
      (forall other k,
          find_name arch_name other (archs w) 0 = Some k ->
          find_name arch_name other (archs w') 0 = Some k)) /\
  (forall (i : nat) a name w j w',
      archs w !! i = Some a -> strlen name <= 255 ->
      find_or_add_library (Z.of_nat i) name w = Ok j w' -> 0 <= j ->
      find_or_add_library (Z.of_nat i) name w' = Ok j w' /\
      (exists a' lib,
          archs w' !! i = Some a' /\ arch_name a' = arch_name a /\
          arch_libraries a' !! Z.to_nat j = Some lib /\ lib_name lib = name /\
          forall other k,
            find_name lib_name other (arch_libraries a) 0 = Some k ->
            find_name lib_name other (arch_libraries a') 0 = Some k) /\
      (forall i', i' <> i -> archs w' !! i' = archs w !! i')).
Proof.
  split.
  - intros arch w i w' Hfits. unfold find_or_add_architecture at 1.
    destruct (find_name arch_name arch (archs w) 0) as [k|] eqn:Hfind.
    + intros [= <- <-] Hi. split; [| split; [| done]].
      * unfold find_or_add_architecture. by rewrite Hfind.
      * apply find_name_Some in Hfind as (n & a & -> & Ha & Hn & _).
        exists a. by rewrite Z.add_0_l, Nat2Z.id.
    + destruct (arch_count w <? MAX_ARCH); [| intros [= <- _]; lia].
      intros [= <- <-] _.
      assert (find_name arch_name arch
                (archs w ++ [mkArchitecture (strncpy 31 arch) []]) 0
              = Some (arch_count w)) as Hagain.
      { apply find_name_app_new; [done |]. cbn. by apply strncpy_fits. }
      split; [| split].
      * unfold find_or_add_architecture. cbn [archs set_archs]. by rewrite Hagain.
      * eexists. unfold arch_count. rewrite Nat2Z.id. cbn [archs set_archs].
        split; [by rewrite lookup_app_r, Nat.sub_diag |].
        cbn. by apply strncpy_fits.
      * intros other k (n & a & -> & Ha & Hn & Hbefore)%find_name_Some.
        cbn [archs set_archs].
        apply find_name_first with a; [| done |].
        -- apply lookup_app_l_Some. done.
        -- rewrite take_app_le; [done |].
           apply lookup_lt_Some in Ha. lia.
  - intros i a name w j w' Ha Hfits Hcall Hj.
    destruct (Z_lt_dec (Z.of_nat i) MAX_ARCH) as [Hi|Hi]; cycle 1.
    { unfold find_or_add_library in Hcall.
      rewrite (bind_Fault _ _ _ Obj_archs) in Hcall; [done |].
      apply arch_slot_out. lia. }
    pose proof (lookup_lt_Some _ _ _ Ha) as Hilt.
    destruct (find_name lib_name name (arch_libraries a) 0) as [k|] eqn:Hfind.
    + apply find_name_Some in Hfind as Hk.
      destruct Hk as (n & lib & -> & Hl & Hn & _). rewrite Z.add_0_l in *.
      rewrite (find_or_add_library_found _ _ _ _ _ Ha Hi Hfind) in Hcall.
      injection Hcall as <- <-.
      split; [by apply (find_or_add_library_found _ _ _ a) |].
      split; [| done].
      exists a, lib. rewrite Nat2Z.id. by repeat split.
    + destruct (Z_lt_dec (lib_count a) MAX_LIBS) as [Hc|Hc]; cycle 1.
      { rewrite (find_or_add_library_full _ _ _ _ Ha Hi Hfind) in Hcall by lia.
        injection Hcall as <- _. lia. }
      rewrite (find_or_add_library_new _ _ _ _ Ha Hi Hfind Hc) in Hcall.
      injection Hcall as <- <-.
      set (a' := mkArchitecture (arch_name a)
                   (arch_libraries a ++ [mkLibrary (strncpy 255 name) []])).
      assert (find_name lib_name name (arch_libraries a') 0
              = Some (Z.of_nat (List.length (arch_libraries a)))) as Hagain.
      { apply find_name_app_new; [done |]. cbn. by apply strncpy_fits. }
      assert (archs (set_archs w (<[i := a']> (archs w))) !! i = Some a')
        as Ha' by (cbn; by apply list_lookup_insert_eq).
      split; [by apply (find_or_add_library_found _ _ _ a') |].
      split.
      * exists a', (mkLibrary (strncpy 255 name) []). rewrite Nat2Z.id.
        split; [done |]. split; [done |].
        split; [cbn; by rewrite lookup_app_r, Nat.sub_diag |].
        split; [cbn; by apply strncpy_fits |].
        intros other k (n & lib & -> & Hl & Hn & Hbefore)%find_name_Some.
        cbn. apply find_name_first with lib; [| done |].
        -- by apply lookup_app_l_Some.
        -- rewrite take_app_le; [done |].
           apply lookup_lt_Some in Hl. lia.
      * intros i' Hne. cbn. by rewrite list_lookup_insert_ne.
Qed.

Lemma find_or_add_finds_again_witness :
  find_or_add_architecture "x86"
    (set_archs loop_world (archs loop_world ++ [mkArchitecture "x86" []]))
  = Ok 1 (set_archs loop_world (archs loop_world ++ [mkArchitecture "x86" []])).
Proof.
  exact (proj1 (proj1 find_or_add_finds_again "x86" loop_world 1 _
                  ltac:(by vm_compute) eq_refl ltac:(lia))).
Defined.

(** ** The report files *)

Lemma output_file_fits (out ext : string) :
  String.length ext = 4%nat -> (MAX_PATH <? strlen out + 5) = false ->
  snprintf MAX_PATH (out +:+ ext) = out +:+ ext.
Proof.
  intros Hext Hfit%Z.ltb_ge. apply snprintf_fits.
  unfold strlen in *. rewrite length_append, Hext. lia.
Qed.

(** X15.  A call of [generate_txt_report] that returns has done one of two
    things: written one diagnostic, created no file and left the store
    untouched, or created one file and written no diagnostic.  A call of
    [generate_pdf_report] that returns has saved at most one file, and then
    written no diagnostic.  The file is named by the output name and the
    extension, in full: an output name too long for that is refused before
    anything is opened. *)
Theorem report_file_or_diagnostic (E : Env) (Q : Qsort) (options : Options)
    (w w' : World) :
  (generate_txt_report E options w = Ok tt w' ->
   (files w' = files w /\ archs w' = archs w /\
    exists msg, stderr w' = stderr w ++ [msg]) \/
   (stderr w' = stderr w /\
    exists f, files w' = files w ++ [f] /\
              file_name f = output options +:+ ".txt")) /\
  (generate_pdf_report E options w = Ok tt w' ->
   files w' = files w \/
   (stderr w' = stderr w /\
    exists f, files w' = files w ++ [f] /\
              file_name f = output options +:+ ".pdf")).
Proof.
  split.
  - unfold generate_txt_report.
    destruct (MAX_PATH <? strlen (output options) + 5) eqn:Hlong.
    { intros [= <-]. left. repeat split. by eexists. }
    rewrite (output_file_fits _ ".txt" eq_refl Hlong).
    destruct (negb (fopen_w E _)).
    { intros [= <-]. left. repeat split. by eexists. }
    destruct (txt_architectures (archs w)) as [archs' lines].
    intros [= <-]. right. split; [done |]. by eexists.
  - unfold generate_pdf_report.
    destruct (MAX_PATH <? strlen (output options) + 5) eqn:Hlong.
    { intros [= <-]. by left. }
    rewrite (output_file_fits _ ".pdf" eq_refl Hlong).
    destruct (negb (HPDF_New_ok E)).
    { intros [= <-]. by left. }
    destruct (pdf_architectures E (archs w)) as [[archs' items]|]; [| done].
    destruct (negb (HPDF_SaveToFile_ok E _)); intros [= <-].
    + by left.
    + right. split; [done |]. by eexists.
Qed.

Lemma report_file_or_diagnostic_witness :
  exists w',
    @generate_txt_report quiet_env merge_qsort default_options unsorted_world
    = Ok tt w' /\
    exists f, files w' = [f] /\ file_name f = "bldd_report.txt".
Proof.
  eexists. split; [reflexivity |].
  destruct (proj1 (report_file_or_diagnostic quiet_env merge_qsort
                     default_options unsorted_world _) eq_refl)
    as [(_ & _ & msg & Hmsg) | (_ & f & Hf & Hname)].
  - by destruct msg.
  - by exists f.
Defined.










Section TxtReport.

Context (E : Env) {Q : Qsort}.


Lemma sort_libraries_counts (a : Architecture) :
  lib_count (sort_libraries a) = lib_count a /\
  library_total (sort_libraries a) = library_total a.
Proof.
  unfold lib_count, library_total. cbn. split.
  - by rewrite (Permutation_length (qsort_Permutation compare_libraries _)).
  - apply sumZ_Permutation, qsort_Permutation.
Qed.


End TxtReport.

(** ** Lines of a text *)











(** A path with a newline in it is one [fprintf] call and two lines. *)
Example text_lines_of_a_path_with_newline :
  text_lines (unlines ["-> /bin/a" +:+ String newline "b"])
  = ["-> /bin/a"; "b"].
Proof. reflexivity. Qed.

Lemma strlen_arch_header (a : Architecture) : strlen (arch_header a) <= 53.
Proof.
  unfold arch_header, strlen, strncpy, SEPARATOR.
  rewrite !length_append, substring_0_length. cbn [String.length]. lia.
Qed.

(** X17.  Headers in the PDF.  Each header is built in a buffer of
    MAX_HEADER_SIZE bytes.  An architecture header always fits, so the PDF
    shows the header of the text report.  A library header is cut to 99
    characters: it is the header of the text report when that has at most
    99 characters, and for a library name of 99 or more characters it is
    the beginning of the name, without the number of executables. *)
Theorem pdf_headers_are_cut (E : Env) (Q : Qsort) :
  (forall a rest archs' items,
      pdf_architectures E (a :: rest) = Some (archs', items) ->
      exists items', items = arch_header a :: items') /\
  (forall lib rest items,
      pdf_libraries E (lib :: rest) = Some items ->
      exists items',
        items = String.substring 0 99 (lib_header lib) :: items' /\
        (strlen (lib_header lib) <= 99 ->
         String.substring 0 99 (lib_header lib) = lib_header lib) /\
        (99 <= strlen (lib_name lib) ->
         String.substring 0 99 (lib_header lib)
         = String.substring 0 99 (lib_name lib))).
Proof.
  split.
  - intros a rest archs' items. cbn [pdf_architectures].
    destruct (pdf_libraries E _) as [lib_items|]; [| done].
    destruct (pdf_architectures E rest) as [[rest' items']|]; [| done].
    intros [= _ <-]. rewrite snprintf_fits; [by eexists |].
    pose proof (strlen_arch_header a). unfold MAX_HEADER_SIZE. lia.
  - intros lib rest items. cbn [pdf_libraries].
    destruct (pdf_execs E (lib_execs lib)) as [exec_items|]; [| done].
    destruct (pdf_libraries E rest) as [items'|]; [| done].
    intros [= <-]. eexists. split; [reflexivity |]. split.
    + intros Hfit. apply substring_0_all. unfold strlen in Hfit. lia.
    + intros Hlong. unfold lib_header.
      apply substring_0_append. unfold strlen in Hlong. lia.
Qed.

Lemma pdf_headers_are_cut_witness :
  exists items',
    pdf_libraries quiet_env [mkLibrary "libc.so" ["/bin/a"]]
    = Some ("libc.so (1 execs)" :: items').
Proof.
  destruct (proj2 (pdf_headers_are_cut quiet_env merge_qsort)
              (mkLibrary "libc.so" ["/bin/a"]) [] _ eq_refl)
    as (items' & Hitems & _).
  exists items'. exact (f_equal Some Hitems).
Defined.

(** ** The items of the PDF *)

Section PdfItems.

Context (E : Env) {Q : Qsort}.

Lemma pdf_exec_None (path : string) :
  pdf_exec E path = None <->
  HPDF_too_wide E path = true /\ snd (basename E path) = false.
Proof.
  unfold pdf_exec. destruct (HPDF_too_wide E path); [| by split; [| intros []]].
  destruct (basename E path) as [base []]; cbn; by split; [| intros []].
Qed.

Lemma pdf_exec_Some (path : string) (items : list string) :
  pdf_exec E path = Some items -> items = ["-> "; pdf_path E path].
Proof.
  unfold pdf_exec, pdf_path. destruct (HPDF_too_wide E path);
    [| by intros [= <-]].
  destruct (basename E path) as [base []]; [by intros [= <-] | done].
Qed.

Lemma pdf_execs_None (paths : list string) :
  pdf_execs E paths = None <->
  exists path, path ∈ paths /\ pdf_exec E path = None.
Proof.
  induction paths as [|path paths IH]; cbn [pdf_execs].
  - split; [done | by intros (p & ?%elem_of_nil & _)].
  - split.
    + destruct (pdf_exec E path) as [items|] eqn:Hpath;
        [| intros _; exists path; split; [left | done]].
      destruct (pdf_execs E paths) as [items'|]; [done |]. intros _.
      destruct (proj1 IH eq_refl) as (p & Hp & Hnone).
      exists p. split; [by right | done].
    + intros (p & [-> | Hp]%elem_of_cons & Hnone); [by rewrite Hnone |].
      rewrite (proj2 IH) by (by exists p). by destruct (pdf_exec E path).
Qed.

Lemma pdf_libraries_None (todo : list Library) :
  pdf_libraries E todo = None <->
  exists lib, lib ∈ todo /\ pdf_execs E (lib_execs lib) = None.
Proof.
  induction todo as [|lib todo IH]; cbn [pdf_libraries].
  - split; [done | by intros (p & ?%elem_of_nil & _)].
  - split.
    + destruct (pdf_execs E (lib_execs lib)) as [items|] eqn:Hlib;
        [| intros _; exists lib; split; [left | done]].
      destruct (pdf_libraries E todo) as [items'|]; [done |]. intros _.
      destruct (proj1 IH eq_refl) as (l & Hl & Hnone).
      exists l. split; [by right | done].
    + intros (l & [-> | Hl]%elem_of_cons & Hnone); [by rewrite Hnone |].
      rewrite (proj2 IH) by (by exists l).
      by destruct (pdf_execs E (lib_execs lib)).
Qed.

Lemma pdf_architectures_None (todo : list Architecture) :
  pdf_architectures E todo = None <->
  exists a, a ∈ todo /\ pdf_libraries E (arch_libraries (sort_libraries a)) = None.
Proof.
  induction todo as [|a todo IH]; cbn [pdf_architectures].
  - split; [done | by intros (p & ?%elem_of_nil & _)].
  - split.
    + destruct (pdf_libraries E (arch_libraries (sort_libraries a)))
        as [items|] eqn:Ha; [| intros _; exists a; split; [left | done]].
      destruct (pdf_architectures E todo) as [[rest' items']|]; [done |].
      intros _. destruct (proj1 IH eq_refl) as (x & Hx & Hnone).
      exists x. split; [by right | done].
    + intros (x & [-> | Hx]%elem_of_cons & Hnone); [by rewrite Hnone |].
      rewrite (proj2 IH) by (by exists x).
      by destruct (pdf_libraries E (arch_libraries (sort_libraries a))).
Qed.

(** The loop of the PDF passes a pointer to [free] that [strdup] did not
    return exactly when the store lists such a path. *)
Lemma pdf_architectures_frees (w : World) :
  pdf_architectures E (archs w) = None <-> frees_inside E w.
Proof.
  rewrite pdf_architectures_None. unfold frees_inside. split.
  - intros (a & Ha & (lib & Hlib & (p & Hp & [Hwide Hin]%pdf_exec_None)
                                    %pdf_execs_None)%pdf_libraries_None).
    exists a, lib, p. cbn in Hlib. rewrite qsort_Permutation in Hlib.
    by repeat split.
  - intros (a & lib & p & Ha & Hlib & Hp & Hwide & Hin).
    exists a. split; [done |]. apply pdf_libraries_None. exists lib. split.
    + cbn. by rewrite qsort_Permutation.
    + apply pdf_execs_None. exists p. split; [done |]. by apply pdf_exec_None.
Qed.

Lemma pdf_execs_items (paths items : list string) :
  pdf_execs E paths = Some items ->
  (forall path, path ∈ paths -> pdf_path E path ∈ items) /\
  Z.of_nat (List.length items) = 2 * Z.of_nat (List.length paths).
Proof.
  revert items. induction paths as [|path paths IH]; intros items;
    cbn [pdf_execs].
  - intros [= <-]. split; [by intros p ?%elem_of_nil | done].
  - destruct (pdf_exec E path) as [shown|] eqn:Hpath; [| done].
    destruct (pdf_execs E paths) as [items'|]; [| done].
    intros [= <-]. apply pdf_exec_Some in Hpath as ->.
    destruct (IH items' eq_refl) as [Hin Hlen]. split.
    + intros p [-> | Hp]%elem_of_cons.
      * right. left.
      * right. right. by apply Hin.
    + cbn [app List.length]. lia.
Qed.

Lemma pdf_libraries_items (todo : list Library) (items : list string) :
  pdf_libraries E todo = Some items ->
  (forall lib,
      lib ∈ todo ->
      String.substring 0 99 (lib_header lib) ∈ items /\
      forall path, path ∈ lib_execs lib -> pdf_path E path ∈ items) /\
  Z.of_nat (List.length items)
  = Z.of_nat (List.length todo) + 2 * sumZ exec_count todo.
Proof.
  revert items. induction todo as [|lib todo IH]; intros items;
    cbn [pdf_libraries].
  - intros [= <-]. split; [by intros p ?%elem_of_nil | done].
  - destruct (pdf_execs E (lib_execs lib)) as [exec_items|] eqn:Hlib; [| done].
    destruct (pdf_libraries E todo) as [items'|]; [| done].
    intros [= <-]. apply pdf_execs_items in Hlib as [Hexecs Hcount].
    destruct (IH items' eq_refl) as [Hin Hlen]. split.
    + intros l [-> | Hl]%elem_of_cons.
      * split; [left |]. intros p Hp. right. apply elem_of_app. left.
        by apply Hexecs.
      * destruct (Hin l Hl) as [Hhead Hpaths]. split.
        -- right. apply elem_of_app. by right.
        -- intros p Hp. right. apply elem_of_app. right. by apply Hpaths.
    + cbn [List.length sumZ]. rewrite length_app. unfold exec_count in *. lia.
Qed.

Lemma pdf_architectures_items (todo archs' : list Architecture)
    (items : list string) :
  pdf_architectures E todo = Some (archs', items) ->
  (forall a,
      a ∈ todo ->
      arch_header a ∈ items /\
      forall lib,
        lib ∈ arch_libraries a ->
        String.substring 0 99 (lib_header lib) ∈ items /\
        forall path, path ∈ lib_execs lib -> pdf_path E path ∈ items) /\
  Z.of_nat (List.length items)
  = Z.of_nat (List.length todo) + sumZ lib_count todo
    + 2 * sumZ library_total todo.
Proof.
  revert archs' items. induction todo as [|a todo IH]; intros archs' items;
    cbn [pdf_architectures].
  - intros [= <- <-]. split; [by intros p ?%elem_of_nil | done].
  - destruct (pdf_libraries E (arch_libraries (sort_libraries a)))
      as [lib_items|] eqn:Ha; [| done].
    destruct (pdf_architectures E todo) as [[rest' items']|]; [| done].
    intros [= <- <-]. apply pdf_libraries_items in Ha as [Hlibs Hcount].
    destruct (IH rest' items' eq_refl) as [Hin Hlen].
    rewrite snprintf_fits
      by (pose proof (strlen_arch_header a); unfold MAX_HEADER_SIZE; lia).
    split.
    + intros x [-> | Hx]%elem_of_cons.
      * split; [left |]. intros lib Hlib.
        destruct (Hlibs lib) as [Hhead Hpaths].
        { cbn. by rewrite qsort_Permutation. }
        split; [right; apply elem_of_app; by left |].
        intros p Hp. right. apply elem_of_app. left. by apply Hpaths.
      * destruct (Hin x Hx) as [Hhead Hrest]. split.
        -- right. apply elem_of_app. by right.
        -- intros lib Hlib. destruct (Hrest lib Hlib) as [Hl Hpaths]. split.
           ++ right. apply elem_of_app. by right.
           ++ intros p Hp. right. apply elem_of_app. right. by apply Hpaths.
    + cbn [List.length sumZ]. rewrite length_app.
      destruct (sort_libraries_counts a) as [Hc Ht].
      unfold lib_count, library_total in *. cbn in Hc, Ht, Hcount. lia.
Qed.

End PdfItems.

(** ** Reports: the order of emission *)

Section PdfShown.

Context (E : Env) {Q : Qsort}.

Lemma pdf_execs_shown (paths items : list string) :
  pdf_execs E paths = Some items ->
  items = concat (map (fun path => ["-> "; pdf_path E path]) paths).
Proof.
  revert items. induction paths as [|path paths IH]; intros items;
    cbn [pdf_execs].
  - by intros [= <-].
  - destruct (pdf_exec E path) as [shown|] eqn:Hpath; [| done].
    destruct (pdf_execs E paths) as [items'|]; [| done].
    intros [= <-]. apply pdf_exec_Some in Hpath as ->.
    cbn [map concat]. by rewrite (IH items' eq_refl).
Qed.

Lemma pdf_libraries_shown (todo : list Library) (items : list string) :
  pdf_libraries E todo = Some items ->
  items = concat (map (pdf_library E) todo).
Proof.
  revert items. induction todo as [|lib todo IH]; intros items;
    cbn [pdf_libraries].
  - by intros [= <-].
  - destruct (pdf_execs E (lib_execs lib)) as [exec_items|] eqn:Hlib; [| done].
    destruct (pdf_libraries E todo) as [items'|]; [| done].
    intros [= <-]. apply pdf_execs_shown in Hlib as ->.
    cbn [map concat]. by rewrite (IH items' eq_refl).
Qed.

Lemma pdf_architectures_shown (todo archs' : list Architecture)
    (items : list string) :
  pdf_architectures E todo = Some (archs', items) ->
  items = concat (map (pdf_architecture E) (map sort_libraries todo)).
Proof.
  revert archs' items. induction todo as [|a todo IH]; intros archs' items;
    cbn [pdf_architectures].
  - by intros [= _ <-].
  - destruct (pdf_libraries E (arch_libraries (sort_libraries a)))
      as [lib_items|] eqn:Ha; [| done].
    destruct (pdf_architectures E todo) as [[rest' items']|]; [| done].
    intros [= _ <-]. apply pdf_libraries_shown in Ha as ->.
    cbn [map concat]. by rewrite (IH rest' items' eq_refl).
Qed.

End PdfShown.

(** C8.  A report that is written lists, for each architecture, the
    libraries in the order the store has after the call, which is a
    rearrangement of the order before the call with non-increasing
    executable counts (libraries with equal counts in any order).  For a
    library the text report prints its header, then the paths of its list
    in the order of the list, each after an arrow, then an empty line; the
    PDF shows its header, cut to the header buffer, then for each path of
    its list, in the order of the list, the arrow and the path as the page
    shows it.  The list is in order of first insertion: a [record] call
    only ever appends to it, and after a run of calls it holds the distinct
    paths recorded for the library in the order in which each was first
    recorded. *)
Theorem reports_emit_by_descending_count (E : Env) (Q : Qsort)
    (options : Options) (w w' : World) (f : File) :
  files w' = files w ++ [f] ->
  (generate_txt_report E options w = Ok tt w' ->
   file_lines f = txt_title ++ concat (map txt_architecture (archs w'))) /\
  (generate_pdf_report E options w = Ok tt w' ->
   file_lines f = pdf_title ++ concat (map (pdf_architecture E) (archs w'))) /\
  (generate_txt_report E options w = Ok tt w'
   \/ generate_pdf_report E options w = Ok tt w' ->
   same_up_to_library_order (archs w) (archs w') /\
   Forall (fun a => by_descending_count (arch_libraries a)) (archs w')) /\
  (forall lib,
      txt_library lib
      = lib_header lib :: map (String.append "-> ") (lib_execs lib) ++ [""]) /\
  (forall lib,
      pdf_library E lib
      = String.substring 0 99 (lib_header lib)
          :: concat (map (fun path => ["-> "; pdf_path E path])
                       (lib_execs lib))) /\
  (forall arch name file_path v v',
      record arch name file_path v = Ok tt v' ->
      appends_only file_path (archs v) (archs v')) /\
  (forall events v i a j lib,
      Forall names_fit events ->
      record_all events initial_world = Ok tt v ->
      archs v !! i = Some a -> arch_libraries a !! j = Some lib ->
      lib_execs lib = first_seen (arch_name a) (lib_name lib) events).
Proof.
  intros Hfiles.
  assert (files w <> files w ++ [f]) as Hgrow.
  { intros Heq. apply (f_equal List.length) in Heq.
    rewrite length_app in Heq. simpl in Heq. lia. }
  assert (generate_txt_report E options w = Ok tt w' ->
          archs w' = map sort_libraries (archs w) /\
          file_lines f = txt_title ++ concat (map txt_architecture (archs w')))
    as Htxt.
  { unfold generate_txt_report.
    destruct (MAX_PATH <? _); [intros [= <-]; by destruct Hgrow |].
    destruct (negb (fopen_w E _)); [intros [= <-]; by destruct Hgrow |].
    pose proof (txt_architectures_fst (archs w)) as Hfst.
    pose proof (txt_architectures_snd (archs w)) as Hsnd.
    destruct (txt_architectures (archs w)) as [archs' lines].
    simpl in Hfst, Hsnd. subst archs' lines. intros [= <-].
    cbn in Hfiles. apply app_inj_tail in Hfiles as [_ <-]. by cbn. }
  assert (generate_pdf_report E options w = Ok tt w' ->
          archs w' = map sort_libraries (archs w) /\
          file_lines f
          = pdf_title ++ concat (map (pdf_architecture E) (archs w'))) as Hpdf.
  { unfold generate_pdf_report.
    destruct (MAX_PATH <? _); [intros [= <-]; by destruct Hgrow |].
    destruct (negb (HPDF_New_ok E)); [intros [= <-]; by destruct Hgrow |].
    destruct (pdf_architectures E (archs w)) as [[archs' items]|] eqn:Hitems;
      [| done].
    pose proof (pdf_architectures_fst _ _ _ _ Hitems) as Hfst.
    apply pdf_architectures_shown in Hitems.
    destruct (negb (HPDF_SaveToFile_ok E _)); intros [= <-];
      [by destruct Hgrow |].
    cbn in Hfiles. apply app_inj_tail in Hfiles as [_ <-]. cbn.
    by subst archs' items. }
  split; [intros Hr; by apply Htxt |].
  split; [intros Hr; by apply Hpdf |].
  split; [| split; [done | split; [done | split;
                                             [exact record_appends_only |]]]];
    cycle 1.
  { intros events v i a j lib Hfit Hrun.
    by apply (record_all_first_seen events v Hfit Hrun). }
  intros Hr.
  assert (archs w' = map sort_libraries (archs w)) as ->
    by (destruct Hr as [Hr | Hr]; [by apply Htxt | by apply Hpdf]).
  split; [apply same_up_to_library_order_sort |].
  apply Forall_map, Forall_forall. intros a _. apply sort_libraries_sorted.
Qed.

Lemma reports_emit_by_descending_count_witness :
  (exists w' f,
      @generate_txt_report quiet_env merge_qsort default_options unsorted_world
      = Ok tt w' /\
      files w' = [f] /\
      file_lines f = txt_title ++ concat (map txt_architecture (archs w')) /\
      file_lines f
      = ["Report on dynamic used libraries by ELF executables";
         "------------------------------------------------------------";
         "---------- x86_64 ----------";
         "libc.so (2 execs)"; "-> /bin/a"; "-> /bin/b"; "";
         "libm.so (1 execs)"; "-> /bin/b"; ""]) /\
  (exists w' f,
      @generate_pdf_report quiet_env merge_qsort
        (mkOptions ["c"] "/" "bldd_report" false true) unsorted_world
      = Ok tt w' /\
      files w' = [f] /\
      file_lines f
      = pdf_title ++ concat (map (pdf_architecture quiet_env) (archs w')) /\
      file_lines f
      = ["Report on dynamic used libraries by ELF executables";
         "---------- x86_64 ----------";
         "libc.so (2 execs)"; "-> "; "/bin/a"; "-> "; "/bin/b";
         "libm.so (1 execs)"; "-> "; "/bin/b"]).
Proof.
  split.
  - eexists _, _. split; [reflexivity |]. split; [reflexivity |].
    split; [| reflexivity].
    refine (proj1 (reports_emit_by_descending_count quiet_env merge_qsort
                     default_options unsorted_world _ _ _) _); reflexivity.
  - eexists _, _. split; [reflexivity |]. split; [reflexivity |].
    split; [| reflexivity].
    refine (proj1 (proj2 (reports_emit_by_descending_count quiet_env
                            merge_qsort
                            (mkOptions ["c"] "/" "bldd_report" false true)
                            unsorted_world _ _ _)) _); reflexivity.
Defined.

(** ** Failures of the report files *)

Section PdfFailures.

Context (E : Env) {Q : Qsort}.

(** Sorting the libraries does not change which paths the store lists. *)
Lemma frees_inside_sorted (w w' : World) :
  archs w' = archs w \/ archs w' = map sort_libraries (archs w) ->
  frees_inside E w' -> frees_inside E w.
Proof.
  unfold frees_inside. intros [-> | ->]; [done |].
  intros (a' & lib & path & Ha' & Hlib & Hrest).
  change (map sort_libraries (archs w)) with (sort_libraries <$> archs w) in Ha'.
  apply list_elem_of_fmap in Ha' as (a & -> & Ha).
  exists a, lib, path. split; [done |]. split; [| done].
  cbn in Hlib. by rewrite qsort_Permutation in Hlib.
Qed.

(** Where no listed path is abbreviated, the PDF generator returns. *)
Lemma generate_pdf_report_returns (options : Options) (w w1 : World) :
  pdf_format options = true -> abbreviates_no_path E options w ->
  archs w1 = archs w \/ archs w1 = map sort_libraries (archs w) ->
  exists w2,
    generate_pdf_report E options w1 = Ok tt w2 /\
    (pdf_unwritable E options = true ->
     exists w3 msg,
       w2 = eprint w3 msg /\ files w3 = files w1 /\ stderr w3 = stderr w1).
Proof.
  intros Hpdf Hnone Hw1. unfold pdf_unwritable, generate_pdf_report.
  specialize (Hnone Hpdf).
  destruct (MAX_PATH <? _).
  { eexists. split; [done |]. intros _. by exists w1, "Error: Output filename too long". }
  destruct (HPDF_New_ok E).
  2: { eexists. split; [done |]. intros _.
       by exists w1, "Error: Cannot create PDF document". }
  cbn [negb orb].
  destruct (pdf_architectures E (archs w1)) as [[archs' items]|] eqn:Hitems.
  - destruct (HPDF_SaveToFile_ok E _).
    + eexists. split; [done |]. by intros [=].
    + eexists. split; [done |]. intros _. by eexists _, _.
  - apply pdf_architectures_frees, (frees_inside_sorted w w1 Hw1) in Hitems
      as (a & lib & path & Ha & Hlib & Hpath & Hwide & _).
    by rewrite (Hnone eq_refl eq_refl a lib path) in Hwide.
Qed.

End PdfFailures.

(** C9, as the code has it.  When a requested report file cannot be created
    (the text file cannot be opened, the PDF document cannot be made or
    saved, the name is too long), the failure is written to [stderr]; after
    a failed text report the store is untouched and the PDF is generated
    from it if requested; a failed PDF is the last thing the run does; and
    the process returns 0 once the scan has completed.  This is for a run
    in which the loop of the PDF abbreviates no path.  A text file that
    has been opened is written without a look at the results of the
    writes: nothing is written to [stderr], whether they succeed or not. *)
Theorem report_failure_is_logged_not_fatal (E : Env) (Q : Qsort)
    (options : Options) (w : World) :
  abbreviates_no_path E options w ->
  (exists w', generate_reports E options w = Ok 0 w') /\
  (txt_format options = true -> txt_unwritable E options = true ->
   exists msg,
     generate_txt_report E options w = Ok tt (eprint w msg) /\
     generate_reports E options w
     = ((if pdf_format options then generate_pdf_report E options else ret tt)
        >> ret 0) (eprint w msg)) /\
  (pdf_format options = true -> pdf_unwritable E options = true ->
   exists w1 w2 msg,
     (if txt_format options then generate_txt_report E options else ret tt) w
     = Ok tt w1 /\
     generate_pdf_report E options w1 = Ok tt (eprint w2 msg) /\
     files w2 = files w1 /\
     generate_reports E options w = Ok 0 (eprint w2 msg)) /\
  (forall fuel argv w1,
      parse_arguments E argv initial_world = Ok options w1 ->
      scan_directory E fuel (dir options) options w1 = Some (Ok tt w) ->
      exists w3, main E fuel argv = Some (Ok 0 w3)) /\
  (txt_unwritable E options = false ->
   exists w' f,
     generate_txt_report E options w = Ok tt w' /\
     stderr w' = stderr w /\ files w' = files w ++ [f] /\
     file_complete f = stream_writes_ok E (output options +:+ ".txt")).
Proof.
  intros Hnone.
  assert (exists w1,
             (if txt_format options then generate_txt_report E options
              else ret tt) w = Ok tt w1 /\
             (archs w1 = archs w \/ archs w1 = map sort_libraries (archs w)))
    as (w1 & Htxt & Hw1).
  { destruct (txt_format options); [| exists w; by split; [| left]].
    destruct (generate_txt_report_returns E options w) as [w1 Hw1].
    exists w1. split; [done |].
    by apply (generate_txt_report_archs E options). }
  assert (exists w', generate_reports E options w = Ok 0 w') as Hret.
  { unfold generate_reports. rewrite (bind_Ok _ _ _ _ _ Htxt).
    destruct (pdf_format options) eqn:Hpdf; [| by eexists].
    destruct (generate_pdf_report_returns E options w w1 Hpdf Hnone Hw1)
      as (w2 & Hw2 & _).
    rewrite (bind_Ok _ _ _ _ _ Hw2). by eexists. }
  split; [exact Hret |]. split; [| split; [| split]]; cycle 3.
  { intros [Hlong Hopen]%orb_false_iff. apply negb_false_iff in Hopen.
    unfold generate_txt_report. rewrite Hlong, Hopen. cbn [negb].
    destruct (txt_architectures (archs w)) as [archs' lines].
    eexists _, _. split; [reflexivity |]. cbn.
    by rewrite (output_file_fits _ ".txt" eq_refl Hlong). }
  - intros Hfmt Hfail.
    destruct (generate_txt_report_unwritable E options w Hfail) as [msg Hmsg].
    exists msg. split; [done |].
    unfold generate_reports. rewrite Hfmt.
    by rewrite (bind_Ok _ _ _ _ _ Hmsg).
  - intros Hpdf Hfail.
    destruct (generate_pdf_report_returns E options w w1 Hpdf Hnone Hw1)
      as (w2 & Hw2 & Hlog).
    destruct (Hlog Hfail) as (w3 & msg & -> & Hfiles & _).
    exists w1, w3, msg. repeat split; try done.
    unfold generate_reports. rewrite (bind_Ok _ _ _ _ _ Htxt), Hpdf.
    by rewrite (bind_Ok _ _ _ _ _ Hw2).
  - intros fuel argv w0 Hparse Hscan. unfold main.
    rewrite Hparse, Hscan. destruct Hret as [w3 ->]. by exists w3.
Qed.

Lemma report_failure_is_logged_not_fatal_witness :
  exists w',
    @generate_reports read_only_env merge_qsort
      (mkOptions ["c"] "/" "bldd_report" true true) unsorted_world = Ok 0 w' /\
    "Error: Cannot create output file bldd_report.txt" ∈ stderr w' /\
    "Error: Cannot save PDF to bldd_report.pdf" ∈ stderr w' /\
    files w' = [].
Proof.
  assert (abbreviates_no_path read_only_env
            (mkOptions ["c"] "/" "bldd_report" true true) unsorted_world)
    as Hnone by (intros _ _ _ a lib path _ _ _; reflexivity).
  destruct (proj1 (report_failure_is_logged_not_fatal read_only_env merge_qsort
                     (mkOptions ["c"] "/" "bldd_report" true true)
                     unsorted_world Hnone)) as [w' Hw'].
  exists w'. split; [exact Hw' |].
  vm_compute in Hw'. injection Hw' as <-. cbn [stderr files].
  split; [apply list_elem_of_here |].
  split; [apply list_elem_of_further, list_elem_of_here | reflexivity].
Defined.

(** C9 as stated fails for writing: on a full disk the text file is opened,
    every write to it fails, nothing reaches [stderr], and the process still
    returns 0. *)
Lemma write_failure_is_not_logged :
  exists w' f,
    @generate_reports full_disk_env merge_qsort default_options unsorted_world
    = Ok 0 w' /\
    files w' = [f] /\ file_name f = "bldd_report.txt" /\
    file_complete f = false /\ stderr w' = [].
Proof. eexists _, _. repeat split. Qed.

(** X18.  A PDF that is saved shows the whole store: every architecture
    has its header, every library its header cut to 99 characters, and
    every executable its path, or [".../"] and its [basename] when the path
    is too wide for the page; the document has one text item for the
    title, one for each architecture, one for each library and two for
    each (library, executable) pair. *)
Theorem pdf_report_shows_store (E : Env) (Q : Qsort) (options : Options)
    (w w' : World) (f : File) :
  generate_pdf_report E options w = Ok tt w' -> files w' = files w ++ [f] ->
  (forall a,
      a ∈ archs w ->
      arch_header a ∈ file_lines f /\
      forall lib,
        lib ∈ arch_libraries a ->
        String.substring 0 99 (lib_header lib) ∈ file_lines f /\
        forall path, path ∈ lib_execs lib -> pdf_path E path ∈ file_lines f) /\
  Z.of_nat (List.length (file_lines f))
  = 1 + arch_count w + sumZ lib_count (archs w) + 2 * stored_pairs w.
Proof.
  unfold generate_pdf_report.
  assert (files w <> files w ++ [f]) as Hgrow.
  { intros Heq. apply (f_equal List.length) in Heq.
    rewrite length_app in Heq. simpl in Heq. lia. }
  destruct (MAX_PATH <? _); [intros [= <-] Hf; by destruct Hgrow |].
  destruct (negb (HPDF_New_ok E)); [intros [= <-] Hf; by destruct Hgrow |].
  destruct (pdf_architectures E (archs w)) as [[archs' items]|] eqn:Hitems;
    [| done].
  apply pdf_architectures_items in Hitems as [Hin Hlen].
  destruct (negb (HPDF_SaveToFile_ok E _)); intros [= <-] Hf;
    [by destruct Hgrow |].
  cbn in Hf. apply app_inj_tail in Hf as [_ <-]. cbn [file_lines]. split.
  - intros a Ha. destruct (Hin a Ha) as [Hhead Hlibs]. split; [by right |].
    intros lib Hlib. destruct (Hlibs lib Hlib) as [Hl Hpaths].
    split; [by right |]. intros p Hp. right. by apply Hpaths.
  - cbn [pdf_title app List.length]. unfold arch_count, stored_pairs. lia.
Qed.

Lemma pdf_report_shows_store_witness :
  exists w' f,
    @generate_pdf_report quiet_env merge_qsort
      (mkOptions ["c"] "/" "bldd_report" false true) unsorted_world = Ok tt w' /\
    files w' = [f] /\ "/bin/a" ∈ file_lines f /\
    List.length (file_lines f) = 10%nat.
Proof.
  eexists _, _. split; [reflexivity |]. split; [reflexivity |].
  destruct (pdf_report_shows_store quiet_env merge_qsort
              (mkOptions ["c"] "/" "bldd_report" false true)
              unsorted_world _ _ eq_refl eq_refl) as (Hshown & Hcount).
  split.
  - destruct (Hshown (mkArchitecture "x86_64"
                        [mkLibrary "libm.so" ["/bin/b"];
                         mkLibrary "libc.so" ["/bin/a"; "/bin/b"]])
                (list_elem_of_here _ _)) as [_ Hlibs].
    destruct (Hlibs (mkLibrary "libc.so" ["/bin/a"; "/bin/b"])) as [_ Hexecs].
    { apply list_elem_of_further, list_elem_of_here. }
    apply (Hexecs "/bin/a"), list_elem_of_here.
  - apply Nat2Z.inj. rewrite Hcount. reflexivity.
Defined.

(** X19.  Where the PDF generator leaves defined behaviour.
    [generate_pdf_report] passes the result of [basename] to [free].  The
    call has no defined outcome exactly when the document is being built
    (the output name is not too long and [HPDF_New] has returned one) and
    the store lists a path that is too wide for the page and for which
    [basename] returns a pointer other than the block of [strdup]; in every
    other case it returns. *)
Theorem generate_pdf_report_frees (E : Env) (Q : Qsort) (options : Options)
    (w : World) :
  ((exists o, generate_pdf_report E options w = Fault o) <->
   (MAX_PATH <? strlen (output options) + 5) = false /\
   HPDF_New_ok E = true /\ frees_inside E w) /\
  (forall o, generate_pdf_report E options w = Fault o -> o = Obj_heap) /\
  (forall s w', generate_pdf_report E options w <> Exit s w').
Proof.
  pose proof (pdf_architectures_frees E w) as Hfrees.
  unfold generate_pdf_report.
  destruct (MAX_PATH <? strlen (output options) + 5).
  { split; [| done]. split; [by intros [o ?] | by intros [? _]]. }
  destruct (HPDF_New_ok E); cbn [negb].
  2: { split; [| done]. split; [by intros [o ?] | by intros (_ & ? & _)]. }
  destruct (pdf_architectures E (archs w)) as [[archs' items]|].
  - split; [| split; by destruct (negb _)]. split.
    + intros [o Ho]. by destruct (negb _).
    + intros (_ & _ & Hin%Hfrees). done.
  - split; [| split; [by intros o [= <-] | done]]. split.
    + intros _. repeat split. by apply Hfrees.
    + intros _. by exists Obj_heap.
Qed.

Lemma generate_pdf_report_frees_witness :
  @generate_pdf_report narrow_page_env merge_qsort
    (mkOptions ["c"] "/" "bldd_report" false true) unsorted_world
  = Fault Obj_heap.
Proof.
  destruct (proj2 (proj1 (generate_pdf_report_frees narrow_page_env merge_qsort
                            (mkOptions ["c"] "/" "bldd_report" false true)
                            unsorted_world))) as [o Ho].
  { split; [reflexivity |]. split; [reflexivity |].
    exists (mkArchitecture "x86_64"
              [mkLibrary "libm.so" ["/bin/b"];
               mkLibrary "libc.so" ["/bin/a"; "/bin/b"]]),
      (mkLibrary "libm.so" ["/bin/b"]), "/bin/b".
    repeat split; apply list_elem_of_here. }
  rewrite Ho. f_equal.
  exact (proj1 (proj2 (generate_pdf_report_frees narrow_page_env merge_qsort
                         (mkOptions ["c"] "/" "bldd_report" false true)
                         unsorted_world)) o Ho).
Defined.

(** ** The process as a whole *)

Lemma scan_directory_no_exit (E : Env) (options : Options) (fuel : nat)
    (root : string) (w : World) (s : Z) (w' : World) :
  scan_directory E fuel root options w <> Some (Exit s w').
Proof.
  intros Hscan.
  apply (scan_directory_outcome E options root (fun _ => True)
           (fun _ => True)) in Hscan; try done.
  intros arch name file_path v _ _.
  destruct (record arch name file_path v) as [[] v'| |] eqn:Hrec; try done.
  by apply record_no_exit in Hrec.
Qed.

Lemma generate_pdf_report_no_exit (E : Env) {Q : Qsort} (options : Options)
    (w : World) (s : Z) (w' : World) :
  generate_pdf_report E options w <> Exit s w'.
Proof.
  unfold generate_pdf_report.
  destruct (MAX_PATH <? _); [done |].
  destruct (negb (HPDF_New_ok E)); [done |].
  destruct (pdf_architectures E (archs w)) as [[archs' items]|]; [| done].
  by destruct (negb _).
Qed.

Lemma generate_reports_status (E : Env) {Q : Qsort} (options : Options)
    (w : World) :
  match generate_reports E options w with
  | Ok status _ => status = 0
  | Exit _ _ => False
  | Fault _ => True
  end.
Proof.
  unfold generate_reports, bind.
  assert (forall v,
             match
               match (if pdf_format options then generate_pdf_report E options
                      else ret tt) v with
               | Ok _ w' => ret 0 w'
               | Exit s w' => Exit s w'
               | Fault o => Fault o
               end
             with
             | Ok status _ => status = 0
             | Exit _ _ => False
             | Fault _ => True
             end) as Hpdf.
  { intros v. destruct (pdf_format options); [| done].
    pose proof (generate_pdf_report_no_exit E options v) as Hno.
    destruct (generate_pdf_report E options v) as [[] v'|s v'|o]; try done.
    by destruct (Hno s v'). }
  destruct (txt_format options); [| apply Hpdf].
  destruct (generate_txt_report_returns E options w) as [w1 ->]. apply Hpdf.
Qed.

(** X20.  The exit status of the program.  [main] returns 0 whenever it
    returns.  The process is ended with a status only by
    [parse_arguments]: with 0 and nothing on [stderr], or with 1 and one
    diagnostic on [stderr]; then nothing has been scanned and no report
    has been written.  A failure during the scan or in a report never
    changes the status. *)
Theorem main_exit_status (E : Env) (Q : Qsort) (fuel : nat)
    (argv : list string) (r : result Z) :
  main E fuel argv = Some r ->
  match r with
  | Ok status _ => status = 0
  | Exit status w =>
      ((status = 0 /\ stderr w = [])
       \/ (status = 1 /\ exists msg, stderr w = [msg])) /\
      archs w = [] /\ total_execs w = 0 /\ files w = []
  | Fault _ => True
  end.
Proof.
  unfold main.
  pose proof (parse_arguments_cases E argv initial_world) as Hparse.
  destruct (parse_arguments E argv initial_world) as [options w|s w|o].
  - subst w.
    destruct (scan_directory E fuel (dir options) options initial_world)
      as [[[] w1|s w1|o]|] eqn:Hscan; [| | | done].
    + intros [= <-]. pose proof (generate_reports_status E options w1) as Hr.
      by destruct (generate_reports E options w1).
    + by apply scan_directory_no_exit in Hscan.
    + by intros [= <-].
  - intros [= <-].
    destruct Hparse as [[-> ->] | [-> [msg ->]]].
    + split; [by left | done].
    + split; [right; split; [done | by exists msg] | done].
  - by intros [= <-].
Qed.

Lemma main_exit_status_witness :
  exists w msg,
    @main quiet_env merge_qsort 1 ["bldd"; "--dir"; "/"] = Some (Exit 1 w) /\
    stderr w = [msg] /\ files w = [].
Proof.
  eexists _.
  pose proof (main_exit_status quiet_env merge_qsort 1 ["bldd"; "--dir"; "/"]
                _ eq_refl) as [[[Hzero _] | [_ [msg Hmsg]]] (_ & _ & Hfiles)];
    [done |].
  exists msg. split; [reflexivity |]. by split.
Defined.

(** ** From the command line to the report *)




